(** * WonderfulAI: the agent orchestration core, embedded in Rocq

    A shallow embedding of the backend of the pharmacy assistant:
    - [tools]: the tool registry of [backend/app/tools.py] ([run_tool],
      [TOOL_SPECS], [_increment_tool_stat], [get_tool_stats],
      [request_prescription_refill]) over an explicit data store;
    - [openai_agent] and [gemini_agent]: the two provider adapters
      ([stream]) of [backend/app/agents], as functions from a provider
      behaviour to the sequence of events the generator yields, and their
      converters ([_to_openai_tools], [_to_gemini_tools],
      [_convert_messages_to_contents]).

    Python generators are modelled by the finite list of the events they
    yield, together with the way they stop (normal return or an exception
    that escapes).  Exceptions are explicit values; every exception of the
    model is an instance of Python's [Exception]. *)

From Stdlib Require Import String Ascii List ZArith Lia Bool Arith DecimalString.
From Stdlib Require Import Sorted Permutation.
From Stdlib Require DecimalNat DecimalFacts.
Import ListNotations.
Open Scope string_scope.
Open Scope list_scope.
Set Warnings "-register-all".

(* ================================================================== *)
(** * Part I: definitions *)
(* ================================================================== *)

(** ** Python values, exceptions and outcomes *)

Inductive exn_class : Type :=
| TypeError
| KeyError
| RuntimeError
| DatabaseError
| ProviderError
| ValueError.

(** An exception: its class and [str(e)]. *)
Record exn : Type := mk_exn { exn_kind : exn_class; exn_message : string }.

Inductive outcome (A : Type) : Type :=
| Ret (a : A)
| Raise (e : exn).
Arguments Ret {A} a.
Arguments Raise {A} e.

Definition is_TypeError (e : exn) : bool :=
  match exn_kind e with TypeError => true | _ => false end.

(** JSON-serialisable Python values (what [json.loads] returns and what the
    tools return). A [dict] is an association list in insertion order. *)
Inductive Json : Type :=
| JNull
| JBool (b : bool)
| JInt (z : Z)
| JFloat (lexeme : string)
| JStr (s : string)
| JArr (items : list Json)
| JObj (fields : list (string * Json)).

(** [type(v).__name__] *)
Definition py_type_name (v : Json) : string :=
  match v with
  | JNull => "NoneType"
  | JBool _ => "bool"
  | JInt _ => "int"
  | JFloat _ => "float"
  | JStr _ => "str"
  | JArr _ => "list"
  | JObj _ => "dict"
  end.

(** [needle in hay] on Python strings. *)
Fixpoint is_substring (needle hay : string) : bool :=
  String.prefix needle hay ||
  match hay with
  | EmptyString => false
  | String _ rest => is_substring needle rest
  end.

(** Decimal rendering of integers inside f-strings. *)
Definition str_of_Z (z : Z) : string := NilZero.string_of_int (Z.to_int z).
Definition str_of_nat (n : nat) : string := NilZero.string_of_uint (Nat.to_uint n).

(** [d.get(k)] on an association list. *)
Fixpoint dict_get {V : Type} (k : string) (d : list (string * V)) : option V :=
  match d with
  | [] => None
  | (k', v) :: rest => if String.eqb k' k then Some v else dict_get k rest
  end.

Definition has_key {V : Type} (k : string) (d : list (string * V)) : bool :=
  match dict_get k d with Some _ => true | None => false end.

(** Python truthiness of an optional string attribute ([None] and [""] are falsy). *)
Definition truthy (s : option string) : bool :=
  match s with
  | None => false
  | Some EmptyString => false
  | Some _ => true
  end.

Definition text_of (s : option string) : string :=
  match s with Some t => t | None => "" end.

(** ** The canonical event stream *)

Inductive AgentEvent : Type :=
| text_delta (delta : string)
| tool_args_delta (item_id delta : string)
| tool_call (name call_id : string) (arguments : Json)
| tool_result (name call_id : string) (result : Json)
| done
| error (message : string).

Definition is_terminal (ev : AgentEvent) : bool :=
  match ev with
  | done | error _ => true
  | _ => false
  end.

Definition is_text_delta (ev : AgentEvent) : bool :=
  match ev with text_delta _ => true | _ => false end.

Definition is_tool_args_delta (ev : AgentEvent) : bool :=
  match ev with tool_args_delta _ _ => true | _ => false end.

(** The number of terminal events of a sequence. *)
Definition count_terminal (evs : list AgentEvent) : nat :=
  length (filter is_terminal evs).

Definition no_terminal (evs : list AgentEvent) : bool :=
  forallb (fun ev => negb (is_terminal ev)) evs.

(** The sequence is some non-terminal events followed by one terminal event. *)
Definition closed_by_terminal (evs : list AgentEvent) : Prop :=
  exists pre t, evs = pre ++ [t] /\ is_terminal t = true /\ no_terminal pre = true.

(** An event a provider increment gives rise to, for the call [call_id]. *)
Definition is_delta_of (call_id : string) (ev : AgentEvent) : bool :=
  match ev with
  | text_delta _ => true
  | tool_args_delta item_id _ => String.eqb item_id call_id
  | _ => false
  end.

(** The events of a round that invokes one tool: increments among which at
    least one [tool_args_delta], then the [tool_call], then the
    [tool_result], all three kinds carrying the same call identifier. *)
Inductive tool_round_events : list AgentEvent -> Prop :=
| tool_round_events_intro (deltas : list AgentEvent) (call_id name : string)
                          (arguments result : Json) :
    forallb (is_delta_of call_id) deltas = true ->
    existsb is_tool_args_delta deltas = true ->
    tool_round_events
      (deltas ++ [tool_call name call_id arguments; tool_result name call_id result]).

(** The event stems from a provider increment. *)
Definition is_increment (ev : AgentEvent) : bool :=
  is_text_delta ev || is_tool_args_delta ev.

(** The event reports a tool invocation. *)
Definition is_tool_event (ev : AgentEvent) : bool :=
  match ev with
  | tool_call _ _ _ | tool_result _ _ _ => true
  | _ => false
  end.

(** The call identifiers of the argument fragments of a sequence, in order. *)
Definition args_delta_ids (evs : list AgentEvent) : list string :=
  flat_map (fun ev => match ev with tool_args_delta item_id _ => [item_id] | _ => [] end) evs.

(** [text] occurs in [message]. *)
Definition mentions (message text : string) : Prop :=
  exists before after, message = (before ++ text ++ after)%string.

(** ** The data store and its failures *)

(** A row of [prescriptions]. *)
Record Prescription : Type := {
  rx_prescription_id : string;
  rx_user_id : string;
  rx_med_id : string;
  rx_directions : string;
  rx_refills_remaining : Z;
  rx_expires_at : string
}.

(** A row of [refill_requests], in the column order of the INSERT. *)
Record RefillRequest : Type := {
  refill_request_id : string;
  rr_prescription_id : string;
  rr_user_id : string;
  rr_status : string;
  rr_created_at : string
}.

(** One reading of [datetime.utcnow()], through the three renderings the
    code uses. *)
Record Instant : Type := {
  date_isoformat : string;      (* .date().isoformat() *)
  strftime_millis : string;     (* .strftime('%Y%m%d%H%M%S%f')[:-3] *)
  isoformat : string            (* .isoformat() *)
}.

(** The world a tool runs in: the tables the core writes, the script of
    failures of the coming database statements ([Some e]: the next statement
    raises [e], nothing is committed), and the clock. *)
Record World : Type := {
  prescriptions : list Prescription;
  refill_requests : list RefillRequest;
  tool_stats : list (string * Z);
  faults : list (option exn);
  clock : nat -> Instant;
  ticks : nat
}.

Definition with_prescriptions (ps : list Prescription) (w : World) : World :=
  {| prescriptions := ps; refill_requests := refill_requests w;
     tool_stats := tool_stats w; faults := faults w;
     clock := clock w; ticks := ticks w |}.

Definition with_refill_requests (rs : list RefillRequest) (w : World) : World :=
  {| prescriptions := prescriptions w; refill_requests := rs;
     tool_stats := tool_stats w; faults := faults w;
     clock := clock w; ticks := ticks w |}.

Definition with_tool_stats (ts : list (string * Z)) (w : World) : World :=
  {| prescriptions := prescriptions w; refill_requests := refill_requests w;
     tool_stats := ts; faults := faults w;
     clock := clock w; ticks := ticks w |}.

Definition with_faults (fs : list (option exn)) (w : World) : World :=
  {| prescriptions := prescriptions w; refill_requests := refill_requests w;
     tool_stats := tool_stats w; faults := fs;
     clock := clock w; ticks := ticks w |}.

Definition with_ticks (n : nat) (w : World) : World :=
  {| prescriptions := prescriptions w; refill_requests := refill_requests w;
     tool_stats := tool_stats w; faults := faults w;
     clock := clock w; ticks := n |}.

(** Computations over the world that may raise. The world after a raise is
    kept: every [exec_sql] commits on its own. *)
Definition M (A : Type) : Type := World -> outcome A * World.

Definition ret {A : Type} (a : A) : M A := fun w => (Ret a, w).

Definition raise {A : Type} (e : exn) : M A := fun w => (Raise e, w).

Definition bind {A B : Type} (c : M A) (k : A -> M B) : M B :=
  fun w =>
    match c w with
    | (Ret a, w') => k a w'
    | (Raise e, w') => (Raise e, w')
    end.

Notation "x <- c ;; k" := (bind c (fun x => k))
  (at level 61, c at next level, right associativity).
Notation "c ;;; k" := (bind c (fun _ => k))
  (at level 61, right associativity).

(** [try: c except Exception: h] *)
Definition try_except {A : Type} (c : M A) (h : exn -> M A) : M A :=
  fun w =>
    match c w with
    | (Ret a, w') => (Ret a, w')
    | (Raise e, w') => h e w'
    end.

(** ** [backend/app/db.py] over the modelled tables *)

Module db.

(** [get_conn()] followed by [cur.execute]: consumes one entry of the
    failure script. *)
Definition statement : M unit :=
  fun w =>
    match faults w with
    | [] => (Ret tt, w)
    | None :: fs => (Ret tt, with_faults fs w)
    | Some e :: fs => (Raise e, with_faults fs w)
    end.

(** [query_one("SELECT * FROM prescriptions WHERE prescription_id=%s", (pid,))] *)
Definition query_one_prescription (pid : string) : M (option Prescription) :=
  statement ;;;
  fun w => (Ret (find (fun r => String.eqb (rx_prescription_id r) pid) (prescriptions w)), w).

(** [exec_sql("INSERT INTO refill_requests VALUES (%s,%s,%s,%s,%s)", row)] *)
Definition exec_sql_insert_refill_request (row : RefillRequest) : M unit :=
  statement ;;;
  fun w => (Ret tt, with_refill_requests (refill_requests w ++ [row]) w).

Definition decrement_refills (pid : string) (r : Prescription) : Prescription :=
  if String.eqb (rx_prescription_id r) pid then
    {| rx_prescription_id := rx_prescription_id r; rx_user_id := rx_user_id r;
       rx_med_id := rx_med_id r; rx_directions := rx_directions r;
       rx_refills_remaining := rx_refills_remaining r - 1;
       rx_expires_at := rx_expires_at r |}
  else r.

(** [exec_sql("UPDATE prescriptions SET refills_remaining = refills_remaining - 1
               WHERE prescription_id=%s", (pid,))] *)
Definition exec_sql_decrement_refills (pid : string) : M unit :=
  statement ;;;
  fun w => (Ret tt, with_prescriptions (map (decrement_refills pid) (prescriptions w)) w).

Fixpoint upsert_count (tool_name : string) (ts : list (string * Z)) : list (string * Z) :=
  match ts with
  | [] => [(tool_name, 1%Z)]
  | (n, c) :: rest =>
      if String.eqb n tool_name then (n, (c + 1)%Z) :: rest
      else (n, c) :: upsert_count tool_name rest
  end.

(** [exec_sql("INSERT INTO tool_stats ... ON CONFLICT (tool_name) DO UPDATE
               SET call_count = tool_stats.call_count + 1", (tool_name,))] *)
Definition exec_sql_upsert_tool_stat (tool_name : string) : M unit :=
  statement ;;;
  fun w => (Ret tt, with_tool_stats (upsert_count tool_name (tool_stats w)) w).

(** [datetime.utcnow()] *)
Definition utcnow : M Instant :=
  fun w => (Ret (clock w (ticks w)), with_ticks (S (ticks w)) w).

(** [ORDER BY call_count DESC]: rows with the larger count first; rows with
    equal counts are left in table order (SQL leaves their order open). *)
Fixpoint insert_by_count_desc (row : string * Z) (sorted : list (string * Z))
  : list (string * Z) :=
  match sorted with
  | [] => [row]
  | r :: rest =>
      if (snd r <? snd row)%Z then row :: r :: rest
      else r :: insert_by_count_desc row rest
  end.

Definition order_by_count_desc (rows : list (string * Z)) : list (string * Z) :=
  fold_left (fun sorted row => insert_by_count_desc row sorted) rows [].

(** [query_all("SELECT tool_name, call_count FROM tool_stats
               ORDER BY call_count DESC", ())] *)
Definition query_all_tool_stats : M (list (string * Z)) :=
  statement ;;;
  fun w => (Ret (order_by_count_desc (tool_stats w)), w).

End db.

(** ** Collaborators outside the repository's source

    - [json_loads], [json_dumps]: the JSON codec of the Python standard
      library; [json_loads s = None] stands for [json.JSONDecodeError], and
      [json_dumps] is total on JSON values;
    - [SYSTEM_INSTRUCTIONS]: the system prompt, read from a file at import
      time;
    - [catalog_tool name kw]: what the query-only tool [name] computes from
      its bound keyword arguments.  These tools run SELECT statements with
      PostgreSQL operators (ILIKE, similarity, joins); what the database
      answers is not modelled, so their result in a given world is taken as
      given. *)
Class Collaborators : Type := {
  json_loads : string -> option Json;
  json_dumps : Json -> string;
  SYSTEM_INSTRUCTIONS : string;
  catalog_tool : string -> list (string * Json) -> M Json
}.

(** ** [backend/app/tools.py] *)

Module tools.
Section Registry.
Context {X : Collaborators}.

Definition rejected (code : string) : Json :=
JObj [("accepted", JBool false); ("error", JStr code)].

Definition accepted (rrid : string) : Json :=
JObj [("accepted", JBool true); ("refill_request_id", JStr rrid);
      ("status", JStr "submitted"); ("eta_hours", JInt 4)].

Definition request_prescription_refill (user_id prescription_id : string) : M Json :=
rx <- db.query_one_prescription prescription_id ;;
match rx with
| None => ret (rejected "NOT_FOUND")
| Some rx =>
    if negb (String.eqb (rx_user_id rx) user_id) then ret (rejected "UNAUTHORIZED")
    else if (rx_refills_remaining rx <=? 0)%Z then ret (rejected "NO_REFILLS")
    else
      today <- db.utcnow ;;
      if String.ltb (rx_expires_at rx) (date_isoformat today) then ret (rejected "EXPIRED")
      else
        stamp <- db.utcnow ;;
        let rrid := ("RR-" ++ strftime_millis stamp ++ "-" ++ prescription_id)%string in
        created <- db.utcnow ;;
        db.exec_sql_insert_refill_request
          {| refill_request_id := rrid; rr_prescription_id := prescription_id;
             rr_user_id := user_id; rr_status := "submitted";
             rr_created_at := isoformat created ++ "Z" |} ;;;
        db.exec_sql_decrement_refills prescription_id ;;;
        ret (accepted rrid)
end.

(** [try: exec_sql(...) except Exception: return] *)
Definition _increment_tool_stat (tool_name : string) : M unit :=
try_except (db.exec_sql_upsert_tool_stat tool_name) (fun _ => ret tt).

(** A tool function: its name and its parameters in order, each flagged
  [true] when it has no default. *)
Record ToolFn : Type := { fn_name : string; fn_params : list (string * bool) }.

Definition required_params (f : ToolFn) : list string :=
map fst (filter snd (fn_params f)).

(** The body a tool function runs once its keyword arguments are bound.
  [request_prescription_refill] is the function above on its declared
  argument type [str]; every other call is a catalog query. *)
Definition tool_body (f : ToolFn) (kw : list (string * Json)) : M Json :=
if String.eqb (fn_name f) "request_prescription_refill" then
  match dict_get "user_id" kw, dict_get "prescription_id" kw with
  | Some (JStr u), Some (JStr p) => request_prescription_refill u p
  | _, _ => catalog_tool (fn_name f) kw
  end
else catalog_tool (fn_name f) kw.

(** CPython's rendering of the missing names: ['a'], ['a' and 'b'],
  ['a', 'b', and 'c']. *)
Definition quoted (n : string) : string := "'" ++ n ++ "'".

Fixpoint join_missing (ns : list string) : string :=
match ns with
| [] => ""
| [a] => "and " ++ quoted a
| a :: rest => quoted a ++ ", " ++ join_missing rest
end.

Definition format_missing (ns : list string) : string :=
match ns with
| [] => ""
| [a] => quoted a
| [a; b] => quoted a ++ " and " ++ quoted b
| _ => join_missing ns
end.

Definition missing_message (f : ToolFn) (ns : list string) : string :=
fn_name f ++ "() missing " ++ str_of_nat (length ns) ++ " required positional argument"
  ++ (if Nat.eqb (length ns) 1 then "" else "s") ++ ": " ++ format_missing ns.

Definition unexpected_message (f : ToolFn) (k : string) : string :=
fn_name f ++ "() got an unexpected keyword argument " ++ quoted k.

Definition not_a_mapping_message (f : ToolFn) (v : Json) : string :=
"app.tools." ++ fn_name f ++ "() argument after ** must be a mapping, not "
  ++ py_type_name v.

(** Calling [func] with the keyword arguments [args]: CPython binds the keywords first (the first one that
  names no parameter raises), then reports the parameters without a
  default that got no value, then runs the body. *)
Definition call_kw (f : ToolFn) (args : Json) : M Json :=
match args with
| JObj kw =>
    match find (fun kv => negb (has_key (fst kv) (fn_params f))) kw with
    | Some (k, _) => raise (mk_exn TypeError (unexpected_message f k))
    | None =>
        match filter (fun p => negb (has_key p kw)) (required_params f) with
        | [] => tool_body f kw
        | ns => raise (mk_exn TypeError (missing_message f ns))
        end
    end
| v => raise (mk_exn TypeError (not_a_mapping_message f v))
end.

Definition fn (name : string) (params : list (string * bool)) : string * ToolFn :=
(name, {| fn_name := name; fn_params := params |}).

Definition tool_map : list (string * ToolFn) :=
[ fn "get_medication_by_name" [("name", true)];
  fn "list_medications" [("search_term", false); ("limit", false)];
  fn "search_users" [("name", false); ("email", false); ("phone", false); ("user_id", false)];
  fn "check_stock_availability" [("med_id", true); ("store_id", true)];
  fn "list_user_prescriptions" [("user_id", true)];
  fn "request_prescription_refill" [("user_id", true); ("prescription_id", true)];
  fn "query_medications_flexible"
     [("brand_name", false); ("generic_name", false); ("active_ingredient", false);
      ("form", false); ("strength", false); ("rx_required", false); ("limit", false)];
  fn "query_medications_with_stock"
     [("search_term", false); ("active_ingredient", false); ("form", false);
      ("rx_required", false); ("store_ids", false); ("in_stock_only", false);
      ("limit", false)];
  fn "query_stock_multiple_stores"
     [("med_id", false); ("med_name", false); ("store_ids", false);
      ("in_stock_only", false)];
  fn "list_stores" [("city", false)];
  fn "query_prescriptions_flexible"
     [("user_id", false); ("med_id", false); ("med_name", false);
      ("expiring_soon_days", false); ("has_refills", false); ("limit", false)] ].

Definition unknown_tool (name : string) : Json :=
JObj [("error", JStr "UNKNOWN_TOOL"); ("tool", JStr name)].

Definition missing_required_argument (name error_msg : string) : Json :=
JObj [("error", JStr "MISSING_REQUIRED_ARGUMENT"); ("message", JStr error_msg);
      ("tool", JStr name)].

(** [try: return func(...) except TypeError as e: ...] *)
Definition guarded_call (name : string) (func : ToolFn) (args : Json) : M Json :=
try_except (call_kw func args)
  (fun e =>
     if is_TypeError e then
       let error_msg := exn_message e in
       if is_substring "missing" error_msg && is_substring "required" error_msg
       then ret (missing_required_argument name error_msg)
       else raise e
     else raise e).

Definition run_tool (name : string) (args : Json) : M Json :=
match dict_get name tool_map with
| None => ret (unknown_tool name)
| Some func =>
    try_except (_increment_tool_stat name) (fun _ => ret tt) ;;;
    guarded_call name func args
end.

(** [[{"tool_name": r["tool_name"], "call_count": int(r["call_count"])} for r in rows]] *)
Definition get_tool_stats : M (list Json) :=
  rows <- db.query_all_tool_stats ;;
  ret (map (fun r => JObj [("tool_name", JStr (fst r)); ("call_count", JInt (snd r))]) rows).

(** An entry of [TOOL_SPECS], as far as argument binding goes: the tool's
    name, the names of the properties of its parameter schema and its
    [required] list.  The description texts and the property types are left
    out. *)
Record ToolSpec : Type := {
  spec_name : string;
  spec_properties : list string;
  spec_required : list string
}.

Definition TOOL_SPECS : list ToolSpec :=
  [ {| spec_name := "get_medication_by_name";
       spec_properties := ["name"]; spec_required := ["name"] |};
    {| spec_name := "list_medications";
       spec_properties := ["search_term"; "limit"]; spec_required := [] |};
    {| spec_name := "search_users";
       spec_properties := ["name"; "email"; "phone"; "user_id"]; spec_required := [] |};
    {| spec_name := "check_stock_availability";
       spec_properties := ["med_id"; "store_id"]; spec_required := ["med_id"; "store_id"] |};
    {| spec_name := "list_user_prescriptions";
       spec_properties := ["user_id"]; spec_required := ["user_id"] |};
    {| spec_name := "request_prescription_refill";
       spec_properties := ["user_id"; "prescription_id"];
       spec_required := ["user_id"; "prescription_id"] |};
    {| spec_name := "query_medications_flexible";
       spec_properties := ["brand_name"; "generic_name"; "active_ingredient"; "form";
                           "strength"; "rx_required"; "limit"];
       spec_required := [] |};
    {| spec_name := "query_medications_with_stock";
       spec_properties := ["search_term"; "active_ingredient"; "form"; "rx_required";
                           "store_ids"; "in_stock_only"; "limit"];
       spec_required := [] |};
    {| spec_name := "query_stock_multiple_stores";
       spec_properties := ["med_id"; "med_name"; "store_ids"; "in_stock_only"];
       spec_required := [] |};
    {| spec_name := "list_stores";
       spec_properties := ["city"]; spec_required := [] |};
    {| spec_name := "query_prescriptions_flexible";
       spec_properties := ["user_id"; "med_id"; "med_name"; "expiring_soon_days";
                           "has_refills"; "limit"];
       spec_required := [] |} ].

(** The keyword arguments [args] bind to the parameters of [f]: [args] is a
    mapping, each of its keys names a parameter and no parameter without a
    default is left out. *)
Definition binds (f : ToolFn) (args : Json) : bool :=
  match args with
  | JObj kw =>
      forallb (fun kv => has_key (fst kv) (fn_params f)) kw
      && forallb (fun p => has_key p kw) (required_params f)
  | _ => false
  end.

(** The mapping [kw] conforms to the schema of [spec]: its keys are
    properties of the schema and every required property is given. *)
Definition conforms (spec : ToolSpec) (kw : list (string * Json)) : bool :=
  forallb (fun kv => existsb (String.eqb (fst kv)) (spec_properties spec)) kw
  && forallb (fun p => has_key p kw) (spec_required spec).

(** The schema of [spec] agrees with the signature of [f]: every property
    is a parameter, and every parameter without a default is required. *)
Definition schema_fits (spec : ToolSpec) (f : ToolFn) : bool :=
  forallb (fun p => has_key p (fn_params f)) (spec_properties spec)
  && forallb (fun p => existsb (String.eqb p) (spec_required spec)) (required_params f).

(** [n] successive refill requests for the same prescription. *)
Fixpoint refill_repeatedly (n : nat) (user_id prescription_id : string) (w : World)
  : list (outcome Json) * World :=
  match n with
  | O => ([], w)
  | S n' =>
      let '(o, w1) := request_prescription_refill user_id prescription_id w in
      let '(os, w2) := refill_repeatedly n' user_id prescription_id w1 in
      (o :: os, w2)
  end.

End Registry.
End tools.

(** The order of the rows [get_tool_stats] reads: no row stands before a
    row with a larger count. *)
Definition by_count_desc (a b : string * Z) : Prop := (snd b <= snd a)%Z.

(** The entry [get_tool_stats] builds from a row. *)
Definition stat_row (r : string * Z) : Json :=
  JObj [("tool_name", JStr (fst r)); ("call_count", JInt (snd r))].

Section Replay.
Context {X : Collaborators}.

(** The world after the tool invocations that the [tool_call] events of a
    sequence report, performed in order from [w]. *)
Fixpoint replay (evs : list AgentEvent) (w : World) : World :=
  match evs with
  | [] => w
  | tool_call name _ arguments :: rest => replay rest (snd (tools.run_tool name arguments w))
  | _ :: rest => replay rest w
  end.

End Replay.

(** The four checks of [request_prescription_refill] all pass in [w]. *)
Definition refill_acceptable (user_id prescription_id : string) (w : World) : Prop :=
  exists rx,
    find (fun r => String.eqb (rx_prescription_id r) prescription_id) (prescriptions w) = Some rx
    /\ rx_user_id rx = user_id
    /\ (0 < rx_refills_remaining rx)%Z
    /\ String.ltb (rx_expires_at rx) (date_isoformat (clock w (ticks w))) = false.

(** ** The agent loop shared by the two adapters

    Both [stream] generators are the same loop over [range(max_tool_rounds)]
    around a provider-specific round.  A run of the generator is recorded as
    the events it yields, the conversation it sent to the provider at the
    start of each round it performed, the exception that escaped it (if
    any), and the world it leaves. *)

Record Run (Conv : Type) : Type := {
  events : list AgentEvent;
  requests : list Conv;
  escaped : option exn;
  final_world : World
}.
Arguments events {Conv} _.
Arguments requests {Conv} _.
Arguments escaped {Conv} _.
Arguments final_world {Conv} _.

(** The run yields exactly one terminal event, as its last event, and no
    exception escapes the generator. *)
Definition ends_properly {Conv : Type} (r : Run Conv) : Prop :=
  escaped r = None
  /\ count_terminal (events r) = 1
  /\ exists pre t, events r = pre ++ [t] /\ is_terminal t = true.

(** How one iteration of the loop body ends: it falls through to the next
    iteration, or the generator returns (after [done] or [error]). *)
Inductive RoundEnd (Conv : Type) : Type :=
| NextRound (conv : Conv) (w : World)
| Return (w : World).
Arguments NextRound {Conv} conv w.
Arguments Return {Conv} w.

Definition limit_message (max_tool_rounds : Z) : string :=
  "Maximum tool call rounds (" ++ str_of_Z max_tool_rounds
    ++ ") reached. This likely indicates an infinite loop. Please try rephrasing your request or contact support.".

Section AgentLoop.
Context {Conv : Type}.
Variable round : nat -> Conv -> World -> list AgentEvent * RoundEnd Conv.
Variable max_tool_rounds : Z.

(** [n] iterations are left, the next one has index [round_idx]. *)
Fixpoint rounds (n : nat) (round_idx : nat) (conv : Conv) (w : World) : Run Conv :=
  match n with
  | O => {| events := [error (limit_message max_tool_rounds)];
            requests := []; escaped := None; final_world := w |}
  | S n' =>
      match round round_idx conv w with
      | (evs, NextRound conv' w') =>
          let r := rounds n' (S round_idx) conv' w' in
          {| events := evs ++ events r; requests := conv :: requests r;
             escaped := escaped r; final_world := final_world r |}
      | (evs, Return w') =>
          {| events := evs; requests := [conv]; escaped := None; final_world := w' |}
      end
  end.

(** [for round_idx in range(max_tool_rounds): ...] and the final yield. *)
Definition agent_loop (conv : Conv) (w : World) : Run Conv :=
  rounds (Z.to_nat max_tool_rounds) 0 conv w.

End AgentLoop.

(** [k] successive rounds of kind [step] lead from the conversation and world
    at round [round_idx] to those at round [round_idx + k]. *)
Inductive repeated {Conv : Type} (step : nat -> Conv -> World -> Conv -> World -> Prop)
  : nat -> nat -> Conv -> World -> Conv -> World -> Prop :=
| repeated_O round_idx conv w : repeated step 0 round_idx conv w conv w
| repeated_S k round_idx conv w conv1 w1 conv' w' :
    step round_idx conv w conv1 w1 ->
    repeated step k (S round_idx) conv1 w1 conv' w' ->
    repeated step (S k) round_idx conv w conv' w'.

(** An incoming message: a Python [dict] from strings to strings. *)
Definition Message : Type := list (string * string).

(** The message carries the two keys the adapters read. *)
Definition well_formed (m : Message) : bool := has_key "role" m && has_key "content" m.

(** ** Tool declarations for the providers

    An element of the list handed to [_to_openai_tools] and
    [_to_gemini_tools] is a Python [dict] with JSON values. *)
Definition SpecDict : Type := list (string * Json).

(** [spec.get("type") != "function"] is false *)
Definition is_function_spec (spec : SpecDict) : bool :=
  match dict_get "type" spec with
  | Some (JStr t) => String.eqb t "function"
  | _ => false
  end.

(** [d.get(k, default)] *)
Definition get_or (k : string) (d : SpecDict) (default : Json) : Json :=
  match dict_get k d with
  | Some v => v
  | None => default
  end.

Definition default_parameters : Json :=
  JObj [("type", JStr "object"); ("properties", JObj [])].

(** The loop shared by the two converters: the [dict] built by [build] for
    every spec of type "function", in order; [spec["name"]] raises
    [KeyError] when the key is missing. *)
Fixpoint convert_specs (build : Json -> Json -> Json -> Json) (specs : list SpecDict)
  : outcome (list Json) :=
  match specs with
  | [] => Ret []
  | spec :: rest =>
      if negb (is_function_spec spec) then convert_specs build rest
      else
        match dict_get "name" spec with
        | None => Raise (mk_exn KeyError "'name'")
        | Some name =>
            match convert_specs build rest with
            | Ret tail =>
                Ret (build name (get_or "description" spec (JStr ""))
                       (get_or "parameters" spec default_parameters) :: tail)
            | Raise e => Raise e
            end
        end
  end.

(** [tool_specs or []] *)
Definition or_empty (tool_specs : option (list SpecDict)) : list SpecDict :=
  match tool_specs with
  | Some specs => specs
  | None => []
  end.

(** The [call_id]s of the [tool_call] events of a sequence, in order. *)
Definition tool_call_ids (evs : list AgentEvent) : list string :=
  flat_map (fun ev => match ev with tool_call _ call_id _ => [call_id] | _ => [] end) evs.

(** Every [tool_call] is directly followed by the [tool_result] of the same
    name and call identifier, or by an [error] that closes the sequence;
    no [tool_result] stands anywhere else. *)
Fixpoint calls_answered (evs : list AgentEvent) : bool :=
  match evs with
  | [] => true
  | tool_call name call_id _ :: rest =>
      match rest with
      | tool_result name' call_id' _ :: rest' =>
          String.eqb name name' && String.eqb call_id call_id' && calls_answered rest'
      | [error _] => true
      | _ => false
      end
  | tool_result _ _ _ :: _ => false
  | _ :: rest => calls_answered rest
  end.

(** The text of the [text_delta] events of a sequence, in order. *)
Fixpoint streamed_text (evs : list AgentEvent) : string :=
  match evs with
  | [] => ""
  | text_delta delta :: rest => (delta ++ streamed_text rest)%string
  | _ :: rest => streamed_text rest
  end.

(** What a round yields when its tool calls are answered: events that
    leave no call open when the loop goes on, answered calls when the
    generator returns. *)
Definition round_answers {Conv : Type} (r : list AgentEvent * RoundEnd Conv) : Prop :=
  match r with
  | (evs, NextRound _ _) => forall tail, calls_answered (evs ++ tail) = calls_answered tail
  | (evs, Return _) => calls_answered evs = true
  end.

(** The world a round started in [w] hands on is the one its [tool_call]
    events lead to. *)
Definition round_replays {X : Collaborators} {Conv : Type} (w : World)
           (r : list AgentEvent * RoundEnd Conv) : Prop :=
  match r with
  | (evs, NextRound _ w') => w' = replay evs w
  | (evs, Return w') => w' = replay evs w
  end.

(** ** [backend/app/agents/openai_agent.py] *)

Module openai_agent.

Definition function_tool (name : Json) (description parameters : Json) : Json :=
  JObj [("type", JStr "function");
        ("function", JObj [("name", name); ("description", description);
                           ("parameters", parameters)])].

Definition _to_openai_tools (tool_specs : option (list SpecDict)) : outcome (list Json) :=
  convert_specs function_tool (or_empty tool_specs).

(** The provider's streamed increments, as far as the adapter reads them. *)
Record FunctionDelta : Type := { fd_name : option string; fd_arguments : option string }.

(** [index] is the position of the call in the response, a natural number
    or [None]. *)
Record ToolCallDelta : Type := {
  tcd_index : option nat;
  tcd_id : option string;
  tcd_function : option FunctionDelta
}.

(** [chunk.choices[i].delta]; [tool_calls = None] is the empty list. *)
Record Delta : Type := { content : option string; tool_calls : list ToolCallDelta }.

Record Chunk : Type := { choices : list Delta }.

(** The iterator returned by [client.chat.completions.create(..., stream=True)]:
    it yields finitely many chunks, then stops or raises. *)
Inductive ChunkStream : Type :=
| EndOfStream
| Next (c : Chunk) (rest : ChunkStream)
| Broken (e : exn).

(** An entry of [assistant_message["tool_calls"]]. *)
Record ToolCallEntry : Type := { tc_id : string; tc_name : string; tc_arguments : string }.

Record AssistantMessage : Type := { am_content : string; am_tool_calls : list ToolCallEntry }.

(** An element of [chat_messages]. *)
Inductive ChatMessage : Type :=
| Plain (role content : string)
| Assistant (am : AssistantMessage)
| ToolMessage (tool_call_id content : string).

(** The provider: the answer to the request of round [round_idx]. *)
Definition Provider : Type := nat -> list ChatMessage -> outcome ChunkStream.

Definition empty_call : ToolCallEntry := {| tc_id := ""; tc_name := ""; tc_arguments := "" |}.

Definition set_id (v : string) (tc : ToolCallEntry) : ToolCallEntry :=
  {| tc_id := v; tc_name := tc_name tc; tc_arguments := tc_arguments tc |}.

Definition set_name (v : string) (tc : ToolCallEntry) : ToolCallEntry :=
  {| tc_id := tc_id tc; tc_name := v; tc_arguments := tc_arguments tc |}.

Definition add_arguments (v : string) (tc : ToolCallEntry) : ToolCallEntry :=
  {| tc_id := tc_id tc; tc_name := tc_name tc; tc_arguments := tc_arguments tc ++ v |}.

(** [while len(tool_calls) <= idx: tool_calls.append(empty)] *)
Definition ensure (idx : nat) (tcs : list ToolCallEntry) : list ToolCallEntry :=
  tcs ++ repeat empty_call (S idx - length tcs).

(** [tool_calls[idx] = f(tool_calls[idx])] *)
Fixpoint update_at (idx : nat) (f : ToolCallEntry -> ToolCallEntry)
         (tcs : list ToolCallEntry) : list ToolCallEntry :=
  match tcs, idx with
  | [], _ => []
  | tc :: rest, O => f tc :: rest
  | tc :: rest, S i => tc :: update_at i f rest
  end.

Definition update_if (b : bool) (idx : nat) (f : ToolCallEntry -> ToolCallEntry)
           (tcs : list ToolCallEntry) : list ToolCallEntry :=
  if b then update_at idx f tcs else tcs.

(** The body of [for tool_call_delta in delta.tool_calls]. *)
Definition on_tool_call_delta (d : ToolCallDelta) (tcs : list ToolCallEntry)
  : list AgentEvent * list ToolCallEntry :=
  match tcd_index d with
  | None => ([], tcs)
  | Some idx =>
      let tcs1 := ensure idx tcs in
      let tcs2 := update_if (truthy (tcd_id d)) idx (set_id (text_of (tcd_id d))) tcs1 in
      match tcd_function d with
      | None => ([], tcs2)
      | Some f =>
          let tcs3 := update_if (truthy (fd_name f)) idx (set_name (text_of (fd_name f))) tcs2 in
          if truthy (fd_arguments f) then
            let tcs4 := update_at idx (add_arguments (text_of (fd_arguments f))) tcs3 in
            ([tool_args_delta (tc_id (nth idx tcs4 empty_call)) (text_of (fd_arguments f))],
             tcs4)
          else ([], tcs3)
      end
  end.

Fixpoint on_tool_call_deltas (ds : list ToolCallDelta) (tcs : list ToolCallEntry)
  : list AgentEvent * list ToolCallEntry :=
  match ds with
  | [] => ([], tcs)
  | d :: rest =>
      let '(evs1, tcs1) := on_tool_call_delta d tcs in
      let '(evs2, tcs2) := on_tool_call_deltas rest tcs1 in
      (evs1 ++ evs2, tcs2)
  end.

(** The body of [for chunk in stream_resp]. *)
Definition on_chunk (c : Chunk) (am : AssistantMessage) : list AgentEvent * AssistantMessage :=
  match choices c with
  | [] => ([], am)
  | delta :: _ =>
      let '(evs1, text) :=
        if truthy (content delta)
        then ([text_delta (text_of (content delta))],
              (am_content am ++ text_of (content delta))%string)
        else ([], am_content am) in
      let '(evs2, tcs) := on_tool_call_deltas (tool_calls delta) (am_tool_calls am) in
      (evs1 ++ evs2, {| am_content := text; am_tool_calls := tcs |})
  end.

(** The whole [for chunk in stream_resp] loop: the events yielded, the
    assistant message accumulated, and the exception the iterator raised. *)
Fixpoint consume (s : ChunkStream) (am : AssistantMessage)
  : list AgentEvent * AssistantMessage * option exn :=
  match s with
  | EndOfStream => ([], am, None)
  | Broken e => ([], am, Some e)
  | Next c rest =>
      let '(evs1, am1) := on_chunk c am in
      let '(evs2, am2, failure) := consume rest am1 in
      (evs1 ++ evs2, am2, failure)
  end.

(** The exception the iterator ends with. *)
Fixpoint stream_failure (s : ChunkStream) : option exn :=
  match s with
  | EndOfStream => None
  | Broken e => Some e
  | Next _ rest => stream_failure rest
  end.

Definition initial_message : AssistantMessage := {| am_content := ""; am_tool_calls := [] |}.

(** The tool calls a response finalizes. *)
Definition finalized (s : ChunkStream) : list ToolCallEntry :=
  am_tool_calls (snd (fst (consume s initial_message))).

(** The tool-call increments of a chunk that the adapter reads. *)
Definition read_deltas (c : Chunk) : list ToolCallDelta :=
  match choices c with
  | [] => []
  | delta :: _ => tool_calls delta
  end.

(** The increment carries a non-empty argument fragment for an indexed call. *)
Definition carries_arguments (d : ToolCallDelta) : bool :=
  match tcd_index d, tcd_function d with
  | Some _, Some f => truthy (fd_arguments f)
  | _, _ => false
  end.

Fixpoint has_fragment (s : ChunkStream) : bool :=
  match s with
  | Next c rest => existsb carries_arguments (read_deltas c) || has_fragment rest
  | _ => false
  end.

(** The provider's discipline on the identifier [c] of the call: an
    increment that names an identifier names [c], and no argument fragment
    arrives before the identifier did.  [seen] tells whether it has. *)
Definition id_step (c : string) (seen : bool) (d : ToolCallDelta) : bool * bool :=
  match tcd_index d with
  | None => (true, seen)
  | Some _ =>
      let seen' := seen || truthy (tcd_id d) in
      (implb (truthy (tcd_id d)) (String.eqb (text_of (tcd_id d)) c)
       && implb (carries_arguments d) seen', seen')
  end.

Fixpoint id_steps (c : string) (seen : bool) (ds : list ToolCallDelta) : bool * bool :=
  match ds with
  | [] => (true, seen)
  | d :: rest =>
      let '(ok1, seen1) := id_step c seen d in
      let '(ok2, seen2) := id_steps c seen1 rest in
      (ok1 && ok2, seen2)
  end.

Fixpoint id_first (c : string) (seen : bool) (s : ChunkStream) : bool :=
  match s with
  | Next ch rest =>
      let '(ok, seen') := id_steps c seen (read_deltas ch) in
      ok && id_first c seen' rest
  | _ => true
  end.

(** The tool-call increments the adapter reads from a stream, in order. *)
Fixpoint all_deltas (s : ChunkStream) : list ToolCallDelta :=
  match s with
  | Next c rest => read_deltas c ++ all_deltas rest
  | _ => []
  end.

(** The argument text an increment adds to the call at position [idx]. *)
Definition fragment_of (idx : nat) (d : ToolCallDelta) : string :=
  match tcd_index d, tcd_function d with
  | Some i, Some f => if Nat.eqb i idx then text_of (fd_arguments f) else ""
  | _, _ => ""
  end.

(** The argument text a list of increments adds to the call at position
    [idx], in order of arrival. *)
Fixpoint fragments_for (idx : nat) (ds : list ToolCallDelta) : string :=
  match ds with
  | [] => ""
  | d :: rest => (fragment_of idx d ++ fragments_for idx rest)%string
  end.

(** The accumulator of a single call agrees with what the provider has
    told of its identifier [c] so far. *)
Definition agrees (c : string) (seen : bool) (tcs : list ToolCallEntry) : Prop :=
  match tcs with
  | [] => seen = false
  | tc :: _ => seen = true -> tc_id tc = c
  end.

(** A response that requests one tool call, names its identifier no later
    than its first argument fragment and sends at least one fragment. *)
Definition one_call_response (s : ChunkStream) : Prop :=
  length (finalized s) = 1
  /\ has_fragment s = true
  /\ exists c, id_first c false s = true.

Section Stream.
Context {X : Collaborators}.
Variable client : Provider.

(** [try: args = json.loads(args_str) except json.JSONDecodeError: args = {}] *)
Definition parse_arguments (args_str : string) : Json :=
  match json_loads args_str with
  | Some args => args
  | None => JObj []
  end.

(** [for tool_call in assistant_message["tool_calls"]]: the events
    yielded, and the conversation extended with the tool messages or the
    exception that [run_tool] let through. *)
Fixpoint execute_tool_calls (tcs : list ToolCallEntry) (chat_messages : list ChatMessage)
         (w : World) : list AgentEvent * outcome (list ChatMessage) * World :=
  match tcs with
  | [] => ([], Ret chat_messages, w)
  | tool_call_ :: rest =>
      let name := tc_name tool_call_ in
      let call_id := tc_id tool_call_ in
      let args := parse_arguments (tc_arguments tool_call_) in
      match tools.run_tool name args w with
      | (Ret result, w1) =>
          let '(evs, o, w2) :=
            execute_tool_calls rest
              (chat_messages ++ [ToolMessage call_id (json_dumps result)]) w1 in
          (tool_call name call_id args :: tool_result name call_id result :: evs, o, w2)
      | (Raise e, w1) => ([tool_call name call_id args], Raise e, w1)
      end
  end.

(** One iteration of the loop: the [try] block and its [except Exception]. *)
Definition round (round_idx : nat) (chat_messages : list ChatMessage) (w : World)
  : list AgentEvent * RoundEnd (list ChatMessage) :=
  match client round_idx (Plain "system" SYSTEM_INSTRUCTIONS :: chat_messages) with
  | Raise e => ([error (exn_message e)], Return w)
  | Ret stream_resp =>
      match consume stream_resp initial_message with
      | (evs, _, Some e) => (evs ++ [error (exn_message e)], Return w)
      | (evs, assistant_message, None) =>
          match am_tool_calls assistant_message with
          | [] => (evs ++ [done], Return w)
          | tcs =>
              match execute_tool_calls tcs
                      (chat_messages ++ [Assistant assistant_message]) w with
              | (evs2, Ret chat', w') => (evs ++ evs2, NextRound chat' w')
              | (evs2, Raise e, w') =>
                  (evs ++ evs2 ++ [error (exn_message e)], Return w')
              end
          end
      end
  end.

(** [[{"role": m["role"], "content": m["content"]} for m in messages]];
    a missing key raises [KeyError]. *)
Fixpoint copy_messages (messages : list Message) : outcome (list ChatMessage) :=
  match messages with
  | [] => Ret []
  | m :: rest =>
      match dict_get "role" m with
      | None => Raise (mk_exn KeyError "'role'")
      | Some role =>
          match dict_get "content" m with
          | None => Raise (mk_exn KeyError "'content'")
          | Some content =>
              match copy_messages rest with
              | Ret tail => Ret (Plain role content :: tail)
              | Raise e => Raise e
              end
          end
      end
  end.

Definition stream (messages : list Message) (max_tool_rounds : Z) (w : World)
  : Run (list ChatMessage) :=
  match copy_messages messages with
  | Raise e => {| events := []; requests := []; escaped := Some e; final_world := w |}
  | Ret chat_messages => agent_loop round max_tool_rounds chat_messages w
  end.

(** The run from the middle of the tool loop of round [round_idx] on: the
    calls [tcs] are still to execute, then [n] iterations are left.  When a
    tool raises, the [except] branch of the round yields the [error] event
    and the generator returns. *)
Definition resume (max_tool_rounds : Z) (n round_idx : nat) (tcs : list ToolCallEntry)
           (chat_messages : list ChatMessage) (w : World) : Run (list ChatMessage) :=
  match execute_tool_calls tcs chat_messages w with
  | (evs, Ret chat', w') =>
      let r := rounds round max_tool_rounds n (S round_idx) chat' w' in
      {| events := evs ++ events r; requests := requests r;
         escaped := escaped r; final_world := final_world r |}
  | (evs, Raise e, w') =>
      {| events := evs ++ [error (exn_message e)]; requests := [];
         escaped := None; final_world := w' |}
  end.

(** Round [round_idx] is a tool round: the provider answers with a
    stream of kind [P] that ends normally and finalizes at least one
    tool call, and every tool invoked returns. *)
Definition tool_round (P : ChunkStream -> Prop) (round_idx : nat)
           (chat_messages : list ChatMessage) (w : World)
           (chat' : list ChatMessage) (w' : World) : Prop :=
  exists s evs,
    client round_idx (Plain "system" SYSTEM_INSTRUCTIONS :: chat_messages) = Ret s
    /\ P s
    /\ stream_failure s = None
    /\ finalized s <> []
    /\ execute_tool_calls (finalized s)
         (chat_messages ++ [Assistant (snd (fst (consume s initial_message)))]) w
       = (evs, Ret chat', w').

(** The provider's answer in round [round_idx] ends normally and
    finalizes no tool call. *)
Definition tool_free_round (round_idx : nat) (chat_messages : list ChatMessage) : Prop :=
  exists s,
    client round_idx (Plain "system" SYSTEM_INSTRUCTIONS :: chat_messages) = Ret s
    /\ stream_failure s = None
    /\ finalized s = [].

(** The provider call of round [round_idx] raises [e], when the stream
    is opened or while it is read. *)
Definition provider_raises (round_idx : nat) (chat_messages : list ChatMessage)
           (e : exn) : Prop :=
  client round_idx (Plain "system" SYSTEM_INSTRUCTIONS :: chat_messages) = Raise e
  \/ exists s,
      client round_idx (Plain "system" SYSTEM_INSTRUCTIONS :: chat_messages) = Ret s
      /\ stream_failure s = Some e.

End Stream.
End openai_agent.

(** ** [backend/app/agents/gemini_agent.py] *)

Module gemini_agent.

Definition function_declaration (name : Json) (description parameters : Json) : Json :=
  JObj [("name", name); ("description", description); ("parameters", parameters)].

Definition _to_gemini_tools (tool_specs : option (list SpecDict)) : outcome (list Json) :=
  match convert_specs function_declaration (or_empty tool_specs) with
  | Raise e => Raise e
  | Ret [] => Ret []
  | Ret function_declarations =>
      Ret [JObj [("function_declarations", JArr function_declarations)]]
  end.

(** [function_call.args]: absent, a mapping, or an object [dict] rejects. *)
Inductive RawArgs : Type :=
| ArgsNone
| ArgsMapping (kv : list (string * Json))
| ArgsUnconvertible.

Record FunctionCall : Type := { fc_name : option string; fc_args : RawArgs }.

Record Part : Type := { function_call : option FunctionCall }.

(** [cand.content]: [None], or its [parts] ([parts = None] is the empty list). *)
Record Candidate : Type := { cand_content : option (list Part) }.

(** A chunk of the response.  [text] is [getattr(chunk, "text", None)]: the
    value of the attribute ([None] also when the chunk has no such
    attribute), or the exception its accessor raises ([getattr] absorbs
    [AttributeError] only; the accessor of the provider's library raises
    [ValueError] on a chunk that holds no text part). *)
Record Chunk : Type := { text : outcome (option string); candidates : list Candidate }.

(** The iterator returned by [MODEL.generate_content(..., stream=True)]. *)
Inductive ChunkStream : Type :=
| EndOfStream
| Next (c : Chunk) (rest : ChunkStream)
| Broken (e : exn).

(** An element of [chat_contents]. *)
Inductive ContentPart : Type :=
| TextPart (text : string)
| FunctionResponse (name : string) (response : Json).

Record Content : Type := { role : string; parts : list ContentPart }.

Definition Provider : Type := nat -> list Content -> outcome ChunkStream.

(** The exception that ends the reading of the response: the one the
    iterator raises, or the one the [text] accessor of a chunk raises. *)
Fixpoint stream_failure (s : ChunkStream) : option exn :=
  match s with
  | EndOfStream => None
  | Broken e => Some e
  | Next c rest =>
      match text c with
      | Raise e => Some e
      | Ret _ => stream_failure rest
      end
  end.

(** An entry of [pending_calls]. *)
Record PendingCall : Type := { pc_id : string; pc_name : string; pc_args : list (string * Json) }.

Definition _convert_messages_to_contents (messages : list Message) : list Content :=
  map (fun m =>
         let role0 := match dict_get "role" m with Some r => r | None => "user" end in
         let role1 := if String.eqb role0 "assistant" then "model"
                      else if negb (String.eqb role0 "user") then "user"
                      else role0 in
         {| role := role1;
            parts := [TextPart (match dict_get "content" m with Some c => c | None => "" end)] |})
      messages.

(** [dict(raw_args) if raw_args is not None else {}], with [{}] on failure. *)
Definition plain_args (raw_args : RawArgs) : list (string * Json) :=
  match raw_args with
  | ArgsNone => []
  | ArgsMapping kv => kv
  | ArgsUnconvertible => []
  end.

Section Stream.
Context {X : Collaborators}.
Variable model : Provider.

Definition mint_call_id (name : string) (pending : nat) (round_idx : nat) : string :=
  ("gemini-" ++ name ++ "-" ++ str_of_nat pending ++ "-" ++ str_of_nat round_idx)%string.

(** The body of [for part in parts]. *)
Definition on_part (round_idx : nat) (part : Part) (pending_calls : list PendingCall)
  : list AgentEvent * list PendingCall :=
  match function_call part with
  | None => ([], pending_calls)
  | Some fc =>
      if truthy (fc_name fc) then
        let name := text_of (fc_name fc) in
        let args := plain_args (fc_args fc) in
        let call_id := mint_call_id name (length pending_calls) round_idx in
        ([tool_args_delta call_id (json_dumps (JObj args))],
         pending_calls ++ [{| pc_id := call_id; pc_name := name; pc_args := args |}])
      else ([], pending_calls)
  end.

Fixpoint on_parts (round_idx : nat) (ps : list Part) (pending_calls : list PendingCall)
  : list AgentEvent * list PendingCall :=
  match ps with
  | [] => ([], pending_calls)
  | p :: rest =>
      let '(evs1, pc1) := on_part round_idx p pending_calls in
      let '(evs2, pc2) := on_parts round_idx rest pc1 in
      (evs1 ++ evs2, pc2)
  end.

(** The body of [for cand in candidates]. *)
Fixpoint on_candidates (round_idx : nat) (cs : list Candidate)
         (pending_calls : list PendingCall) : list AgentEvent * list PendingCall :=
  match cs with
  | [] => ([], pending_calls)
  | cand :: rest =>
      let '(evs1, pc1) :=
        match cand_content cand with
        | None => ([], pending_calls)
        | Some ps => on_parts round_idx ps pending_calls
        end in
      let '(evs2, pc2) := on_candidates round_idx rest pc1 in
      (evs1 ++ evs2, pc2)
  end.

(** The state of one round: [pending_calls] and [assistant_text]. *)
Definition RoundState : Type := (list PendingCall * string)%type.

(** The body of [for chunk in stream_resp] once [text_delta] is bound to
    [delta]. *)
Definition after_text (round_idx : nat) (delta : option string) (c : Chunk)
           (st : RoundState) : list AgentEvent * RoundState :=
  let '(pending_calls, assistant_text) := st in
  let '(evs1, text1) :=
    if truthy delta
    then ([text_delta (text_of delta)], (assistant_text ++ text_of delta)%string)
    else ([], assistant_text) in
  let '(evs2, pc2) := on_candidates round_idx (candidates c) pending_calls in
  (evs1 ++ evs2, (pc2, text1)).

(** The body of [for chunk in stream_resp]: the events yielded, the state
    after it, and the exception raised in it (by the [text] accessor, before
    anything else of the chunk is read). *)
Definition on_chunk (round_idx : nat) (c : Chunk) (st : RoundState)
  : list AgentEvent * RoundState * option exn :=
  match text c with
  | Raise e => ([], st, Some e)
  | Ret delta =>
      let '(evs, st1) := after_text round_idx delta c st in
      (evs, st1, None)
  end.

Fixpoint consume (round_idx : nat) (s : ChunkStream) (st : RoundState)
  : list AgentEvent * RoundState * option exn :=
  match s with
  | EndOfStream => ([], st, None)
  | Broken e => ([], st, Some e)
  | Next c rest =>
      match on_chunk round_idx c st with
      | (evs1, st1, Some e) => (evs1, st1, Some e)
      | (evs1, st1, None) =>
          let '(evs2, st2, failure) := consume round_idx rest st1 in
          (evs1 ++ evs2, st2, failure)
      end
  end.

(** [for call in pending_calls] *)
Fixpoint execute_pending_calls (calls : list PendingCall) (chat_contents : list Content)
         (w : World) : list AgentEvent * outcome (list Content) * World :=
  match calls with
  | [] => ([], Ret chat_contents, w)
  | call :: rest =>
      let name := pc_name call in
      let call_id := pc_id call in
      let args := JObj (pc_args call) in
      match tools.run_tool name args w with
      | (Ret result, w1) =>
          let '(evs, o, w2) :=
            execute_pending_calls rest
              (chat_contents ++ [{| role := "tool"; parts := [FunctionResponse name result] |}])
              w1 in
          (tool_call name call_id args :: tool_result name call_id result :: evs, o, w2)
      | (Raise e, w1) => ([tool_call name call_id args], Raise e, w1)
      end
  end.

Definition round (round_idx : nat) (chat_contents : list Content) (w : World)
  : list AgentEvent * RoundEnd (list Content) :=
  match model round_idx chat_contents with
  | Raise e => ([error (exn_message e)], Return w)
  | Ret stream_resp =>
      match consume round_idx stream_resp ([], "") with
      | (evs, _, Some e) => (evs ++ [error (exn_message e)], Return w)
      | (evs, (pending_calls, assistant_text), None) =>
          match pending_calls with
          | [] => (evs ++ [done], Return w)
          | _ =>
              let chat1 :=
                if String.eqb assistant_text "" then chat_contents
                else chat_contents ++ [{| role := "model"; parts := [TextPart assistant_text] |}] in
              match execute_pending_calls pending_calls chat1 w with
              | (evs2, Ret chat', w') => (evs ++ evs2, NextRound chat' w')
              | (evs2, Raise e, w') =>
                  (evs ++ evs2 ++ [error (exn_message e)], Return w')
              end
          end
      end
  end.

Definition stream (messages : list Message) (max_tool_rounds : Z) (w : World)
  : Run (list Content) :=
  agent_loop round max_tool_rounds (_convert_messages_to_contents messages) w.

(** The run from the middle of the tool loop of round [round_idx] on: the
    calls [calls] are still to execute, then [n] iterations are left.  When
    a tool raises, the [except] branch of the round yields the [error] event
    and the generator returns. *)
Definition resume (max_tool_rounds : Z) (n round_idx : nat) (calls : list PendingCall)
           (chat_contents : list Content) (w : World) : Run (list Content) :=
  match execute_pending_calls calls chat_contents w with
  | (evs, Ret chat', w') =>
      let r := rounds round max_tool_rounds n (S round_idx) chat' w' in
      {| events := evs ++ events r; requests := requests r;
         escaped := escaped r; final_world := final_world r |}
  | (evs, Raise e, w') =>
      {| events := evs ++ [error (exn_message e)]; requests := [];
         escaped := None; final_world := w' |}
  end.

(** The calls and the text a response read in round [round_idx] finalizes. *)
Definition finalized (round_idx : nat) (s : ChunkStream) : list PendingCall :=
  fst (snd (fst (consume round_idx s ([], "")))).

Definition finalized_text (round_idx : nat) (s : ChunkStream) : string :=
  snd (snd (fst (consume round_idx s ([], "")))).

(** The conversation the tools of round [round_idx] start from. *)
Definition with_model_text (round_idx : nat) (s : ChunkStream)
           (chat_contents : list Content) : list Content :=
  if String.eqb (finalized_text round_idx s) "" then chat_contents
  else chat_contents
         ++ [{| role := "model"; parts := [TextPart (finalized_text round_idx s)] |}].

(** Round [round_idx] is a tool round: the provider answers with a
    stream of kind [P] that is read to its end without an exception (of
    the iterator or of a [text] accessor) and finalizes at least one call,
    and every tool invoked returns. *)
Definition tool_round (P : nat -> ChunkStream -> Prop) (round_idx : nat)
           (chat_contents : list Content) (w : World)
           (chat' : list Content) (w' : World) : Prop :=
  exists s evs,
    model round_idx chat_contents = Ret s
    /\ P round_idx s
    /\ stream_failure s = None
    /\ finalized round_idx s <> []
    /\ execute_pending_calls (finalized round_idx s)
         (with_model_text round_idx s chat_contents) w
       = (evs, Ret chat', w').

Definition tool_free_round (round_idx : nat) (chat_contents : list Content) : Prop :=
  exists s,
    model round_idx chat_contents = Ret s
    /\ stream_failure s = None
    /\ finalized round_idx s = [].

Definition provider_raises (round_idx : nat) (chat_contents : list Content)
           (e : exn) : Prop :=
  model round_idx chat_contents = Raise e
  \/ exists s, model round_idx chat_contents = Ret s /\ stream_failure s = Some e.

(** A response that requests exactly one tool call. *)
Definition one_call_response (round_idx : nat) (s : ChunkStream) : Prop :=
  length (finalized round_idx s) = 1.

End Stream.
End gemini_agent.

(** The text holds no dash. *)
Fixpoint dash_free (s : string) : bool :=
  match s with
  | EmptyString => true
  | String a rest => negb (Ascii.eqb a "-") && dash_free rest
  end.

(** The identifiers are those the Gemini adapter mints in round
    [round_idx] for the calls at positions 0, 1, ... of [pending_calls]. *)
Definition minted_in_round (round_idx : nat) (ids : list string) : Prop :=
  forall j id,
    nth_error ids j = Some id ->
    exists name, id = gemini_agent.mint_call_id name j round_idx.

(** ** Concrete collaborators and worlds

    Instances used to run the model on explicit inputs. *)

Module scenario.

(** A decoder that accepts the text of the empty object and nothing else. *)
Definition loads_empty_object_only (s : string) : option Json :=
  if String.eqb s "{}" then Some (JObj []) else None.

(** An empty catalog: every query runs one statement and finds nothing. *)
Definition empty_catalog (name : string) (kw : list (string * Json)) : M Json :=
  db.statement ;;; ret (JObj [("count", JInt 0)]).

Definition collaborators : Collaborators :=
  {| json_loads := loads_empty_object_only;
     json_dumps := fun v => match v with JObj [] => "{}" | _ => "{...}" end;
     SYSTEM_INSTRUCTIONS := "You are a pharmacy assistant.";
     catalog_tool := empty_catalog |}.

Definition noon : Instant :=
  {| date_isoformat := "2025-01-15";
     strftime_millis := "20250115120000000";
     isoformat := "2025-01-15T12:00:00.000000" |}.

Definition rx_1 : Prescription :=
  {| rx_prescription_id := "RX-1"; rx_user_id := "1003"; rx_med_id := "MED001";
     rx_directions := "One tablet daily"; rx_refills_remaining := 2;
     rx_expires_at := "2026-01-01" |}.

(** A store with one refillable prescription and no pending failure. *)
Definition world : World :=
  {| prescriptions := [rx_1]; refill_requests := []; tool_stats := [];
     faults := []; clock := fun _ => noon; ticks := 0 |}.

(** The same store when the next database statement fails. *)
Definition world_with_outage : World :=
  with_faults [Some (mk_exn RuntimeError "Database connection failed: timeout")] world.

(** Provider increments. *)
Definition says (t : string) : openai_agent.Chunk :=
  {| openai_agent.choices :=
       [{| openai_agent.content := Some t; openai_agent.tool_calls := [] |}] |}.

Definition call_delta (id name arguments : option string) : openai_agent.Chunk :=
  {| openai_agent.choices :=
       [{| openai_agent.content := None;
           openai_agent.tool_calls :=
             [{| openai_agent.tcd_index := Some 0;
                 openai_agent.tcd_id := id;
                 openai_agent.tcd_function :=
                   Some {| openai_agent.fd_name := name;
                           openai_agent.fd_arguments := arguments |} |}] |}] |}.

(** The usual shape of a streamed call: the identifier and the name
    first, the argument text after. *)
Definition streamed_call (id name arguments : string) : openai_agent.ChunkStream :=
  openai_agent.Next (call_delta (Some id) (Some name) None)
    (openai_agent.Next (call_delta None None (Some arguments)) openai_agent.EndOfStream).

Definition answer (t : string) : openai_agent.ChunkStream :=
  openai_agent.Next (says t) openai_agent.EndOfStream.

(** A model that answers at once. *)
Definition talker : openai_agent.Provider := fun _ _ => Ret (answer "Hello").

(** A model that lists the stores in the first round and answers in the second. *)
Definition helper : openai_agent.Provider :=
  fun round_idx _ =>
    match round_idx with
    | O => Ret (streamed_call "call_1" "list_stores" "{}")
    | _ => Ret (answer "No store found.")
    end.

(** A model that asks for the same tool in every round. *)
Definition looper : openai_agent.Provider :=
  fun _ _ => Ret (streamed_call "call_1" "list_stores" "{}").


(** A model that calls a tool without sending any argument text. *)
Definition terse : openai_agent.Provider :=
  fun round_idx _ =>
    match round_idx with
    | O => Ret (openai_agent.Next (call_delta (Some "call_1") (Some "list_stores") None)
                  openai_agent.EndOfStream)
    | _ => Ret (answer "No store found.")
    end.

(** A provider that names the call only after its argument text. *)
Definition late_namer : openai_agent.Provider :=
  fun round_idx _ =>
    match round_idx with
    | O => Ret (openai_agent.Next (call_delta None (Some "list_stores") (Some "{}"))
                  (openai_agent.Next (call_delta (Some "call_1") None None)
                     openai_agent.EndOfStream))
    | _ => Ret (answer "No store found.")
    end.

(** A model that asks for a tool the registry does not have. *)
Definition confused : openai_agent.Provider :=
  fun round_idx _ =>
    match round_idx with
    | O => Ret (streamed_call "call_1" "non_existent_tool" "{}")
    | _ => Ret (answer "I cannot do that.")
    end.

(** A model whose argument text breaks off. *)
Definition garbled : openai_agent.Provider :=
  fun round_idx _ =>
    match round_idx with
    | O => Ret (streamed_call "call_1" "get_medication_by_name" "{bad")
    | _ => Ret (answer "Which medication?")
    end.

Definition function_call_chunk (name : string) (args : list (string * Json))
  : gemini_agent.Chunk :=
  {| gemini_agent.text := Ret None;
     gemini_agent.candidates :=
       [{| gemini_agent.cand_content :=
             Some [{| gemini_agent.function_call :=
                        Some {| gemini_agent.fc_name := Some name;
                                gemini_agent.fc_args := gemini_agent.ArgsMapping args |} |}] |}] |}.

Definition gemini_call (name : string) : gemini_agent.ChunkStream :=
  gemini_agent.Next (function_call_chunk name []) gemini_agent.EndOfStream.

Definition gemini_answer (t : string) : gemini_agent.ChunkStream :=
  gemini_agent.Next {| gemini_agent.text := Ret (Some t); gemini_agent.candidates := [] |}
    gemini_agent.EndOfStream.

Definition gemini_talker : gemini_agent.Provider := fun _ _ => Ret (gemini_answer "Hello").

Definition gemini_helper : gemini_agent.Provider :=
  fun round_idx _ =>
    match round_idx with
    | O => Ret (gemini_call "list_stores")
    | _ => Ret (gemini_answer "No store found.")
    end.

Definition gemini_looper : gemini_agent.Provider := fun _ _ => Ret (gemini_call "list_stores").

Definition gemini_flaky : gemini_agent.Provider :=
  fun round_idx _ =>
    match round_idx with
    | O => Ret (gemini_call "list_stores")
    | _ => Raise (mk_exn ProviderError "Connection reset by peer")
    end.

(** The chunk the provider's library hands over for a function call: its
    [text] accessor raises [ValueError]. *)
Definition library_function_call_chunk (name : string) (args : list (string * Json))
  : gemini_agent.Chunk :=
  {| gemini_agent.text :=
       Raise (mk_exn ValueError "Could not convert `part.function_call` to text.");
     gemini_agent.candidates := gemini_agent.candidates (function_call_chunk name args) |}.

(** A model that asks for the stores through such a chunk. *)
Definition gemini_library_helper : gemini_agent.Provider :=
  fun round_idx _ =>
    match round_idx with
    | O => Ret (gemini_agent.Next (library_function_call_chunk "list_stores" [])
                  gemini_agent.EndOfStream)
    | _ => Ret (gemini_answer "No store found.")
    end.

(** The store when the counter update goes through and the statement after
    it, the query of the tool, fails. *)
Definition world_with_failing_query : World :=
  with_faults [None; Some (mk_exn RuntimeError "Database connection failed: timeout")] world.

Definition question : list Message :=
  [[("role", "user"); ("content", "Which stores are open?")]].

(** A message without its [content]. *)
Definition truncated_question : list Message := [[("role", "user")]].

End scenario.

(* ================================================================== *)
(** * Part II: properties *)
(* ================================================================== *)

(** ** Strings *)

Lemma prefix_app (n post : string) : String.prefix n (n ++ post)%string = true.
Proof.
  induction n as [|a n IH]; simpl.
  - destruct post; reflexivity.
  - destruct (ascii_dec a a) as [_|ne]; [exact IH | congruence].
Qed.

Lemma is_substring_here (n post : string) : is_substring n (n ++ post)%string = true.
Proof.
  assert (U : forall hay, String.prefix n hay = true -> is_substring n hay = true).
  { intros hay H. destruct hay; cbn [is_substring]; rewrite H; reflexivity. }
  apply U, prefix_app.
Qed.

Lemma is_substring_skip (n s t : string) :
  is_substring n t = true -> is_substring n (s ++ t)%string = true.
Proof.
  intros H. induction s as [|a s IH]; simpl; [exact H|].
  rewrite IH. apply orb_true_r.
Qed.

Lemma is_substring_cons (n : string) (a : ascii) (t : string) :
  is_substring n t = true -> is_substring n (String a t) = true.
Proof. intros H. simpl. rewrite H. apply orb_true_r. Qed.

(** ** The world monad *)

(** A database statement touches nothing but the failure script. *)
Lemma statement_frame (w : World) :
  exists fs, snd (db.statement w) = with_faults fs w.
Proof.
  unfold db.statement. destruct w as [ps rs ts fl ck tk].
  destruct fl as [|[e|] fs]; [exists [] | exists fs | exists fs]; reflexivity.
Qed.

(** ** The tool registry *)

Section RegistryFacts.
Context {X : Collaborators}.

(** The counter update never raises, whatever the database does. *)
Lemma increment_never_raises (name : string) (w : World) :
  exists w', tools._increment_tool_stat name w = (Ret tt, w').
Proof.
  unfold tools._increment_tool_stat, try_except, db.exec_sql_upsert_tool_stat, bind.
  destruct (db.statement w) as [[[]|e] w1]; unfold ret; simpl; eauto.
Qed.

Lemma guarded_increment_never_raises (name : string) (w : World) :
  exists w', try_except (tools._increment_tool_stat name) (fun _ => ret tt) w = (Ret tt, w').
Proof.
  destruct (increment_never_raises name w) as [w' E].
  unfold try_except. rewrite E. eauto.
Qed.

Lemma find_unexpected_none (params : list (string * bool)) (kw : list (string * Json)) :
  forallb (fun kv => has_key (fst kv) params) kw = true ->
  find (fun kv => negb (has_key (fst kv) params)) kw = None.
Proof.
  induction kw as [|kv kw IH]; simpl; [reflexivity|].
  intros H. apply andb_true_iff in H as [H1 H2]. rewrite H1. simpl. auto.
Qed.

Lemma missing_message_mentions (f : tools.ToolFn) (ns : list string) :
  is_substring "missing" (tools.missing_message f ns) = true /\
  is_substring "required" (tools.missing_message f ns) = true.
Proof.
  unfold tools.missing_message. split.
  - apply is_substring_skip.
    do 3 apply is_substring_cons.
    apply (is_substring_here "missing").
  - apply is_substring_skip.
    apply (is_substring_skip _ "() missing ").
    apply is_substring_skip.
    apply is_substring_cons.
    apply (is_substring_here "required").
Qed.

End RegistryFacts.

(** ** Prescription refills *)

(** C10: whenever [request_prescription_refill] returns a rejection
    ([accepted: false] with an error code), it has written nothing: the
    prescriptions table, the refill_requests table and the tool_stats table
    are the ones it started from.  The two writes happen only once the
    prescription was found, belongs to the user, has refills left and has
    not expired. *)
Theorem refill_rejection_writes_nothing :
  forall (user_id prescription_id : string) (w : World),
    (forall code,
        fst (tools.request_prescription_refill user_id prescription_id w)
        = Ret (tools.rejected code) ->
        prescriptions (snd (tools.request_prescription_refill user_id prescription_id w))
        = prescriptions w
        /\ refill_requests (snd (tools.request_prescription_refill user_id prescription_id w))
           = refill_requests w
        /\ tool_stats (snd (tools.request_prescription_refill user_id prescription_id w))
           = tool_stats w)
    /\ (prescriptions (snd (tools.request_prescription_refill user_id prescription_id w))
        <> prescriptions w
        \/ refill_requests (snd (tools.request_prescription_refill user_id prescription_id w))
           <> refill_requests w ->
        refill_acceptable user_id prescription_id w).
Proof.
  intros user_id prescription_id w.
  unfold tools.request_prescription_refill, db.query_one_prescription, bind, refill_acceptable.
  destruct (statement_frame w) as [fs W1].
  destruct (db.statement w) as [[[]|e] w1] eqn:S1; simpl in W1; subst w1; simpl.
  2:{ split; [intros; discriminate | tauto]. }
  destruct (find _ (prescriptions w)) as [rx|] eqn:F; unfold ret; simpl.
  2:{ split; [auto | tauto]. }
  destruct (String.eqb (rx_user_id rx) user_id) eqn:U; simpl.
  2:{ split; [auto | tauto]. }
  destruct (rx_refills_remaining rx <=? 0)%Z eqn:R; simpl.
  1:{ split; [auto | tauto]. }
  destruct (String.ltb _ _) eqn:L; simpl.
  1:{ split; [auto | tauto]. }
  split.
  2:{ intros _. exists rx. apply String.eqb_eq in U. apply Z.leb_gt in R. auto. }
  intros code.
  unfold db.exec_sql_insert_refill_request, db.exec_sql_decrement_refills, bind, db.statement.
  simpl.
  destruct fs as [|[e1|] fs1]; simpl;
    try discriminate;
    repeat match goal with
           | |- context [match ?l with [] => _ | _ => _ end] => destruct l as [|[?|] ?]; simpl
           end;
    unfold tools.accepted, tools.rejected; intros H; try discriminate; inversion H.
Qed.

Lemma refill_rejection_writes_nothing_witness :
  fst (tools.request_prescription_refill "1001" "RX-1" scenario.world)
  = Ret (tools.rejected "UNAUTHORIZED")
  /\ prescriptions (snd (tools.request_prescription_refill "1001" "RX-1" scenario.world))
     = prescriptions scenario.world
  /\ refill_requests (snd (tools.request_prescription_refill "1001" "RX-1" scenario.world))
     = refill_requests scenario.world
  /\ tool_stats (snd (tools.request_prescription_refill "1001" "RX-1" scenario.world))
     = tool_stats scenario.world.
Proof.
  split; [reflexivity|].
  apply (proj1 (refill_rejection_writes_nothing "1001" "RX-1" scenario.world) "UNAUTHORIZED").
  reflexivity.
Defined.

(** On the accepted path both writes are made: one request row is added and
    the refill count of the prescription goes down by one. *)
Example refill_accepted_writes :
  let r := tools.request_prescription_refill "1003" "RX-1" scenario.world in
  fst r = Ret (tools.accepted "RR-20250115120000000-RX-1")
  /\ length (refill_requests (snd r)) = 1
  /\ map rx_refills_remaining (prescriptions (snd r)) = [1%Z].
Proof. repeat split. Qed.

(** ** [run_tool] *)

Section RunToolClaims.
Context {X : Collaborators}.

Lemma run_tool_unknown (name : string) (args : Json) (w : World) :
  dict_get name tools.tool_map = None ->
  tools.run_tool name args w = (Ret (tools.unknown_tool name), w).
Proof. intros H. unfold tools.run_tool. rewrite H. reflexivity. Qed.

Lemma run_tool_registered (name : string) (func : tools.ToolFn) (args : Json) (w : World) :
  dict_get name tools.tool_map = Some func ->
  exists w1, tools.run_tool name args w = tools.guarded_call name func args w1.
Proof.
  intros H. unfold tools.run_tool. rewrite H. unfold bind.
  destruct (guarded_increment_never_raises name w) as [w1 E].
  rewrite E. eauto.
Qed.

(** C6 (amended): for a registered tool and an argument mapping whose keys
    all name parameters of the tool and which omits at least one required
    parameter, [run_tool] returns a MISSING_REQUIRED_ARGUMENT payload and
    does not raise. *)
Theorem run_tool_missing_required_argument :
  forall (name : string) (func : tools.ToolFn) (kw : list (string * Json)) (w : World),
    dict_get name tools.tool_map = Some func ->
    forallb (fun kv => has_key (fst kv) (tools.fn_params func)) kw = true ->
    (exists p, In p (tools.required_params func) /\ has_key p kw = false) ->
    exists msg, fst (tools.run_tool name (JObj kw) w)
                = Ret (tools.missing_required_argument name msg).
Proof.
  intros name func kw w Hreg Hkeys (p & Hp & Hmiss).
  destruct (run_tool_registered name func (JObj kw) w Hreg) as [w1 ->].
  unfold tools.guarded_call, try_except, tools.call_kw.
  rewrite (find_unexpected_none _ _ Hkeys).
  destruct (filter _ (tools.required_params func)) as [|n ns] eqn:F.
  - assert (In p (filter (fun q => negb (has_key q kw)) (tools.required_params func))) as Hin.
    { apply filter_In. rewrite Hmiss. auto. }
    rewrite F in Hin. destruct Hin.
  - unfold raise. cbn [is_TypeError exn_kind exn_message].
    destruct (missing_message_mentions func (n :: ns)) as [-> ->].
    simpl. eauto.
Qed.

(** C9: when the usage-counter statement fails, [run_tool] on a registered
    tool is exactly the guarded call of the tool function on the untouched
    tables: the failure is swallowed, it is neither raised nor visible in
    the payload. *)
Theorem run_tool_survives_counter_failure :
  forall (name : string) (func : tools.ToolFn) (args : Json) (w : World)
         (e : exn) (fs : list (option exn)),
    dict_get name tools.tool_map = Some func ->
    faults w = Some e :: fs ->
    fst (db.exec_sql_upsert_tool_stat name w) = Raise e
    /\ tools.run_tool name args w = tools.guarded_call name func args (with_faults fs w).
Proof.
  intros name func args w e fs Hreg Hf.
  unfold tools.run_tool. rewrite Hreg.
  unfold bind, try_except, tools._increment_tool_stat, try_except,
    db.exec_sql_upsert_tool_stat, bind, db.statement.
  rewrite Hf. simpl. auto.
Qed.

End RunToolClaims.

Lemma run_tool_missing_required_argument_witness :
  dict_get "get_medication_by_name" tools.tool_map
  = Some {| tools.fn_name := "get_medication_by_name"; tools.fn_params := [("name", true)] |}
  /\ exists msg,
      fst (tools.run_tool (X := scenario.collaborators) "get_medication_by_name" (JObj [])
             scenario.world)
      = Ret (tools.missing_required_argument "get_medication_by_name" msg).
Proof.
  split; [reflexivity|].
  apply (run_tool_missing_required_argument (X := scenario.collaborators)
           "get_medication_by_name"
           {| tools.fn_name := "get_medication_by_name"; tools.fn_params := [("name", true)] |}
           [] scenario.world).
  - reflexivity.
  - reflexivity.
  - exists "name". split; [left; reflexivity | reflexivity].
Defined.

(** C6 as stated fails: [get_medication_by_name] called with the single
    keyword [nam] omits the required [name], and the call raises CPython's
    complaint about the keyword it does not know; [run_tool] re-raises it. *)
Lemma run_tool_misspelt_keyword_raises :
  has_key "get_medication_by_name" tools.tool_map = true
  /\ has_key "name" [("nam", JStr "ibuprofen")] = false
  /\ fst (tools.run_tool (X := scenario.collaborators) "get_medication_by_name"
            (JObj [("nam", JStr "ibuprofen")]) scenario.world)
     = Raise (mk_exn TypeError
                "get_medication_by_name() got an unexpected keyword argument 'nam'").
Proof. repeat split. Qed.

Lemma run_tool_survives_counter_failure_witness :
  faults scenario.world_with_outage
  = [Some (mk_exn RuntimeError "Database connection failed: timeout")]
  /\ tools.run_tool (X := scenario.collaborators) "request_prescription_refill"
       (JObj [("user_id", JStr "1003"); ("prescription_id", JStr "RX-1")])
       scenario.world_with_outage
     = tools.guarded_call (X := scenario.collaborators) "request_prescription_refill"
         {| tools.fn_name := "request_prescription_refill";
            tools.fn_params := [("user_id", true); ("prescription_id", true)] |}
         (JObj [("user_id", JStr "1003"); ("prescription_id", JStr "RX-1")])
         (with_faults [] scenario.world_with_outage).
Proof.
  split; [reflexivity|].
  apply (run_tool_survives_counter_failure (X := scenario.collaborators)
           "request_prescription_refill" _ _ scenario.world_with_outage
           (mk_exn RuntimeError "Database connection failed: timeout") []);
    reflexivity.
Defined.

(** The run of the witness above: the refill is accepted although the
    counter update failed. *)
Example refill_despite_counter_failure :
  fst (tools.run_tool (X := scenario.collaborators) "request_prescription_refill"
         (JObj [("user_id", JStr "1003"); ("prescription_id", JStr "RX-1")])
         scenario.world_with_outage)
  = Ret (tools.accepted "RR-20250115120000000-RX-1").
Proof. reflexivity. Qed.

(** ** Event sequences *)

Lemma no_terminal_app (a b : list AgentEvent) :
  no_terminal (a ++ b) = no_terminal a && no_terminal b.
Proof. apply forallb_app. Qed.

Lemma closed_by_terminal_single (t : AgentEvent) :
  is_terminal t = true -> closed_by_terminal [t].
Proof. intros H. exists [], t. auto. Qed.

Lemma closed_by_terminal_snoc (pre : list AgentEvent) (t : AgentEvent) :
  no_terminal pre = true -> is_terminal t = true -> closed_by_terminal (pre ++ [t]).
Proof. intros H1 H2. exists pre, t. auto. Qed.

Lemma closed_by_terminal_prepend (a b : list AgentEvent) :
  no_terminal a = true -> closed_by_terminal b -> closed_by_terminal (a ++ b).
Proof.
  intros Ha (pre & t & -> & Ht & Hpre).
  exists (a ++ pre), t. rewrite app_assoc, no_terminal_app, Ha, Hpre. auto.
Qed.

Lemma count_terminal_app (a b : list AgentEvent) :
  count_terminal (a ++ b) = count_terminal a + count_terminal b.
Proof. unfold count_terminal. rewrite filter_app, length_app. reflexivity. Qed.

Lemma no_terminal_count (evs : list AgentEvent) :
  no_terminal evs = true -> count_terminal evs = 0.
Proof.
  unfold no_terminal, count_terminal.
  induction evs as [|e evs IH]; simpl; [reflexivity|].
  intros H. apply andb_true_iff in H as [H1 H2].
  destruct (is_terminal e); [discriminate | auto].
Qed.

(** A sequence closed by a terminal event has exactly one terminal event,
    and it is the last one. *)
Lemma closed_by_terminal_count (evs : list AgentEvent) :
  closed_by_terminal evs ->
  count_terminal evs = 1 /\ exists t, last evs done = t /\ is_terminal t = true.
Proof.
  intros (pre & t & -> & Ht & Hpre). split.
  - rewrite count_terminal_app, (no_terminal_count _ Hpre).
    unfold count_terminal. simpl. rewrite Ht. reflexivity.
  - exists t. rewrite last_last. auto.
Qed.

(** ** The agent loop *)

Section AgentLoopFacts.
Context {Conv : Type}.
Variable round : nat -> Conv -> World -> list AgentEvent * RoundEnd Conv.
Variable max_tool_rounds : Z.

(** What every round yields: no terminal event when the loop goes on, one
    terminal event, last, when the generator returns. *)
Hypothesis round_shape :
  forall idx conv w,
    match round idx conv w with
    | (evs, NextRound _ _) => no_terminal evs = true
    | (evs, Return _) => closed_by_terminal evs
    end.

Lemma rounds_closed (n idx : nat) (conv : Conv) (w : World) :
  closed_by_terminal (events (rounds round max_tool_rounds n idx conv w))
  /\ escaped (rounds round max_tool_rounds n idx conv w) = None.
Proof.
  revert idx conv w. induction n as [|n IH]; intros idx conv w; simpl.
  - split; [apply closed_by_terminal_single|]; reflexivity.
  - pose proof (round_shape idx conv w) as Sh.
    destruct (round idx conv w) as [evs [conv' w'|w']]; simpl.
    + destruct (IH (S idx) conv' w') as [C E].
      split; [apply closed_by_terminal_prepend; assumption | exact E].
    + auto.
Qed.


(** [k] rounds that go on, each yielding events of kind [Q], then the rest
    of the loop. *)
Variable step : nat -> Conv -> World -> Conv -> World -> Prop.
Variable Q : list AgentEvent -> Prop.
Hypothesis step_round :
  forall idx conv w conv' w',
    step idx conv w conv' w' ->
    exists evs, round idx conv w = (evs, NextRound conv' w') /\ Q evs.

Lemma rounds_repeated (k idx : nat) (conv : Conv) (w : World) (conv' : Conv) (w' : World) :
  repeated step k idx conv w conv' w' ->
  forall m,
  exists blocks,
    length blocks = k
    /\ Forall Q blocks
    /\ events (rounds round max_tool_rounds (k + m) idx conv w)
       = concat blocks ++ events (rounds round max_tool_rounds m (idx + k) conv' w')
    /\ length (requests (rounds round max_tool_rounds (k + m) idx conv w))
       = k + length (requests (rounds round max_tool_rounds m (idx + k) conv' w')).
Proof.
  induction 1 as [idx conv w | k idx conv w conv1 w1 conv' w' Hstep _ IH]; intros m.
  - exists []. rewrite Nat.add_0_r. simpl. auto.
  - destruct (step_round _ _ _ _ _ Hstep) as (evs & Hr & Hq).
    destruct (IH m) as (blocks & Hlen & Hall & Hev & Hreq).
    exists (evs :: blocks). simpl. rewrite Hr. simpl.
    rewrite Hev, Hreq, Hlen, <- app_assoc, Nat.add_succ_comm. auto.
Qed.

End AgentLoopFacts.

(** ** Events of a round *)

Lemma forallb_weaken {A : Type} (p q : A -> bool) (l : list A) :
  (forall a, p a = true -> q a = true) -> forallb p l = true -> forallb q l = true.
Proof.
  intros Hpq. induction l as [|a l IH]; simpl; [reflexivity|].
  intros H. apply andb_true_iff in H as [H1 H2]. rewrite (Hpq a H1), (IH H2). reflexivity.
Qed.

Lemma increments_no_terminal (evs : list AgentEvent) :
  forallb is_increment evs = true -> no_terminal evs = true.
Proof. apply forallb_weaken. intros [] H; try reflexivity; discriminate. Qed.

Lemma tool_events_no_terminal (evs : list AgentEvent) :
  forallb is_tool_event evs = true -> no_terminal evs = true.
Proof. apply forallb_weaken. intros [] H; try reflexivity; discriminate. Qed.

Section OpenAIFacts.
Import openai_agent.
Context {X : Collaborators}.
Variable client : Provider.

Lemma on_tool_call_delta_increments (d : ToolCallDelta) (tcs : list ToolCallEntry) :
  forallb is_tool_args_delta (fst (on_tool_call_delta d tcs)) = true.
Proof.
  unfold on_tool_call_delta.
  destruct (tcd_index d); [|reflexivity].
  destruct (tcd_function d) as [f|]; [|reflexivity].
  destruct (truthy (fd_arguments f)); reflexivity.
Qed.

Lemma on_tool_call_deltas_increments (ds : list ToolCallDelta) (tcs : list ToolCallEntry) :
  forallb is_tool_args_delta (fst (on_tool_call_deltas ds tcs)) = true.
Proof.
  revert tcs. induction ds as [|d ds IH]; intros tcs; simpl; [reflexivity|].
  pose proof (on_tool_call_delta_increments d tcs) as H1.
  destruct (on_tool_call_delta d tcs) as [evs1 tcs1].
  specialize (IH tcs1). destruct (on_tool_call_deltas ds tcs1) as [evs2 tcs2].
  simpl in *. rewrite forallb_app, H1, IH. reflexivity.
Qed.

Lemma on_chunk_increments (c : Chunk) (am : AssistantMessage) :
  forallb is_increment (fst (on_chunk c am)) = true.
Proof.
  unfold on_chunk. destruct (choices c) as [|delta _]; [reflexivity|].
  pose proof (on_tool_call_deltas_increments (tool_calls delta) (am_tool_calls am)) as H.
  destruct (on_tool_call_deltas (tool_calls delta) (am_tool_calls am)) as [evs2 tcs].
  simpl in H.
  assert (H2 : forallb is_increment evs2 = true).
  { revert H. apply forallb_weaken. intros [] E; try discriminate; reflexivity. }
  destruct (truthy (content delta)); simpl; exact H2.
Qed.

Lemma consume_increments (s : ChunkStream) (am : AssistantMessage) :
  forallb is_increment (fst (fst (consume s am))) = true.
Proof.
  revert am. induction s as [|c rest IH|e]; intros am; simpl; try reflexivity.
  pose proof (on_chunk_increments c am) as H1.
  destruct (on_chunk c am) as [evs1 am1].
  specialize (IH am1). destruct (consume rest am1) as [[evs2 am2] failure].
  simpl in *. rewrite forallb_app, H1, IH. reflexivity.
Qed.

Lemma consume_failure (s : ChunkStream) (am : AssistantMessage) :
  snd (consume s am) = stream_failure s.
Proof.
  revert am. induction s as [|c rest IH|e]; intros am; simpl; try reflexivity.
  destruct (on_chunk c am) as [evs1 am1].
  specialize (IH am1). destruct (consume rest am1) as [[evs2 am2] failure].
  exact IH.
Qed.

Lemma execute_tool_calls_events (tcs : list ToolCallEntry) (chat : list ChatMessage)
      (w : World) :
  forallb is_tool_event (fst (fst (execute_tool_calls tcs chat w))) = true.
Proof.
  revert chat w. induction tcs as [|tc tcs IH]; intros chat w; simpl; [reflexivity|].
  destruct (tools.run_tool _ _ w) as [[result|e] w1]; [|reflexivity].
  match goal with |- context [execute_tool_calls tcs ?c ?v] =>
    specialize (IH c v); destruct (execute_tool_calls tcs c v) as [[evs o] w2] end.
  simpl in *. exact IH.
Qed.

(** The events and the end of a round, case by case. *)
Lemma round_cases (round_idx : nat) (chat : list ChatMessage) (w : World) :
  (exists e, provider_raises client round_idx chat e
             /\ exists pre, no_terminal pre = true
                /\ round client round_idx chat w = (pre ++ [error (exn_message e)], Return w))
  \/ (tool_free_round client round_idx chat
      /\ exists pre, forallb is_increment pre = true
         /\ round client round_idx chat w = (pre ++ [done], Return w))
  \/ (exists chat' w', tool_round client (fun _ => True) round_idx chat w chat' w'
      /\ exists evs, no_terminal evs = true
         /\ round client round_idx chat w = (evs, NextRound chat' w'))
  \/ (exists e w' pre, no_terminal pre = true
      /\ round client round_idx chat w = (pre ++ [error (exn_message e)], Return w')).
Proof.
  unfold round.
  destruct (client round_idx _) as [s|e] eqn:Ec.
  2:{ left. exists e. split; [left; exact Ec|]. exists []. auto. }
  pose proof (consume_increments s initial_message) as Hinc.
  pose proof (consume_failure s initial_message) as Hf.
  destruct (consume s initial_message) as [[evs am] failure] eqn:Econs.
  simpl in Hinc, Hf. subst failure.
  assert (Hfin : finalized s = am_tool_calls am).
  { unfold finalized. rewrite Econs. reflexivity. }
  destruct (stream_failure s) as [e|] eqn:Es.
  1:{ left. exists e. split; [right; exists s; auto|]. exists evs.
      split; [apply increments_no_terminal, Hinc | reflexivity]. }
  destruct (am_tool_calls am) as [|tc tcs] eqn:Et.
  1:{ right; left. split; [exists s; auto|]. exists evs. auto. }
  pose proof (execute_tool_calls_events (tc :: tcs) (chat ++ [Assistant am]) w) as Hte.
  destruct (execute_tool_calls (tc :: tcs) (chat ++ [Assistant am]) w)
    as [[evs2 [chat'|e]] w'] eqn:Ex; simpl in Hte.
  - right; right; left. exists chat', w'. split.
    + exists s, evs2. rewrite Hfin, Econs. simpl.
      repeat split; auto. discriminate.
    + exists (evs ++ evs2). split; [|reflexivity].
      rewrite no_terminal_app, (increments_no_terminal _ Hinc).
      apply tool_events_no_terminal, Hte.
  - right; right; right. exists e, w', (evs ++ evs2). split.
    + rewrite no_terminal_app, (increments_no_terminal _ Hinc).
      apply tool_events_no_terminal, Hte.
    + rewrite app_assoc. reflexivity.
Qed.

Lemma round_shape (round_idx : nat) (chat : list ChatMessage) (w : World) :
  match round client round_idx chat w with
  | (evs, NextRound _ _) => no_terminal evs = true
  | (evs, Return _) => closed_by_terminal evs
  end.
Proof.
  destruct (round_cases round_idx chat w)
    as [(e & _ & pre & Hp & ->) | [(_ & pre & Hp & ->) | [(c & w' & _ & evs & Hp & ->)
       | (e & w' & pre & Hp & ->)]]].
  - apply closed_by_terminal_snoc; auto.
  - apply closed_by_terminal_snoc; [apply increments_no_terminal|]; auto.
  - exact Hp.
  - apply closed_by_terminal_snoc; auto.
Qed.

End OpenAIFacts.

Section GeminiFacts.
Import gemini_agent.
Context {X : Collaborators}.
Variable model : Provider.

Lemma on_part_increments (idx : nat) (p : Part) (pcs : list PendingCall) :
  forallb is_tool_args_delta (fst (on_part idx p pcs)) = true.
Proof.
  unfold on_part. destruct (function_call p) as [fc|]; [|reflexivity].
  destruct (truthy (fc_name fc)); reflexivity.
Qed.

Lemma on_parts_increments (idx : nat) (ps : list Part) (pcs : list PendingCall) :
  forallb is_tool_args_delta (fst (on_parts idx ps pcs)) = true.
Proof.
  revert pcs. induction ps as [|p ps IH]; intros pcs; simpl; [reflexivity|].
  pose proof (on_part_increments idx p pcs) as H1.
  destruct (on_part idx p pcs) as [evs1 pc1].
  specialize (IH pc1). destruct (on_parts idx ps pc1) as [evs2 pc2].
  simpl in *. rewrite forallb_app, H1, IH. reflexivity.
Qed.

Lemma on_candidates_increments (idx : nat) (cs : list Candidate) (pcs : list PendingCall) :
  forallb is_tool_args_delta (fst (on_candidates idx cs pcs)) = true.
Proof.
  revert pcs. induction cs as [|c cs IH]; intros pcs; simpl; [reflexivity|].
  assert (H1 : forallb is_tool_args_delta
                 (fst (match cand_content c with
                       | None => ([], pcs)
                       | Some ps => on_parts idx ps pcs
                       end)) = true).
  { destruct (cand_content c); [apply on_parts_increments | reflexivity]. }
  destruct (match cand_content c with None => _ | Some ps => _ end) as [evs1 pc1].
  specialize (IH pc1). destruct (on_candidates idx cs pc1) as [evs2 pc2].
  simpl in *. rewrite forallb_app, H1, IH. reflexivity.
Qed.

Lemma gemini_on_chunk_increments (idx : nat) (delta : option string) (c : Chunk)
      (st : RoundState) :
  forallb is_increment (fst (after_text idx delta c st)) = true.
Proof.
  unfold after_text. destruct st as [pcs txt].
  pose proof (on_candidates_increments idx (candidates c) pcs) as H.
  destruct (on_candidates idx (candidates c) pcs) as [evs2 pc2]. simpl in H.
  assert (H2 : forallb is_increment evs2 = true).
  { revert H. apply forallb_weaken. intros [] E; try discriminate; reflexivity. }
  destruct (truthy delta); simpl; exact H2.
Qed.

Lemma gemini_consume_increments (idx : nat) (s : ChunkStream) (st : RoundState) :
  forallb is_increment (fst (fst (consume idx s st))) = true.
Proof.
  revert st. induction s as [|c rest IH|e]; intros st; simpl; try reflexivity.
  unfold on_chunk. destruct (text c) as [delta|e]; [|reflexivity].
  pose proof (gemini_on_chunk_increments idx delta c st) as H1.
  destruct (after_text idx delta c st) as [evs1 st1].
  specialize (IH st1). destruct (consume idx rest st1) as [[evs2 st2] failure].
  simpl in *. rewrite forallb_app, H1, IH. reflexivity.
Qed.

Lemma gemini_consume_failure (idx : nat) (s : ChunkStream) (st : RoundState) :
  snd (consume idx s st) = stream_failure s.
Proof.
  revert st. induction s as [|c rest IH|e]; intros st; simpl; try reflexivity.
  unfold on_chunk. destruct (text c) as [delta|e]; [|reflexivity].
  destruct (after_text idx delta c st) as [evs1 st1].
  specialize (IH st1). destruct (consume idx rest st1) as [[evs2 st2] failure].
  exact IH.
Qed.

Lemma execute_pending_calls_events (calls : list PendingCall) (chat : list Content)
      (w : World) :
  forallb is_tool_event (fst (fst (execute_pending_calls calls chat w))) = true.
Proof.
  revert chat w. induction calls as [|pc calls IH]; intros chat w; simpl; [reflexivity|].
  destruct (tools.run_tool _ _ w) as [[result|e] w1]; [|reflexivity].
  match goal with |- context [execute_pending_calls calls ?c ?v] =>
    specialize (IH c v); destruct (execute_pending_calls calls c v) as [[evs o] w2] end.
  simpl in *. exact IH.
Qed.

Lemma gemini_round_cases (round_idx : nat) (chat : list Content) (w : World) :
  (exists e, provider_raises model round_idx chat e
             /\ exists pre, no_terminal pre = true
                /\ round model round_idx chat w = (pre ++ [error (exn_message e)], Return w))
  \/ (tool_free_round model round_idx chat
      /\ exists pre, forallb is_increment pre = true
         /\ round model round_idx chat w = (pre ++ [done], Return w))
  \/ (exists chat' w', tool_round model (fun _ _ => True) round_idx chat w chat' w'
      /\ exists evs, no_terminal evs = true
         /\ round model round_idx chat w = (evs, NextRound chat' w'))
  \/ (exists e w' pre, no_terminal pre = true
      /\ round model round_idx chat w = (pre ++ [error (exn_message e)], Return w')).
Proof.
  unfold round.
  destruct (model round_idx chat) as [s|e] eqn:Ec.
  2:{ left. exists e. split; [left; exact Ec|]. exists []. auto. }
  pose proof (gemini_consume_increments round_idx s ([], "")) as Hinc.
  pose proof (gemini_consume_failure round_idx s ([], "")) as Hf.
  assert (Hw : with_model_text round_idx s chat
               = if String.eqb (snd (snd (fst (consume round_idx s ([], ""))))) ""
                 then chat
                 else chat ++ [{| role := "model";
                                  parts := [TextPart (snd (snd (fst (consume round_idx s ([], "")))))] |}])
    by reflexivity.
  destruct (consume round_idx s ([], "")) as [[evs [pcs txt]] failure] eqn:Econs.
  simpl in Hinc, Hf, Hw. subst failure.
  assert (Hfin : finalized round_idx s = pcs).
  { unfold finalized. rewrite Econs. reflexivity. }
  destruct (stream_failure s) as [e|] eqn:Es.
  1:{ left. exists e. split; [right; exists s; auto|]. exists evs.
      split; [apply increments_no_terminal, Hinc | reflexivity]. }
  destruct pcs as [|pc pcs].
  1:{ right; left. split; [exists s; auto|]. exists evs. auto. }
  rewrite <- Hw.
  pose proof (execute_pending_calls_events (pc :: pcs) (with_model_text round_idx s chat) w)
    as Hte.
  destruct (execute_pending_calls (pc :: pcs) (with_model_text round_idx s chat) w)
    as [[evs2 [chat'|e]] w'] eqn:Ex; simpl in Hte.
  - right; right; left. exists chat', w'. split.
    + exists s, evs2. rewrite Hfin. repeat split; auto. discriminate.
    + exists (evs ++ evs2). split; [|reflexivity].
      rewrite no_terminal_app, (increments_no_terminal _ Hinc).
      apply tool_events_no_terminal, Hte.
  - right; right; right. exists e, w', (evs ++ evs2). split.
    + rewrite no_terminal_app, (increments_no_terminal _ Hinc).
      apply tool_events_no_terminal, Hte.
    + rewrite app_assoc. reflexivity.
Qed.

Lemma gemini_round_shape (round_idx : nat) (chat : list Content) (w : World) :
  match round model round_idx chat w with
  | (evs, NextRound _ _) => no_terminal evs = true
  | (evs, Return _) => closed_by_terminal evs
  end.
Proof.
  destruct (gemini_round_cases round_idx chat w)
    as [(e & _ & pre & Hp & ->) | [(_ & pre & Hp & ->) | [(c & w' & _ & evs & Hp & ->)
       | (e & w' & pre & Hp & ->)]]].
  - apply closed_by_terminal_snoc; auto.
  - apply closed_by_terminal_snoc; [apply increments_no_terminal|]; auto.
  - exact Hp.
  - apply closed_by_terminal_snoc; auto.
Qed.

End GeminiFacts.

(** ** What a round does, by the provider's answer *)

Lemma concat_no_terminal (blocks : list (list AgentEvent)) :
  Forall (fun evs => no_terminal evs = true) blocks -> no_terminal (concat blocks) = true.
Proof.
  induction 1 as [|b bs Hb _ IH]; simpl; [reflexivity|].
  rewrite no_terminal_app, Hb, IH. reflexivity.
Qed.

Lemma text_deltas_map (evs : list AgentEvent) :
  forallb is_text_delta evs = true -> exists texts, evs = map text_delta texts.
Proof.
  induction evs as [|e evs IH]; simpl; intros H.
  - exists []. reflexivity.
  - apply andb_true_iff in H as [H1 H2]. destruct (IH H2) as [texts ->].
    destruct e; try discriminate. exists (delta :: texts). reflexivity.
Qed.

Lemma limit_message_mentions (max_tool_rounds : Z) :
  mentions (limit_message max_tool_rounds) (str_of_Z max_tool_rounds).
Proof.
  exists "Maximum tool call rounds (".
  eexists. unfold limit_message. reflexivity.
Qed.

Section OpenAIRounds.
Import openai_agent.
Context {X : Collaborators}.
Variable client : Provider.


Lemma round_when_tool_round (P : ChunkStream -> Prop) (round_idx : nat)
      (chat : list ChatMessage) (w : World) (chat' : list ChatMessage) (w' : World) :
  tool_round client P round_idx chat w chat' w' ->
  exists s evs2,
    P s
    /\ client round_idx (Plain "system" SYSTEM_INSTRUCTIONS :: chat) = Ret s
    /\ stream_failure s = None
    /\ forallb is_tool_event evs2 = true
    /\ execute_tool_calls (finalized s)
         (chat ++ [Assistant (snd (fst (consume s initial_message)))]) w
       = (evs2, Ret chat', w')
    /\ round client round_idx chat w
       = (fst (fst (consume s initial_message)) ++ evs2, NextRound chat' w').
Proof.
  intros (s & evs2 & Hc & HP & Hs & Hne & Hx).
  exists s, evs2. repeat split; auto.
  - pose proof (execute_tool_calls_events (finalized s)
                  (chat ++ [Assistant (snd (fst (consume s initial_message)))]) w) as H.
    rewrite Hx in H. exact H.
  - unfold round. rewrite Hc.
    pose proof (consume_failure s initial_message) as Hf. rewrite Hs in Hf.
    unfold finalized in *.
    destruct (consume s initial_message) as [[evs am] failure].
    cbn [fst snd] in *. subst failure.
    destruct (am_tool_calls am) as [|tc tcs]; [congruence|].
    rewrite Hx. reflexivity.
Qed.

Lemma tool_round_no_terminal (P : ChunkStream -> Prop) (round_idx : nat)
      (chat : list ChatMessage) (w : World) (chat' : list ChatMessage) (w' : World) :
  tool_round client P round_idx chat w chat' w' ->
  exists evs, round client round_idx chat w = (evs, NextRound chat' w')
              /\ no_terminal evs = true.
Proof.
  intros H. destruct (round_when_tool_round _ _ _ _ _ _ H)
    as (s & evs2 & _ & _ & _ & Ht & _ & Hr).
  eexists. split; [exact Hr|].
  rewrite no_terminal_app, (tool_events_no_terminal _ Ht).
  rewrite (increments_no_terminal _ (consume_increments s initial_message)). reflexivity.
Qed.

(** Sizes of the accumulator. *)
Lemma update_at_length (idx : nat) (f : ToolCallEntry -> ToolCallEntry)
      (tcs : list ToolCallEntry) :
  length (update_at idx f tcs) = length tcs.
Proof.
  revert idx. induction tcs as [|tc tcs IH]; intros [|idx]; simpl; auto.
Qed.

Lemma update_if_length (b : bool) (idx : nat) (f : ToolCallEntry -> ToolCallEntry)
      (tcs : list ToolCallEntry) :
  length (update_if b idx f tcs) = length tcs.
Proof. destruct b; simpl; [apply update_at_length | reflexivity]. Qed.

Lemma ensure_length (idx : nat) (tcs : list ToolCallEntry) :
  length (ensure idx tcs) = Nat.max (length tcs) (S idx).
Proof. unfold ensure. rewrite length_app, repeat_length. lia. Qed.

Lemma on_tool_call_delta_length (d : ToolCallDelta) (tcs : list ToolCallEntry) :
  length (snd (on_tool_call_delta d tcs))
  = match tcd_index d with
    | None => length tcs
    | Some idx => Nat.max (length tcs) (S idx)
    end.
Proof.
  unfold on_tool_call_delta. destruct (tcd_index d) as [idx|]; [|reflexivity].
  destruct (tcd_function d) as [f|]; simpl.
  - destruct (truthy (fd_arguments f)); simpl;
      rewrite ?update_at_length, ?update_if_length, ensure_length; reflexivity.
  - rewrite update_if_length, ensure_length. reflexivity.
Qed.

(** An accumulator that ends empty was empty all along, and no argument
    fragment was yielded. *)
Lemma on_tool_call_deltas_empty (ds : list ToolCallDelta) (tcs : list ToolCallEntry) :
  snd (on_tool_call_deltas ds tcs) = [] ->
  tcs = [] /\ fst (on_tool_call_deltas ds tcs) = [].
Proof.
  revert tcs. induction ds as [|d ds IH]; intros tcs; simpl; [auto|].
  pose proof (on_tool_call_delta_length d tcs) as Hl.
  destruct (on_tool_call_delta d tcs) as [evs1 tcs1] eqn:E1.
  specialize (IH tcs1). destruct (on_tool_call_deltas ds tcs1) as [evs2 tcs2].
  simpl in *. intros ->. destruct (IH eq_refl) as [-> ->].
  simpl in Hl. unfold on_tool_call_delta in E1.
  destruct (tcd_index d) as [idx|]; [lia|].
  inversion E1; subst. auto.
Qed.

Lemma consume_text_only (s : ChunkStream) (am : AssistantMessage) :
  am_tool_calls (snd (fst (consume s am))) = [] ->
  forallb is_text_delta (fst (fst (consume s am))) = true.
Proof.
  revert am. induction s as [|c rest IH|e]; intros am; simpl; try reflexivity.
  destruct (on_chunk c am) as [evs1 am1] eqn:E1.
  specialize (IH am1). destruct (consume rest am1) as [[evs2 am2] failure] eqn:E2.
  simpl in *. intros H. rewrite forallb_app, (IH H), andb_true_r.
  assert (H1 : am_tool_calls am1 = []).
  { clear - E2 H. revert am1 evs2 am2 failure E2 H.
    induction rest as [|c rest IHr|e]; intros am1 evs2 am2 failure E2 H; simpl in E2.
    - inversion E2; subst; exact H.
    - destruct (on_chunk c am1) as [evs1 am1'] eqn:E1.
      destruct (consume rest am1') as [[evs2' am2'] failure'] eqn:E2'.
      inversion E2; subst. specialize (IHr _ _ _ _ E2' H).
      unfold on_chunk in E1. destruct (choices c) as [|delta _].
      + inversion E1; subst; exact IHr.
      + pose proof (on_tool_call_deltas_empty (tool_calls delta) (am_tool_calls am1)) as Hd.
        destruct (on_tool_call_deltas (tool_calls delta) (am_tool_calls am1)) as [e2 t2].
        destruct (truthy (content delta)); inversion E1; subst; simpl in *;
          apply Hd; exact IHr.
    - inversion E2; subst; exact H. }
  unfold on_chunk in E1. destruct (choices c) as [|delta _].
  - inversion E1; reflexivity.
  - pose proof (on_tool_call_deltas_empty (tool_calls delta) (am_tool_calls am)) as Hd.
    destruct (on_tool_call_deltas (tool_calls delta) (am_tool_calls am)) as [e2 t2].
    destruct (truthy (content delta)); inversion E1; subst; simpl in *;
      destruct (Hd H1) as [_ ->]; reflexivity.
Qed.

Lemma round_when_tool_free (round_idx : nat) (chat : list ChatMessage) :
  tool_free_round client round_idx chat ->
  forall w, exists texts,
    round client round_idx chat w = (map text_delta texts ++ [done], Return w).
Proof.
  intros (s & Hc & Hs & Hfin) w. unfold round. rewrite Hc.
  pose proof (consume_failure s initial_message) as Hf. rewrite Hs in Hf.
  pose proof (consume_text_only s initial_message) as Ht.
  unfold finalized in Hfin.
  destruct (consume s initial_message) as [[evs am] failure]. simpl in *. subst failure.
  rewrite Hfin. destruct (text_deltas_map evs (Ht Hfin)) as [texts ->].
  exists texts. reflexivity.
Qed.

End OpenAIRounds.

Lemma args_delta_ids_app (a b : list AgentEvent) :
  args_delta_ids (a ++ b) = args_delta_ids a ++ args_delta_ids b.
Proof. apply flat_map_app. Qed.

Lemma increments_without_ids (evs : list AgentEvent) :
  forallb is_increment evs = true -> args_delta_ids evs = [] ->
  forallb is_text_delta evs = true.
Proof.
  induction evs as [|e evs IH]; simpl; [reflexivity|].
  intros H Hi. apply andb_true_iff in H as [H1 H2].
  destruct e; try discriminate; simpl in *; auto.
Qed.

Lemma increments_of_one_call (c : string) (evs : list AgentEvent) :
  forallb is_increment evs = true ->
  Forall (eq c) (args_delta_ids evs) ->
  forallb (is_delta_of c) evs = true.
Proof.
  induction evs as [|e evs IH]; simpl; [reflexivity|].
  intros H Hi. apply andb_true_iff in H as [H1 H2].
  destruct e; try discriminate; simpl in *.
  - auto.
  - inversion Hi; subst. rewrite String.eqb_refl. auto.
Qed.

Lemma some_args_delta (evs : list AgentEvent) :
  args_delta_ids evs <> [] -> existsb is_tool_args_delta evs = true.
Proof.
  induction evs as [|e evs IH]; simpl; [congruence|].
  destruct e; simpl; auto.
Qed.

Section GeminiRounds.
Import gemini_agent.
Context {X : Collaborators}.
Variable model : Provider.


Lemma gemini_round_when_tool_round (P : nat -> ChunkStream -> Prop) (round_idx : nat)
      (chat : list Content) (w : World) (chat' : list Content) (w' : World) :
  tool_round model P round_idx chat w chat' w' ->
  exists s evs2,
    P round_idx s
    /\ model round_idx chat = Ret s
    /\ stream_failure s = None
    /\ forallb is_tool_event evs2 = true
    /\ execute_pending_calls (finalized round_idx s) (with_model_text round_idx s chat) w
       = (evs2, Ret chat', w')
    /\ round model round_idx chat w
       = (fst (fst (consume round_idx s ([], ""))) ++ evs2, NextRound chat' w').
Proof.
  intros (s & evs2 & Hc & HP & Hs & Hne & Hx).
  exists s, evs2. repeat split; auto.
  - pose proof (execute_pending_calls_events (finalized round_idx s)
                  (with_model_text round_idx s chat) w) as H.
    rewrite Hx in H. exact H.
  - unfold round. rewrite Hc.
    pose proof (gemini_consume_failure round_idx s ([], "")) as Hf. rewrite Hs in Hf.
    unfold finalized, with_model_text, finalized_text in *.
    destruct (consume round_idx s ([], "")) as [[evs [pcs txt]] failure].
    cbn [fst snd] in *. subst failure.
    destruct pcs as [|pc pcs]; [congruence|].
    rewrite Hx. reflexivity.
Qed.

Lemma gemini_tool_round_no_terminal (P : nat -> ChunkStream -> Prop) (round_idx : nat)
      (chat : list Content) (w : World) (chat' : list Content) (w' : World) :
  tool_round model P round_idx chat w chat' w' ->
  exists evs, round model round_idx chat w = (evs, NextRound chat' w')
              /\ no_terminal evs = true.
Proof.
  intros H. destruct (gemini_round_when_tool_round _ _ _ _ _ _ H)
    as (s & evs2 & _ & _ & _ & Ht & _ & Hr).
  eexists. split; [exact Hr|].
  rewrite no_terminal_app, (tool_events_no_terminal _ Ht).
  rewrite (increments_no_terminal _ (gemini_consume_increments round_idx s ([], ""))).
  reflexivity.
Qed.

(** Every call appended to [pending_calls] comes with one argument
    fragment that carries its identifier. *)
Lemma on_part_pending (idx : nat) (p : Part) (pcs : list PendingCall) :
  exists new, snd (on_part idx p pcs) = pcs ++ new
              /\ args_delta_ids (fst (on_part idx p pcs)) = map pc_id new.
Proof.
  unfold on_part. destruct (function_call p) as [fc|].
  - destruct (truthy (fc_name fc)); simpl.
    + eexists [_]. split; reflexivity.
    + exists []. rewrite app_nil_r. auto.
  - exists []. rewrite app_nil_r. auto.
Qed.

Lemma on_parts_pending (idx : nat) (ps : list Part) (pcs : list PendingCall) :
  exists new, snd (on_parts idx ps pcs) = pcs ++ new
              /\ args_delta_ids (fst (on_parts idx ps pcs)) = map pc_id new.
Proof.
  revert pcs. induction ps as [|p ps IH]; intros pcs; simpl.
  - exists []. rewrite app_nil_r. auto.
  - destruct (on_part_pending idx p pcs) as (n1 & H1 & I1).
    destruct (on_part idx p pcs) as [evs1 pc1]. simpl in H1, I1. subst pc1.
    destruct (IH (pcs ++ n1)) as (n2 & H2 & I2).
    destruct (on_parts idx ps (pcs ++ n1)) as [evs2 pc2]. simpl in *. subst pc2.
    exists (n1 ++ n2). rewrite args_delta_ids_app, I1, I2, map_app, app_assoc. auto.
Qed.

Lemma on_candidates_pending (idx : nat) (cs : list Candidate) (pcs : list PendingCall) :
  exists new, snd (on_candidates idx cs pcs) = pcs ++ new
              /\ args_delta_ids (fst (on_candidates idx cs pcs)) = map pc_id new.
Proof.
  revert pcs. induction cs as [|c cs IH]; intros pcs; simpl.
  - exists []. rewrite app_nil_r. auto.
  - assert (exists n1, snd (match cand_content c with
                            | None => ([], pcs)
                            | Some ps => on_parts idx ps pcs
                            end) = pcs ++ n1
                       /\ args_delta_ids (fst (match cand_content c with
                                               | None => ([], pcs)
                                               | Some ps => on_parts idx ps pcs
                                               end)) = map pc_id n1) as (n1 & H1 & I1).
    { destruct (cand_content c); [apply on_parts_pending|].
      exists []. rewrite app_nil_r. auto. }
    destruct (match cand_content c with None => _ | Some ps => _ end) as [evs1 pc1].
    simpl in H1, I1. subst pc1.
    destruct (IH (pcs ++ n1)) as (n2 & H2 & I2).
    destruct (on_candidates idx cs (pcs ++ n1)) as [evs2 pc2]. simpl in *. subst pc2.
    exists (n1 ++ n2). rewrite args_delta_ids_app, I1, I2, map_app, app_assoc. auto.
Qed.

Lemma consume_pending (idx : nat) (s : ChunkStream) (st : RoundState) :
  exists new, fst (snd (fst (consume idx s st))) = fst st ++ new
              /\ args_delta_ids (fst (fst (consume idx s st))) = map pc_id new.
Proof.
  revert st. induction s as [|c rest IH|e]; intros st; simpl.
  - exists []. rewrite app_nil_r. auto.
  - destruct st as [pcs txt]. unfold on_chunk.
    destruct (text c) as [delta|e].
    2:{ exists []. simpl. rewrite app_nil_r. auto. }
    unfold after_text.
    destruct (on_candidates_pending idx (candidates c) pcs) as (n1 & H1 & I1).
    destruct (on_candidates idx (candidates c) pcs) as [evs2 pc2]. simpl in H1, I1. subst pc2.
    destruct (truthy delta); cbn iota;
      match goal with |- context [consume idx rest ?st1] =>
        destruct (IH st1) as (n2 & H2 & I2);
        destruct (consume idx rest st1) as [[evs3 st3] failure] end;
      simpl in *; exists (n1 ++ n2);
      rewrite ?args_delta_ids_app, H2, I1, I2, map_app, app_assoc; auto.
  - exists []. rewrite app_nil_r. auto.
Qed.

Lemma gemini_round_when_tool_free (round_idx : nat) (chat : list Content) :
  tool_free_round model round_idx chat ->
  forall w, exists texts,
    round model round_idx chat w = (map text_delta texts ++ [done], Return w).
Proof.
  intros (s & Hc & Hs & Hfin) w. unfold round. rewrite Hc.
  pose proof (gemini_consume_failure round_idx s ([], "")) as Hf. rewrite Hs in Hf.
  pose proof (gemini_consume_increments round_idx s ([], "")) as Hinc.
  destruct (consume_pending round_idx s ([], "")) as (new & Hn & Hi).
  unfold finalized in Hfin.
  destruct (consume round_idx s ([], "")) as [[evs [pcs txt]] failure].
  cbn [fst snd] in *. subst failure pcs. simpl in Hn. subst new.
  destruct (text_deltas_map evs (increments_without_ids _ Hinc Hi)) as [texts ->].
  exists texts. reflexivity.
Qed.

End GeminiRounds.

(** ** The event stream of an invocation *)

Lemma copy_messages_well_formed (messages : list Message) :
  forallb well_formed messages = true ->
  exists chat, openai_agent.copy_messages messages = Ret chat.
Proof.
  induction messages as [|m ms IH]; simpl; intros H.
  - eauto.
  - apply andb_true_iff in H as [Hm Hms]. destruct (IH Hms) as [chat ->].
    unfold well_formed, has_key in Hm.
    destruct (dict_get "role" m); [|discriminate].
    destruct (dict_get "content" m); [|discriminate]. eauto.
Qed.

Lemma rounds_end_properly {Conv : Type}
      (round : nat -> Conv -> World -> list AgentEvent * RoundEnd Conv)
      (max_tool_rounds : Z) :
  (forall idx conv w,
      match round idx conv w with
      | (evs, NextRound _ _) => no_terminal evs = true
      | (evs, Return _) => closed_by_terminal evs
      end) ->
  forall conv w, ends_properly (agent_loop round max_tool_rounds conv w).
Proof.
  intros Hshape conv w. unfold agent_loop, ends_properly.
  destruct (rounds_closed round max_tool_rounds Hshape (Z.to_nat max_tool_rounds) 0 conv w)
    as [Hc He].
  split; [exact He|]. split; [apply closed_by_terminal_count, Hc|].
  destruct Hc as (pre & t & E & Ht & _). eauto.
Qed.

(** X22: on message lists whose messages carry [role] and [content], every
    run of the OpenAI adapter, and on any message list every run of the
    Gemini adapter, yields a finite sequence of events with exactly one
    terminal event ([done] or [error]), which is the last event, and lets
    no exception escape, whatever the provider, the tools and the budget
    do. *)
Theorem stream_ends_in_one_terminal_event :
  forall (X : Collaborators) (client : openai_agent.Provider) (model : gemini_agent.Provider)
         (messages : list Message) (max_tool_rounds : Z) (w : World),
    (forallb well_formed messages = true ->
     ends_properly (openai_agent.stream client messages max_tool_rounds w))
    /\ ends_properly (gemini_agent.stream model messages max_tool_rounds w).
Proof.
  intros X client model messages max_tool_rounds w. split.
  - intros Hwf. destruct (copy_messages_well_formed messages Hwf) as [chat Hc].
    unfold openai_agent.stream. rewrite Hc.
    apply rounds_end_properly. apply round_shape.
  - unfold gemini_agent.stream.
    apply rounds_end_properly. apply gemini_round_shape.
Qed.

Lemma stream_ends_in_one_terminal_event_witness :
  forallb well_formed scenario.question = true
  /\ ends_properly (openai_agent.stream (X := scenario.collaborators) scenario.helper
                      scenario.question 10 scenario.world)
  /\ ends_properly (gemini_agent.stream (X := scenario.collaborators) scenario.gemini_helper
                      scenario.question 10 scenario.world).
Proof.
  split; [reflexivity|].
  split.
  - apply (proj1 (stream_ends_in_one_terminal_event scenario.collaborators scenario.helper
                    scenario.gemini_helper scenario.question 10 scenario.world)).
    reflexivity.
  - apply (proj2 (stream_ends_in_one_terminal_event scenario.collaborators scenario.helper
                    scenario.gemini_helper scenario.question 10 scenario.world)).
Defined.

(** C1: the OpenAI adapter breaks the claim on a message without
    [content].  The copy of the messages stands before the loop and outside
    its [try] block, so the [KeyError] escapes the generator before its
    first event: the sequence is empty and holds no terminal event.  The
    Gemini adapter reads the same keys with defaults and ends the same
    input with one terminal event. *)
Lemma openai_stream_raises_on_truncated_message :
  events (openai_agent.stream (X := scenario.collaborators) scenario.talker
            scenario.truncated_question 10 scenario.world) = []
  /\ escaped (openai_agent.stream (X := scenario.collaborators) scenario.talker
                scenario.truncated_question 10 scenario.world)
     = Some (mk_exn KeyError "'content'")
  /\ count_terminal (events (openai_agent.stream (X := scenario.collaborators) scenario.talker
                               scenario.truncated_question 10 scenario.world)) = 0
  /\ events (gemini_agent.stream (X := scenario.collaborators) scenario.gemini_talker
               scenario.truncated_question 10 scenario.world)
     = [text_delta "Hello"; done]
  /\ escaped (gemini_agent.stream (X := scenario.collaborators) scenario.gemini_talker
                scenario.truncated_question 10 scenario.world) = None.
Proof. repeat split. Qed.



(** C4 (amended): for a round budget [max_tool_rounds >= 0], when every
    round is a tool round (the response is read to its end without an
    exception, it requests at least one tool call, and every tool invoked
    returns), the run performs exactly [max_tool_rounds] rounds and its
    events end in one [error] event whose message mentions the budget. *)
Theorem round_budget_exhaustion :
  forall (X : Collaborators) (messages : list Message) (max_tool_rounds : Z) (w : World),
    (0 <= max_tool_rounds)%Z ->
    (forall (client : openai_agent.Provider) chat0 chat' w',
        openai_agent.copy_messages messages = Ret chat0 ->
        repeated (openai_agent.tool_round client (fun _ => True))
          (Z.to_nat max_tool_rounds) 0 chat0 w chat' w' ->
        Z.of_nat (length (requests (openai_agent.stream client messages max_tool_rounds w)))
        = max_tool_rounds
        /\ exists pre,
            events (openai_agent.stream client messages max_tool_rounds w)
            = pre ++ [error (limit_message max_tool_rounds)]
            /\ no_terminal pre = true
            /\ mentions (limit_message max_tool_rounds) (str_of_Z max_tool_rounds))
    /\ (forall (model : gemini_agent.Provider) chat' w',
           repeated (gemini_agent.tool_round model (fun _ _ => True))
             (Z.to_nat max_tool_rounds) 0
             (gemini_agent._convert_messages_to_contents messages) w chat' w' ->
           Z.of_nat (length (requests (gemini_agent.stream model messages max_tool_rounds w)))
           = max_tool_rounds
           /\ exists pre,
               events (gemini_agent.stream model messages max_tool_rounds w)
               = pre ++ [error (limit_message max_tool_rounds)]
               /\ no_terminal pre = true
               /\ mentions (limit_message max_tool_rounds) (str_of_Z max_tool_rounds)).
Proof.
  intros X messages max_tool_rounds w Hmax. split.
  - intros client chat0 chat' w' Hcopy Hrep.
    unfold openai_agent.stream, agent_loop. rewrite Hcopy.
    destruct (rounds_repeated (openai_agent.round client) max_tool_rounds
                (openai_agent.tool_round client (fun _ => True))
                (fun evs => no_terminal evs = true)
                (tool_round_no_terminal client (fun _ => True))
                _ _ _ _ _ _ Hrep 0) as (blocks & Hlen & Hall & Hev & Hreq).
    rewrite Nat.add_0_r in Hev, Hreq. rewrite Hev, Hreq. simpl. split; [lia|].
    exists (concat blocks). repeat split.
    + apply concat_no_terminal, Hall.
    + apply limit_message_mentions.
  - intros model chat' w' Hrep.
    unfold gemini_agent.stream, agent_loop.
    destruct (rounds_repeated (gemini_agent.round model) max_tool_rounds
                (gemini_agent.tool_round model (fun _ _ => True))
                (fun evs => no_terminal evs = true)
                (gemini_tool_round_no_terminal model (fun _ _ => True))
                _ _ _ _ _ _ Hrep 0) as (blocks & Hlen & Hall & Hev & Hreq).
    rewrite Nat.add_0_r in Hev, Hreq. rewrite Hev, Hreq. simpl. split; [lia|].
    exists (concat blocks). repeat split.
    + apply concat_no_terminal, Hall.
    + apply limit_message_mentions.
Qed.

Lemma round_budget_exhaustion_witness :
  (0 <= 2)%Z
  /\ (exists chat' w',
         repeated (openai_agent.tool_round (X := scenario.collaborators) scenario.looper
                     (fun _ => True))
           2 0 [openai_agent.Plain "user" "Which stores are open?"] scenario.world chat' w')
  /\ Z.of_nat (length (requests (openai_agent.stream (X := scenario.collaborators)
                                   scenario.looper scenario.question 2 scenario.world))) = 2%Z
  /\ exists pre,
      events (openai_agent.stream (X := scenario.collaborators) scenario.looper
                scenario.question 2 scenario.world)
      = pre ++ [error (limit_message 2)]
      /\ no_terminal pre = true
      /\ mentions (limit_message 2) (str_of_Z 2).
Proof.
  assert (R : exists chat' w',
             repeated (openai_agent.tool_round (X := scenario.collaborators) scenario.looper
                         (fun _ => True))
               2 0 [openai_agent.Plain "user" "Which stores are open?"] scenario.world chat' w').
  { do 2 eexists.
    eapply repeated_S.
    { do 2 eexists. split; [reflexivity|]. split; [exact I|]. split; [reflexivity|].
      split; [discriminate | reflexivity]. }
    eapply repeated_S.
    { do 2 eexists. split; [reflexivity|]. split; [exact I|]. split; [reflexivity|].
      split; [discriminate | reflexivity]. }
    apply repeated_O. }
  split; [lia|]. split; [exact R|].
  destruct R as (chat' & w' & R).
  apply (proj1 (round_budget_exhaustion scenario.collaborators scenario.question 2
                  scenario.world ltac:(lia))
           scenario.looper _ chat' w' eq_refl R).
Defined.

(** C4 as stated fails when a tool raises.  The model asks for a tool in
    every round it is given, with a budget of five; the query of the tool
    fails in the first round, [run_tool] lets the exception through, and the
    run ends there: one request, and an [error] event that carries the
    message of the exception, not the round limit. *)
Lemma budget_is_not_exhausted_when_a_tool_raises :
  events (openai_agent.stream (X := scenario.collaborators) scenario.looper
            scenario.question 5 scenario.world_with_failing_query)
  = [tool_args_delta "call_1" "{}";
     tool_call "list_stores" "call_1" (JObj []);
     error "Database connection failed: timeout"]
  /\ length (requests (openai_agent.stream (X := scenario.collaborators) scenario.looper
                         scenario.question 5 scenario.world_with_failing_query)) = 1
  /\ events (gemini_agent.stream (X := scenario.collaborators) scenario.gemini_looper
               scenario.question 5 scenario.world_with_failing_query)
     = [tool_args_delta "gemini-list_stores-0-0" "{}";
        tool_call "list_stores" "gemini-list_stores-0-0" (JObj []);
        error "Database connection failed: timeout"]
  /\ length (requests (gemini_agent.stream (X := scenario.collaborators)
                         scenario.gemini_looper scenario.question 5
                         scenario.world_with_failing_query)) = 1
  /\ "Database connection failed: timeout" <> limit_message 5.
Proof. repeat split. discriminate. Qed.

(** C8: when the first response of the model finalizes no tool call, the
    events are text increments followed by one [done], and the run performs
    one round. *)
Theorem tool_free_first_response :
  forall (X : Collaborators) (messages : list Message) (max_tool_rounds : Z) (w : World),
    (0 < max_tool_rounds)%Z ->
    (forall (client : openai_agent.Provider) chat0,
        openai_agent.copy_messages messages = Ret chat0 ->
        openai_agent.tool_free_round client 0 chat0 ->
        exists texts,
          events (openai_agent.stream client messages max_tool_rounds w)
          = map text_delta texts ++ [done]
          /\ requests (openai_agent.stream client messages max_tool_rounds w) = [chat0])
    /\ (forall (model : gemini_agent.Provider),
           gemini_agent.tool_free_round model 0
             (gemini_agent._convert_messages_to_contents messages) ->
           exists texts,
             events (gemini_agent.stream model messages max_tool_rounds w)
             = map text_delta texts ++ [done]
             /\ requests (gemini_agent.stream model messages max_tool_rounds w)
                = [gemini_agent._convert_messages_to_contents messages]).
Proof.
  intros X messages max_tool_rounds w Hmax.
  destruct (Z.to_nat max_tool_rounds) as [|n] eqn:En; [lia|]. split.
  - intros client chat0 Hcopy Hfree.
    unfold openai_agent.stream, agent_loop. rewrite Hcopy, En. simpl.
    destruct (round_when_tool_free client 0 chat0 Hfree w) as [texts ->].
    exists texts. auto.
  - intros model Hfree.
    unfold gemini_agent.stream, agent_loop. rewrite En. simpl.
    destruct (gemini_round_when_tool_free model 0 _ Hfree w) as [texts ->].
    exists texts. auto.
Qed.

Lemma tool_free_first_response_witness :
  (0 < 10)%Z
  /\ openai_agent.tool_free_round (X := scenario.collaborators) scenario.talker 0
       [openai_agent.Plain "user" "Which stores are open?"]
  /\ exists texts,
      events (openai_agent.stream (X := scenario.collaborators) scenario.talker
                scenario.question 10 scenario.world)
      = map text_delta texts ++ [done]
      /\ requests (openai_agent.stream (X := scenario.collaborators) scenario.talker
                     scenario.question 10 scenario.world)
         = [[openai_agent.Plain "user" "Which stores are open?"]].
Proof.
  assert (F : openai_agent.tool_free_round (X := scenario.collaborators) scenario.talker 0
                [openai_agent.Plain "user" "Which stores are open?"]).
  { eexists. repeat split. }
  split; [lia|]. split; [exact F|].
  apply (proj1 (tool_free_first_response scenario.collaborators scenario.question 10
                  scenario.world ltac:(lia))
           scenario.talker _ eq_refl F).
Defined.

(** ** Tool invocation inside a round *)

(** The run at a round that was performed: what came before holds no
    terminal event, and what follows is the loop restarted at that round
    with the iterations that are left. *)
Lemma rounds_at {Conv : Type}
      (round : nat -> Conv -> World -> list AgentEvent * RoundEnd Conv)
      (max_tool_rounds : Z) :
  (forall idx conv w,
      match round idx conv w with
      | (evs, NextRound _ _) => no_terminal evs = true
      | (evs, Return _) => closed_by_terminal evs
      end) ->
  forall (n idx : nat) (conv : Conv) (w : World) (i : nat) (c : Conv),
    nth_error (requests (rounds round max_tool_rounds n idx conv w)) i = Some c ->
    exists m w' pre reqs,
      n = i + S m
      /\ no_terminal pre = true
      /\ length reqs = i
      /\ events (rounds round max_tool_rounds n idx conv w)
         = pre ++ events (rounds round max_tool_rounds (S m) (idx + i) c w')
      /\ requests (rounds round max_tool_rounds n idx conv w)
         = reqs ++ requests (rounds round max_tool_rounds (S m) (idx + i) c w').
Proof.
  intros Hshape. induction n as [|n IH]; intros idx conv w i c.
  - simpl. destruct i; discriminate.
  - destruct i as [|i].
    + intros H. exists n, w, [], []. rewrite Nat.add_0_r.
      assert (c = conv) as ->.
      { simpl in H. destruct (round idx conv w) as [evs [conv' w'|w']]; simpl in H; congruence. }
      auto.
    + intros H. pose proof (Hshape idx conv w) as Sh.
      destruct (round idx conv w) as [evs [conv' w'|w']] eqn:Er.
      * assert (Hs : events (rounds round max_tool_rounds (S n) idx conv w)
                     = evs ++ events (rounds round max_tool_rounds n (S idx) conv' w')
                     /\ requests (rounds round max_tool_rounds (S n) idx conv w)
                        = conv :: requests (rounds round max_tool_rounds n (S idx) conv' w'))
          by (simpl; rewrite Er; auto).
        destruct Hs as [Hs1 Hs2]. rewrite Hs2 in H. cbn [nth_error] in H.
        destruct (IH (S idx) conv' w' i c H)
          as (m & w1 & pre & reqs & Hn & Hpre & Hlen & Hev & Hrq).
        rewrite Nat.add_succ_comm in Hev, Hrq.
        exists m, w1, (evs ++ pre), (conv :: reqs).
        rewrite Hs1, Hs2, Hev, Hrq, no_terminal_app, Sh, Hpre, <- app_assoc.
        cbn [length app]. rewrite Hlen. repeat split; auto. lia.
      * assert (Hs : requests (rounds round max_tool_rounds (S n) idx conv w) = [conv])
          by (simpl; rewrite Er; auto).
        rewrite Hs in H. destruct i; discriminate.
Qed.

Section OpenAIToolLoop.
Import openai_agent.
Context {X : Collaborators}.
Variable client : Provider.
Variable max_tool_rounds : Z.

Lemma execute_tool_calls_app (tcs1 tcs2 : list ToolCallEntry) (chat : list ChatMessage)
      (w : World) (evs0 : list AgentEvent) (chat0 : list ChatMessage) (w0 : World) :
  execute_tool_calls tcs1 chat w = (evs0, Ret chat0, w0) ->
  execute_tool_calls (tcs1 ++ tcs2) chat w
  = let '(evs, o, w') := execute_tool_calls tcs2 chat0 w0 in (evs0 ++ evs, o, w').
Proof.
  revert chat w evs0. induction tcs1 as [|tc tcs1 IH]; intros chat w evs0; simpl.
  - intros H. inversion H. subst. destruct (execute_tool_calls tcs2 chat0 w0) as [[evs o] w'].
    reflexivity.
  - destruct (tools.run_tool _ _ w) as [[result|e] w1]; [|discriminate].
    match goal with |- context [execute_tool_calls tcs1 ?c ?v] =>
      specialize (IH c v);
      destruct (execute_tool_calls tcs1 c v) as [[evs1 o1] w2] end.
    intros H. inversion H. subst. rewrite (IH _ eq_refl).
    destruct (execute_tool_calls tcs2 chat0 w0) as [[evs o] w']. reflexivity.
Qed.

Lemma resume_app (n idx : nat) (tcs1 tcs2 : list ToolCallEntry) (chat : list ChatMessage)
      (w : World) (evs0 : list AgentEvent) (chat0 : list ChatMessage) (w0 : World) :
  execute_tool_calls tcs1 chat w = (evs0, Ret chat0, w0) ->
  events (resume client max_tool_rounds n idx (tcs1 ++ tcs2) chat w)
  = evs0 ++ events (resume client max_tool_rounds n idx tcs2 chat0 w0)
  /\ requests (resume client max_tool_rounds n idx (tcs1 ++ tcs2) chat w)
     = requests (resume client max_tool_rounds n idx tcs2 chat0 w0).
Proof.
  intros H. unfold resume. rewrite (execute_tool_calls_app _ tcs2 _ _ _ _ _ H).
  destruct (execute_tool_calls tcs2 chat0 w0) as [[evs [chat'|e]] w']; simpl;
    rewrite <- app_assoc; auto.
Qed.

Lemma resume_cons (n idx : nat) (tc : ToolCallEntry) (tcs : list ToolCallEntry)
      (chat : list ChatMessage) (w : World) :
  resume client max_tool_rounds n idx (tc :: tcs) chat w
  = match tools.run_tool (tc_name tc) (parse_arguments (tc_arguments tc)) w with
    | (Ret result, w1) =>
        let r := resume client max_tool_rounds n idx tcs
                   (chat ++ [ToolMessage (tc_id tc) (json_dumps result)]) w1 in
        {| events := tool_call (tc_name tc) (tc_id tc) (parse_arguments (tc_arguments tc))
                     :: tool_result (tc_name tc) (tc_id tc) result :: events r;
           requests := requests r; escaped := escaped r; final_world := final_world r |}
    | (Raise e, w1) =>
        {| events := [tool_call (tc_name tc) (tc_id tc) (parse_arguments (tc_arguments tc));
                      error (exn_message e)];
           requests := []; escaped := None; final_world := w1 |}
    end.
Proof.
  unfold resume. simpl.
  destruct (tools.run_tool _ _ w) as [[result|e] w1]; [|reflexivity].
  destruct (execute_tool_calls tcs _ w1) as [[evs [chat'|e]] w']; reflexivity.
Qed.

(** A round whose response ends normally and finalizes a call is the
    increments of the response followed by the tool loop and what comes
    after it. *)
Lemma round_resumes (m idx : nat) (chat : list ChatMessage) (w : World) (s : ChunkStream) :
  client idx (Plain "system" SYSTEM_INSTRUCTIONS :: chat) = Ret s ->
  stream_failure s = None ->
  finalized s <> [] ->
  events (rounds (round client) max_tool_rounds (S m) idx chat w)
  = fst (fst (consume s initial_message))
      ++ events (resume client max_tool_rounds m idx (finalized s)
                   (chat ++ [Assistant (snd (fst (consume s initial_message)))]) w)
  /\ requests (rounds (round client) max_tool_rounds (S m) idx chat w)
     = chat :: requests (resume client max_tool_rounds m idx (finalized s)
                           (chat ++ [Assistant (snd (fst (consume s initial_message)))]) w).
Proof.
  intros Hc Hs Hne. simpl. unfold round, resume, finalized in *. rewrite Hc.
  pose proof (consume_failure s initial_message) as Hf. rewrite Hs in Hf.
  destruct (consume s initial_message) as [[evs am] failure].
  cbn [fst snd] in *. subst failure.
  destruct (am_tool_calls am) as [|tc tcs] eqn:Et; [congruence|].
  destruct (execute_tool_calls (tc :: tcs) _ w) as [[evs2 [chat'|e]] w']; simpl;
    rewrite <- ?app_assoc; auto.
Qed.

(** The run of [stream] at a tool call of a round that was performed. *)
Lemma run_at_call (messages : list Message) (w : World) (i : nat) (c : list ChatMessage)
      (s : ChunkStream) (tcs1 tcs2 : list ToolCallEntry) :
  nth_error (requests (stream client messages max_tool_rounds w)) i = Some c ->
  client i (Plain "system" SYSTEM_INSTRUCTIONS :: c) = Ret s ->
  stream_failure s = None ->
  finalized s = tcs1 ++ tcs2 ->
  tcs2 <> [] ->
  exists m w_i pre reqs,
    Z.to_nat max_tool_rounds = i + S m
    /\ no_terminal pre = true
    /\ length reqs = i
    /\ forall evs0 chat0 w0,
        execute_tool_calls tcs1 (c ++ [Assistant (snd (fst (consume s initial_message)))]) w_i
        = (evs0, Ret chat0, w0) ->
        events (stream client messages max_tool_rounds w)
        = pre ++ fst (fst (consume s initial_message)) ++ evs0
            ++ events (resume client max_tool_rounds m i tcs2 chat0 w0)
        /\ requests (stream client messages max_tool_rounds w)
           = reqs ++ c :: requests (resume client max_tool_rounds m i tcs2 chat0 w0).
Proof.
  unfold stream. destruct (copy_messages messages) as [chat|e].
  2:{ simpl. destruct i; discriminate. }
  unfold agent_loop. intros Hreq Hc Hs Hfin Hne.
  destruct (rounds_at (round client) max_tool_rounds (round_shape client) _ _ _ _ _ _ Hreq)
    as (m & w_i & pre & reqs & Hn & Hpre & Hlen & Hev & Hrq).
  cbn [Nat.add] in Hev, Hrq.
  assert (Hne' : finalized s <> []).
  { rewrite Hfin. destruct tcs1; [exact Hne | discriminate]. }
  destruct (round_resumes m i c w_i s Hc Hs Hne') as [Rev Rrq].
  exists m, w_i, pre, reqs. repeat split; auto.
  - rewrite Hev, Rev, Hfin. destruct (resume_app m i tcs1 tcs2 _ _ _ _ _ H) as [-> _].
    rewrite <- ?app_assoc. reflexivity.
  - rewrite Hrq, Rrq, Hfin. destruct (resume_app m i tcs1 tcs2 _ _ _ _ _ H) as [_ ->].
    reflexivity.
Qed.

End OpenAIToolLoop.

Section GeminiToolLoop.
Import gemini_agent.
Context {X : Collaborators}.
Variable model : Provider.
Variable max_tool_rounds : Z.

Lemma execute_pending_calls_app (calls1 calls2 : list PendingCall) (chat : list Content)
      (w : World) (evs0 : list AgentEvent) (chat0 : list Content) (w0 : World) :
  execute_pending_calls calls1 chat w = (evs0, Ret chat0, w0) ->
  execute_pending_calls (calls1 ++ calls2) chat w
  = let '(evs, o, w') := execute_pending_calls calls2 chat0 w0 in (evs0 ++ evs, o, w').
Proof.
  revert chat w evs0. induction calls1 as [|pc calls1 IH]; intros chat w evs0; simpl.
  - intros H. inversion H. subst.
    destruct (execute_pending_calls calls2 chat0 w0) as [[evs o] w']. reflexivity.
  - destruct (tools.run_tool _ _ w) as [[result|e] w1]; [|discriminate].
    match goal with |- context [execute_pending_calls calls1 ?c ?v] =>
      specialize (IH c v);
      destruct (execute_pending_calls calls1 c v) as [[evs1 o1] w2] end.
    intros H. inversion H. subst. rewrite (IH _ eq_refl).
    destruct (execute_pending_calls calls2 chat0 w0) as [[evs o] w']. reflexivity.
Qed.

Lemma gemini_resume_app (n idx : nat) (calls1 calls2 : list PendingCall)
      (chat : list Content) (w : World) (evs0 : list AgentEvent) (chat0 : list Content)
      (w0 : World) :
  execute_pending_calls calls1 chat w = (evs0, Ret chat0, w0) ->
  events (resume model max_tool_rounds n idx (calls1 ++ calls2) chat w)
  = evs0 ++ events (resume model max_tool_rounds n idx calls2 chat0 w0)
  /\ requests (resume model max_tool_rounds n idx (calls1 ++ calls2) chat w)
     = requests (resume model max_tool_rounds n idx calls2 chat0 w0).
Proof.
  intros H. unfold resume. rewrite (execute_pending_calls_app _ calls2 _ _ _ _ _ H).
  destruct (execute_pending_calls calls2 chat0 w0) as [[evs [chat'|e]] w']; simpl;
    rewrite <- app_assoc; auto.
Qed.

Lemma gemini_resume_cons (n idx : nat) (pc : PendingCall) (calls : list PendingCall)
      (chat : list Content) (w : World) :
  resume model max_tool_rounds n idx (pc :: calls) chat w
  = match tools.run_tool (pc_name pc) (JObj (pc_args pc)) w with
    | (Ret result, w1) =>
        let r := resume model max_tool_rounds n idx calls
                   (chat ++ [{| role := "tool";
                                parts := [FunctionResponse (pc_name pc) result] |}]) w1 in
        {| events := tool_call (pc_name pc) (pc_id pc) (JObj (pc_args pc))
                     :: tool_result (pc_name pc) (pc_id pc) result :: events r;
           requests := requests r; escaped := escaped r; final_world := final_world r |}
    | (Raise e, w1) =>
        {| events := [tool_call (pc_name pc) (pc_id pc) (JObj (pc_args pc));
                      error (exn_message e)];
           requests := []; escaped := None; final_world := w1 |}
    end.
Proof.
  unfold resume. simpl.
  destruct (tools.run_tool _ _ w) as [[result|e] w1]; [|reflexivity].
  destruct (execute_pending_calls calls _ w1) as [[evs [chat'|e]] w']; reflexivity.
Qed.

Lemma gemini_round_resumes (m idx : nat) (chat : list Content) (w : World)
      (s : ChunkStream) :
  model idx chat = Ret s ->
  stream_failure s = None ->
  finalized idx s <> [] ->
  events (rounds (round model) max_tool_rounds (S m) idx chat w)
  = fst (fst (consume idx s ([], "")))
      ++ events (resume model max_tool_rounds m idx (finalized idx s)
                   (with_model_text idx s chat) w)
  /\ requests (rounds (round model) max_tool_rounds (S m) idx chat w)
     = chat :: requests (resume model max_tool_rounds m idx (finalized idx s)
                           (with_model_text idx s chat) w).
Proof.
  intros Hc Hs Hne. simpl.
  unfold round, resume, with_model_text, finalized_text, finalized in *. rewrite Hc.
  pose proof (gemini_consume_failure idx s ([], "")) as Hf. rewrite Hs in Hf.
  destruct (consume idx s ([], "")) as [[evs [pcs txt]] failure].
  cbn [fst snd] in *. subst failure.
  destruct pcs as [|pc pcs]; [congruence|].
  destruct (execute_pending_calls (pc :: pcs) _ w) as [[evs2 [chat'|e]] w']; simpl;
    rewrite <- ?app_assoc; auto.
Qed.

Lemma gemini_run_at_call (messages : list Message) (w : World) (i : nat)
      (c : list Content) (s : ChunkStream) (calls1 calls2 : list PendingCall) :
  nth_error (requests (stream model messages max_tool_rounds w)) i = Some c ->
  model i c = Ret s ->
  stream_failure s = None ->
  finalized i s = calls1 ++ calls2 ->
  calls2 <> [] ->
  exists m w_i pre reqs,
    Z.to_nat max_tool_rounds = i + S m
    /\ no_terminal pre = true
    /\ length reqs = i
    /\ forall evs0 chat0 w0,
        execute_pending_calls calls1 (with_model_text i s c) w_i = (evs0, Ret chat0, w0) ->
        events (stream model messages max_tool_rounds w)
        = pre ++ fst (fst (consume i s ([], ""))) ++ evs0
            ++ events (resume model max_tool_rounds m i calls2 chat0 w0)
        /\ requests (stream model messages max_tool_rounds w)
           = reqs ++ c :: requests (resume model max_tool_rounds m i calls2 chat0 w0).
Proof.
  unfold stream, agent_loop. intros Hreq Hc Hs Hfin Hne.
  destruct (rounds_at (round model) max_tool_rounds (gemini_round_shape model)
              _ _ _ _ _ _ Hreq)
    as (m & w_i & pre & reqs & Hn & Hpre & Hlen & Hev & Hrq).
  cbn [Nat.add] in Hev, Hrq.
  assert (Hne' : finalized i s <> []).
  { rewrite Hfin. destruct calls1; [exact Hne | discriminate]. }
  destruct (gemini_round_resumes m i c w_i s Hc Hs Hne') as [Rev Rrq].
  exists m, w_i, pre, reqs. repeat split; auto.
  - rewrite Hev, Rev, Hfin. destruct (gemini_resume_app m i calls1 calls2 _ _ _ _ _ H) as [-> _].
    rewrite <- ?app_assoc. reflexivity.
  - rewrite Hrq, Rrq, Hfin. destruct (gemini_resume_app m i calls1 calls2 _ _ _ _ _ H) as [_ ->].
    reflexivity.
Qed.

End GeminiToolLoop.

(** C5: for a tool name that is not in the registry, [run_tool] returns the
    UNKNOWN_TOOL payload without raising and without touching the world, and
    a run of either adapter carries on.  When a round that was performed
    reads its response to the end and the response asks for such a tool
    (after calls that returned), the run is: what came before, the
    [tool_call] and the [tool_result] with that payload, then the rest of
    the run, that is the remaining calls of the round on the conversation
    extended by the result and on the same world, and the rounds that are
    left of the budget. *)
Theorem unknown_tool_is_a_normal_result :
  forall (X : Collaborators) (name : string) (w : World),
    dict_get name tools.tool_map = None ->
    (forall args,
        tools.run_tool name args w
        = (Ret (JObj [("error", JStr "UNKNOWN_TOOL"); ("tool", JStr name)]), w))
    /\ (forall (client : openai_agent.Provider) (messages : list Message)
               (max_tool_rounds : Z) (i : nat) (c : list openai_agent.ChatMessage)
               (s : openai_agent.ChunkStream) tcs1 tc tcs2,
           nth_error (requests (openai_agent.stream client messages max_tool_rounds w)) i
           = Some c ->
           client i (openai_agent.Plain "system" SYSTEM_INSTRUCTIONS :: c) = Ret s ->
           openai_agent.stream_failure s = None ->
           openai_agent.finalized s = tcs1 ++ tc :: tcs2 ->
           openai_agent.tc_name tc = name ->
           exists m w_i pre reqs,
             Z.to_nat max_tool_rounds = i + S m
             /\ no_terminal pre = true
             /\ length reqs = i
             /\ forall evs0 chat0 w0,
                 openai_agent.execute_tool_calls tcs1
                   (c ++ [openai_agent.Assistant
                            (snd (fst (openai_agent.consume s openai_agent.initial_message)))])
                   w_i
                 = (evs0, Ret chat0, w0) ->
                 events (openai_agent.stream client messages max_tool_rounds w)
                 = pre ++ fst (fst (openai_agent.consume s openai_agent.initial_message))
                     ++ evs0
                     ++ tool_call name (openai_agent.tc_id tc)
                          (openai_agent.parse_arguments (openai_agent.tc_arguments tc))
                     :: tool_result name (openai_agent.tc_id tc) (tools.unknown_tool name)
                     :: events (openai_agent.resume client max_tool_rounds m i tcs2
                                  (chat0 ++ [openai_agent.ToolMessage (openai_agent.tc_id tc)
                                               (json_dumps (tools.unknown_tool name))])
                                  w0)
                 /\ requests (openai_agent.stream client messages max_tool_rounds w)
                    = reqs ++ c
                      :: requests (openai_agent.resume client max_tool_rounds m i tcs2
                                     (chat0 ++ [openai_agent.ToolMessage (openai_agent.tc_id tc)
                                                  (json_dumps (tools.unknown_tool name))])
                                     w0))
    /\ (forall (model : gemini_agent.Provider) (messages : list Message)
               (max_tool_rounds : Z) (i : nat) (c : list gemini_agent.Content)
               (s : gemini_agent.ChunkStream) calls1 pc calls2,
           nth_error (requests (gemini_agent.stream model messages max_tool_rounds w)) i
           = Some c ->
           model i c = Ret s ->
           gemini_agent.stream_failure s = None ->
           gemini_agent.finalized i s = calls1 ++ pc :: calls2 ->
           gemini_agent.pc_name pc = name ->
           exists m w_i pre reqs,
             Z.to_nat max_tool_rounds = i + S m
             /\ no_terminal pre = true
             /\ length reqs = i
             /\ forall evs0 chat0 w0,
                 gemini_agent.execute_pending_calls calls1
                   (gemini_agent.with_model_text i s c) w_i
                 = (evs0, Ret chat0, w0) ->
                 events (gemini_agent.stream model messages max_tool_rounds w)
                 = pre ++ fst (fst (gemini_agent.consume i s ([], "")))
                     ++ evs0
                     ++ tool_call name (gemini_agent.pc_id pc) (JObj (gemini_agent.pc_args pc))
                     :: tool_result name (gemini_agent.pc_id pc) (tools.unknown_tool name)
                     :: events (gemini_agent.resume model max_tool_rounds m i calls2
                                  (chat0 ++ [{| gemini_agent.role := "tool";
                                                gemini_agent.parts :=
                                                  [gemini_agent.FunctionResponse name
                                                     (tools.unknown_tool name)] |}])
                                  w0)
                 /\ requests (gemini_agent.stream model messages max_tool_rounds w)
                    = reqs ++ c
                      :: requests (gemini_agent.resume model max_tool_rounds m i calls2
                                     (chat0 ++ [{| gemini_agent.role := "tool";
                                                   gemini_agent.parts :=
                                                     [gemini_agent.FunctionResponse name
                                                        (tools.unknown_tool name)] |}])
                                     w0)).
Proof.
  intros X name w Hun. split; [|split].
  - intros args. apply run_tool_unknown, Hun.
  - intros client messages max_tool_rounds i c s tcs1 tc tcs2 Hreq Hc Hs Hfin Hn.
    destruct (run_at_call client max_tool_rounds messages w i c s tcs1 (tc :: tcs2)
                Hreq Hc Hs Hfin ltac:(discriminate))
      as (m & w_i & pre & reqs & Hm & Hpre & Hlen & H).
    exists m, w_i, pre, reqs. repeat split; auto;
      destruct (H _ _ _ H0) as [Hev Hrq]; [rewrite Hev | rewrite Hrq];
      rewrite resume_cons, Hn, (run_tool_unknown name _ w0 Hun); reflexivity.
  - intros model messages max_tool_rounds i c s calls1 pc calls2 Hreq Hc Hs Hfin Hn.
    destruct (gemini_run_at_call model max_tool_rounds messages w i c s calls1 (pc :: calls2)
                Hreq Hc Hs Hfin ltac:(discriminate))
      as (m & w_i & pre & reqs & Hm & Hpre & Hlen & H).
    exists m, w_i, pre, reqs. repeat split; auto;
      destruct (H _ _ _ H0) as [Hev Hrq]; [rewrite Hev | rewrite Hrq];
      rewrite gemini_resume_cons, Hn, (run_tool_unknown name _ w0 Hun); reflexivity.
Qed.

Lemma unknown_tool_is_a_normal_result_witness :
  dict_get "non_existent_tool" tools.tool_map = None
  /\ nth_error (requests (openai_agent.stream (X := scenario.collaborators) scenario.confused
                            scenario.question 10 scenario.world)) 0
     = Some [openai_agent.Plain "user" "Which stores are open?"]
  /\ openai_agent.stream_failure (scenario.streamed_call "call_1" "non_existent_tool" "{}")
     = None
  /\ openai_agent.finalized (scenario.streamed_call "call_1" "non_existent_tool" "{}")
     = [] ++ {| openai_agent.tc_id := "call_1"; openai_agent.tc_name := "non_existent_tool";
                openai_agent.tc_arguments := "{}" |} :: []
  /\ exists m w_i pre reqs,
      Z.to_nat 10 = 0 + S m
      /\ no_terminal pre = true
      /\ length reqs = 0
      /\ forall evs0 chat0 w0,
          openai_agent.execute_tool_calls (X := scenario.collaborators) []
            ([openai_agent.Plain "user" "Which stores are open?"]
               ++ [openai_agent.Assistant
                     (snd (fst (openai_agent.consume
                                  (scenario.streamed_call "call_1" "non_existent_tool" "{}")
                                  openai_agent.initial_message)))])
            w_i
          = (evs0, Ret chat0, w0) ->
          events (openai_agent.stream (X := scenario.collaborators) scenario.confused
                    scenario.question 10 scenario.world)
          = pre ++ [tool_args_delta "call_1" "{}"]
              ++ evs0
              ++ tool_call "non_existent_tool" "call_1" (JObj [])
              :: tool_result "non_existent_tool" "call_1"
                   (tools.unknown_tool "non_existent_tool")
              :: events (openai_agent.resume (X := scenario.collaborators) scenario.confused
                           10%Z m 0 []
                           (chat0 ++ [openai_agent.ToolMessage "call_1" "{...}"]) w0)
          /\ requests (openai_agent.stream (X := scenario.collaborators) scenario.confused
                         scenario.question 10 scenario.world)
             = reqs ++ [openai_agent.Plain "user" "Which stores are open?"]
               :: requests (openai_agent.resume (X := scenario.collaborators)
                              scenario.confused 10%Z m 0 []
                              (chat0 ++ [openai_agent.ToolMessage "call_1" "{...}"]) w0).
Proof.
  split; [reflexivity|]. split; [reflexivity|]. split; [reflexivity|].
  split; [reflexivity|].
  apply (proj1 (proj2 (unknown_tool_is_a_normal_result scenario.collaborators
                         "non_existent_tool" scenario.world eq_refl))
           scenario.confused scenario.question 10%Z 0
           [openai_agent.Plain "user" "Which stores are open?"]
           (scenario.streamed_call "call_1" "non_existent_tool" "{}")
           []
           {| openai_agent.tc_id := "call_1"; openai_agent.tc_name := "non_existent_tool";
              openai_agent.tc_arguments := "{}" |}
           [] eq_refl eq_refl eq_refl eq_refl eq_refl).
Defined.

(** A whole run in which the model asks for an unregistered tool: the
    result is reported and the next round takes place. *)
Example unknown_tool_run :
  events (openai_agent.stream (X := scenario.collaborators) scenario.confused
            scenario.question 10 scenario.world)
  = [tool_args_delta "call_1" "{}";
     tool_call "non_existent_tool" "call_1" (JObj []);
     tool_result "non_existent_tool" "call_1"
       (JObj [("error", JStr "UNKNOWN_TOOL"); ("tool", JStr "non_existent_tool")]);
     text_delta "I cannot do that.";
     done].
Proof. reflexivity. Qed.



(** A whole run with a broken argument text: the call goes through with
    empty arguments and the tool reports the missing argument. *)
Example malformed_arguments_run :
  events (openai_agent.stream (X := scenario.collaborators) scenario.garbled
            scenario.question 10 scenario.world)
  = [tool_args_delta "call_1" "{bad";
     tool_call "get_medication_by_name" "call_1" (JObj []);
     tool_result "get_medication_by_name" "call_1"
       (tools.missing_required_argument "get_medication_by_name"
          "get_medication_by_name() missing 1 required positional argument: 'name'");
     text_delta "Which medication?";
     done].
Proof. reflexivity. Qed.

(** ** Call identifiers across the events of a round *)

Section OpenAIIdentifiers.
Import openai_agent.

Lemma on_tool_call_deltas_app (a b : list ToolCallDelta) (tcs : list ToolCallEntry) :
  on_tool_call_deltas (a ++ b) tcs
  = (fst (on_tool_call_deltas a tcs)
       ++ fst (on_tool_call_deltas b (snd (on_tool_call_deltas a tcs))),
     snd (on_tool_call_deltas b (snd (on_tool_call_deltas a tcs)))).
Proof.
  revert tcs. induction a as [|d a IH]; intros tcs; simpl.
  - destruct (on_tool_call_deltas b tcs); reflexivity.
  - destruct (on_tool_call_delta d tcs) as [evs1 tcs1]. rewrite IH.
    destruct (on_tool_call_deltas a tcs1) as [evs2 tcs2]. simpl.
    rewrite app_assoc. reflexivity.
Qed.

(** The accumulator and the fragment identifiers of a round only depend
    on the tool-call increments. *)
Lemma consume_flat (s : ChunkStream) (am : AssistantMessage) :
  am_tool_calls (snd (fst (consume s am)))
  = snd (on_tool_call_deltas (all_deltas s) (am_tool_calls am))
  /\ args_delta_ids (fst (fst (consume s am)))
     = args_delta_ids (fst (on_tool_call_deltas (all_deltas s) (am_tool_calls am))).
Proof.
  revert am. induction s as [|c rest IH|e]; intros am; simpl; auto.
  rewrite on_tool_call_deltas_app. unfold on_chunk, read_deltas.
  destruct (choices c) as [|delta _]; simpl.
  - specialize (IH am). destruct (consume rest am) as [[evs2 am2] failure]. exact IH.
  - destruct (on_tool_call_deltas (tool_calls delta) (am_tool_calls am)) as [evs1 tcs1].
    destruct (truthy (content delta)); cbn iota;
      match goal with |- context [consume rest ?a] =>
        specialize (IH a); destruct (consume rest a) as [[evs2 am2] failure] end;
      simpl in *; destruct IH as [-> I2];
      rewrite !args_delta_ids_app, I2; auto.
Qed.

Lemma id_steps_app (c : string) (seen : bool) (a b : list ToolCallDelta) :
  id_steps c seen (a ++ b)
  = (fst (id_steps c seen a) && fst (id_steps c (snd (id_steps c seen a)) b),
     snd (id_steps c (snd (id_steps c seen a)) b)).
Proof.
  revert seen. induction a as [|d a IH]; intros seen; simpl.
  - destruct (id_steps c seen b); reflexivity.
  - destruct (id_step c seen d) as [ok1 seen1]. rewrite IH.
    destruct (id_steps c seen1 a) as [ok2 seen2]. simpl.
    rewrite andb_assoc. reflexivity.
Qed.

Lemma id_first_flat (c : string) (seen : bool) (s : ChunkStream) :
  id_first c seen s = fst (id_steps c seen (all_deltas s)).
Proof.
  revert seen. induction s as [|ch rest IH|e]; intros seen; simpl; auto.
  rewrite id_steps_app. destruct (id_steps c seen (read_deltas ch)) as [ok seen'].
  simpl. rewrite IH. reflexivity.
Qed.

Lemma has_fragment_flat (s : ChunkStream) :
  has_fragment s = existsb carries_arguments (all_deltas s).
Proof.
  induction s as [|ch rest IH|e]; simpl; auto.
  rewrite existsb_app, IH. reflexivity.
Qed.

Lemma on_tool_call_deltas_length (ds : list ToolCallDelta) (tcs : list ToolCallEntry) :
  length tcs <= length (snd (on_tool_call_deltas ds tcs)).
Proof.
  revert tcs. induction ds as [|d ds IH]; intros tcs; simpl; [lia|].
  pose proof (on_tool_call_delta_length d tcs) as Hl.
  destruct (on_tool_call_delta d tcs) as [evs1 tcs1].
  specialize (IH tcs1). destruct (on_tool_call_deltas ds tcs1) as [evs2 tcs2].
  simpl in *. destruct (tcd_index d); lia.
Qed.

Lemma disciplined_delta (c : string) (d : ToolCallDelta) (tcs : list ToolCallEntry)
      (seen : bool) :
  agrees c seen tcs ->
  length (snd (on_tool_call_delta d tcs)) <= 1 ->
  fst (id_step c seen d) = true ->
  agrees c (snd (id_step c seen d)) (snd (on_tool_call_delta d tcs))
  /\ Forall (eq c) (args_delta_ids (fst (on_tool_call_delta d tcs)))
  /\ (carries_arguments d = true ->
      args_delta_ids (fst (on_tool_call_delta d tcs)) <> []
      /\ snd (id_step c seen d) = true)
  /\ (seen = true -> snd (id_step c seen d) = true).
Proof.
  intros Hag Hlen Hok.
  rewrite on_tool_call_delta_length in Hlen.
  unfold id_step, carries_arguments, on_tool_call_delta in *.
  destruct (tcd_index d) as [idx|]; simpl in *.
  2:{ repeat split; auto; discriminate. }
  assert (idx = 0) as -> by lia.
  apply andb_true_iff in Hok as [Hid Harg].
  destruct tcs as [|tc [|tc2 tcs]]; simpl in Hlen; try lia; clear Hlen.
  - (* the first increment of the call *)
    simpl in Hag. subst seen. simpl in *.
    destruct (truthy (tcd_id d)) eqn:Tid; simpl in *.
    + apply String.eqb_eq in Hid.
      destruct (tcd_function d) as [f|]; simpl.
      * destruct (truthy (fd_name f)), (truthy (fd_arguments f)); simpl;
          repeat split; auto; try discriminate; repeat constructor; auto.
      * repeat split; auto; discriminate.
    + destruct (tcd_function d) as [f|]; simpl.
      * destruct (truthy (fd_name f)), (truthy (fd_arguments f)); simpl in *;
          repeat split; auto; try discriminate.
      * repeat split; auto; discriminate.
  - (* a later increment *)
    simpl in Hag.
    destruct (truthy (tcd_id d)) eqn:Tid; simpl in *.
    + apply String.eqb_eq in Hid. rewrite orb_true_r in *.
      destruct (tcd_function d) as [f|]; simpl.
      * destruct (truthy (fd_name f)), (truthy (fd_arguments f)); simpl;
          repeat split; auto; try discriminate; repeat constructor; auto.
      * repeat split; auto; discriminate.
    + rewrite orb_false_r in *.
      destruct (tcd_function d) as [f|]; simpl.
      * destruct (truthy (fd_name f)), (truthy (fd_arguments f)); simpl in *;
          repeat split; auto; try discriminate; repeat constructor;
          symmetry; auto.
      * repeat split; auto; discriminate.
Qed.

Lemma disciplined_deltas (c : string) (ds : list ToolCallDelta) :
  forall (tcs : list ToolCallEntry) (seen : bool),
    agrees c seen tcs ->
    length (snd (on_tool_call_deltas ds tcs)) <= 1 ->
    fst (id_steps c seen ds) = true ->
    agrees c (snd (id_steps c seen ds)) (snd (on_tool_call_deltas ds tcs))
    /\ Forall (eq c) (args_delta_ids (fst (on_tool_call_deltas ds tcs)))
    /\ (existsb carries_arguments ds = true ->
        args_delta_ids (fst (on_tool_call_deltas ds tcs)) <> []
        /\ snd (id_steps c seen ds) = true)
    /\ (seen = true -> snd (id_steps c seen ds) = true).
Proof.
  induction ds as [|d ds IH]; intros tcs seen Hag Hlen Hok; simpl in *.
  - repeat split; auto; discriminate.
  - pose proof (disciplined_delta c d tcs seen Hag) as Hd.
    destruct (on_tool_call_delta d tcs) as [evs1 tcs1].
    pose proof (on_tool_call_deltas_length ds tcs1) as Hmono.
    destruct (id_step c seen d) as [ok1 seen1].
    specialize (IH tcs1 seen1).
    destruct (on_tool_call_deltas ds tcs1) as [evs2 tcs2].
    destruct (id_steps c seen1 ds) as [ok2 seen2].
    simpl in *. apply andb_true_iff in Hok as [-> ->].
    destruct (Hd ltac:(lia) eq_refl) as (A1 & F1 & C1 & S1).
    destruct (IH A1 Hlen eq_refl) as (A2 & F2 & C2 & S2).
    rewrite args_delta_ids_app. repeat split; auto.
    + apply Forall_app; auto.
    + apply orb_true_iff in H as [H|H].
      * destruct (C1 H) as [N _]. intros E. apply app_eq_nil in E as [E _]. auto.
      * destruct (C2 H) as [N _]. intros E. apply app_eq_nil in E as [_ E]. auto.
    + apply orb_true_iff in H as [H|H].
      * destruct (C1 H) as [_ T]. auto.
      * destruct (C2 H) as [_ T]. auto.
Qed.

(** The events of the response to a single disciplined call. *)
Lemma one_call_response_events (s : ChunkStream) :
  one_call_response s ->
  exists tc,
    finalized s = [tc]
    /\ forallb (is_delta_of (tc_id tc)) (fst (fst (consume s initial_message))) = true
    /\ existsb is_tool_args_delta (fst (fst (consume s initial_message))) = true.
Proof.
  intros (Hlen & Hfrag & c & Hid).
  unfold finalized in *.
  destruct (consume_flat s initial_message) as [Htc Hids].
  rewrite id_first_flat in Hid. rewrite has_fragment_flat in Hfrag.
  rewrite Htc in Hlen |- *.
  destruct (disciplined_deltas c (all_deltas s) (am_tool_calls initial_message) false
              eq_refl ltac:(lia) Hid) as (Hag & Hall & Hsome & _).
  destruct (Hsome Hfrag) as [Hne Hseen].
  rewrite <- Hids in Hall, Hne. rewrite Hseen in Hag.
  destruct (snd (on_tool_call_deltas (all_deltas s) (am_tool_calls initial_message)))
    as [|tc [|tc2 tcs]]; simpl in Hlen; try discriminate.
  exists tc. simpl in Hag. rewrite (Hag eq_refl).
  repeat split.
  - apply increments_of_one_call; [apply consume_increments | exact Hall].
  - apply some_args_delta, Hne.
Qed.

End OpenAIIdentifiers.

Section OneCallRounds.
Context {X : Collaborators}.

Lemma execute_single_tool_call (tc : openai_agent.ToolCallEntry)
      (chat chat' : list openai_agent.ChatMessage) (w w' : World) (evs : list AgentEvent) :
  openai_agent.execute_tool_calls [tc] chat w = (evs, Ret chat', w') ->
  exists arguments result,
    evs = [tool_call (openai_agent.tc_name tc) (openai_agent.tc_id tc) arguments;
           tool_result (openai_agent.tc_name tc) (openai_agent.tc_id tc) result].
Proof.
  simpl. destruct (tools.run_tool _ _ w) as [[result|e] w1]; intros H; inversion H.
  eauto.
Qed.

Lemma execute_single_pending_call (pc : gemini_agent.PendingCall)
      (chat chat' : list gemini_agent.Content) (w w' : World) (evs : list AgentEvent) :
  gemini_agent.execute_pending_calls [pc] chat w = (evs, Ret chat', w') ->
  exists arguments result,
    evs = [tool_call (gemini_agent.pc_name pc) (gemini_agent.pc_id pc) arguments;
           tool_result (gemini_agent.pc_name pc) (gemini_agent.pc_id pc) result].
Proof.
  simpl. destruct (tools.run_tool _ _ w) as [[result|e] w1]; intros H; inversion H.
  eauto.
Qed.

Lemma one_call_round_events (client : openai_agent.Provider) (round_idx : nat)
      (chat : list openai_agent.ChatMessage) (w : World)
      (chat' : list openai_agent.ChatMessage) (w' : World) :
  openai_agent.tool_round client openai_agent.one_call_response round_idx chat w chat' w' ->
  exists evs,
    openai_agent.round client round_idx chat w = (evs, NextRound chat' w')
    /\ tool_round_events evs.
Proof.
  intros H.
  destruct (round_when_tool_round client _ _ _ _ _ _ H)
    as (s & evs2 & HP & _ & _ & _ & Hx & Hr).
  destruct (one_call_response_events s HP) as (tc & Hfin & Hd & He).
  rewrite Hfin in Hx.
  destruct (execute_single_tool_call _ _ _ _ _ _ Hx) as (arguments & result & ->).
  eexists. split; [exact Hr|]. constructor; assumption.
Qed.

Lemma gemini_one_call_round_events (model : gemini_agent.Provider) (round_idx : nat)
      (chat : list gemini_agent.Content) (w : World)
      (chat' : list gemini_agent.Content) (w' : World) :
  gemini_agent.tool_round model gemini_agent.one_call_response round_idx chat w chat' w' ->
  exists evs,
    gemini_agent.round model round_idx chat w = (evs, NextRound chat' w')
    /\ tool_round_events evs.
Proof.
  intros H.
  destruct (gemini_round_when_tool_round model _ _ _ _ _ _ H)
    as (s & evs2 & HP & _ & _ & _ & Hx & Hr).
  unfold gemini_agent.one_call_response in HP.
  destruct (consume_pending round_idx s ([], "")) as (new & Hn & Hi).
  pose proof (gemini_consume_increments round_idx s ([], "")) as Hinc.
  unfold gemini_agent.finalized in *. rewrite Hn in *. simpl in HP, Hx.
  destruct new as [|pc [|pc2 new]]; try discriminate.
  destruct (execute_single_pending_call _ _ _ _ _ _ Hx) as (arguments & result & ->).
  eexists. split; [exact Hr|]. constructor.
  - apply increments_of_one_call; [exact Hinc|]. rewrite Hi. repeat constructor.
  - apply some_args_delta. rewrite Hi. discriminate.
Qed.

End OneCallRounds.

(** C2 (amended): when each of the first [k] rounds ([k] below the budget)
    requests exactly one tool call and completes, and round [k] is
    tool-free, the events are [k] blocks followed by text increments and one
    [done]; each block holds at least one [tool_args_delta], then the
    [tool_call], then the [tool_result], with one call identifier throughout.
    For the OpenAI adapter this needs the provider to send at least one
    non-empty argument fragment for the call and to name the call's
    identifier, unchanged, no later than the first fragment.  For the
    Gemini adapter a round completes only when the [text] accessor raises
    on no chunk of its response. *)
Theorem one_tool_call_per_round :
  forall (X : Collaborators) (messages : list Message) (max_tool_rounds : Z) (w : World)
         (k : nat),
    (Z.of_nat k < max_tool_rounds)%Z ->
    (forall (client : openai_agent.Provider) chat0 chat_k w_k,
        openai_agent.copy_messages messages = Ret chat0 ->
        repeated (openai_agent.tool_round client openai_agent.one_call_response)
          k 0 chat0 w chat_k w_k ->
        openai_agent.tool_free_round client k chat_k ->
        exists blocks texts,
          length blocks = k
          /\ Forall tool_round_events blocks
          /\ events (openai_agent.stream client messages max_tool_rounds w)
             = concat blocks ++ map text_delta texts ++ [done]
          /\ count_terminal (events (openai_agent.stream client messages max_tool_rounds w)) = 1)
    /\ (forall (model : gemini_agent.Provider) chat_k w_k,
           repeated (gemini_agent.tool_round model gemini_agent.one_call_response)
             k 0 (gemini_agent._convert_messages_to_contents messages) w chat_k w_k ->
           gemini_agent.tool_free_round model k chat_k ->
           exists blocks texts,
             length blocks = k
             /\ Forall tool_round_events blocks
             /\ events (gemini_agent.stream model messages max_tool_rounds w)
                = concat blocks ++ map text_delta texts ++ [done]
             /\ count_terminal (events (gemini_agent.stream model messages max_tool_rounds w))
                = 1).
Proof.
  intros X messages max_tool_rounds w k Hk.
  assert (Hn : Z.to_nat max_tool_rounds = k + S (Z.to_nat max_tool_rounds - k - 1)) by lia.
  split.
  - intros client chat0 chat_k w_k Hcopy Hrep Hfree.
    pose proof (rounds_end_properly (openai_agent.round client) max_tool_rounds
                  (round_shape client) chat0 w) as (_ & Hcount & _).
    unfold openai_agent.stream. rewrite Hcopy. revert Hcount.
    unfold agent_loop. rewrite Hn.
    destruct (rounds_repeated (openai_agent.round client) max_tool_rounds
                (openai_agent.tool_round client openai_agent.one_call_response)
                tool_round_events (one_call_round_events client)
                _ _ _ _ _ _ Hrep (S (Z.to_nat max_tool_rounds - k - 1)))
      as (blocks & Hlen & Hall & Hev & _).
    rewrite Hev. simpl.
    destruct (round_when_tool_free client k chat_k Hfree w_k) as [texts ->].
    simpl. intros Hcount. exists blocks, texts. auto.
  - intros model chat_k w_k Hrep Hfree.
    pose proof (rounds_end_properly (gemini_agent.round model) max_tool_rounds
                  (gemini_round_shape model)
                  (gemini_agent._convert_messages_to_contents messages) w)
      as (_ & Hcount & _).
    unfold gemini_agent.stream. revert Hcount.
    unfold agent_loop. rewrite Hn.
    destruct (rounds_repeated (gemini_agent.round model) max_tool_rounds
                (gemini_agent.tool_round model gemini_agent.one_call_response)
                tool_round_events (gemini_one_call_round_events model)
                _ _ _ _ _ _ Hrep (S (Z.to_nat max_tool_rounds - k - 1)))
      as (blocks & Hlen & Hall & Hev & _).
    rewrite Hev. simpl.
    destruct (gemini_round_when_tool_free model k chat_k Hfree w_k) as [texts ->].
    simpl. intros Hcount. exists blocks, texts. auto.
Qed.

Lemma one_tool_call_per_round_witness :
  (Z.of_nat 1 < 10)%Z
  /\ (exists chat_1 w_1,
         repeated (openai_agent.tool_round (X := scenario.collaborators) scenario.helper
                     openai_agent.one_call_response)
           1 0 [openai_agent.Plain "user" "Which stores are open?"] scenario.world chat_1 w_1
         /\ openai_agent.tool_free_round (X := scenario.collaborators) scenario.helper 1 chat_1)
  /\ exists blocks texts,
      length blocks = 1
      /\ Forall tool_round_events blocks
      /\ events (openai_agent.stream (X := scenario.collaborators) scenario.helper
                   scenario.question 10 scenario.world)
         = concat blocks ++ map text_delta texts ++ [done]
      /\ count_terminal (events (openai_agent.stream (X := scenario.collaborators)
                                   scenario.helper scenario.question 10 scenario.world)) = 1.
Proof.
  assert (R : exists chat_1 w_1,
             repeated (openai_agent.tool_round (X := scenario.collaborators) scenario.helper
                         openai_agent.one_call_response)
               1 0 [openai_agent.Plain "user" "Which stores are open?"] scenario.world
               chat_1 w_1
             /\ openai_agent.tool_free_round (X := scenario.collaborators) scenario.helper 1
                  chat_1).
  { do 2 eexists. split.
    - eapply repeated_S; [|apply repeated_O].
      do 2 eexists. split; [reflexivity|]. split.
      { split; [reflexivity|]. split; [reflexivity|]. exists "call_1". reflexivity. }
      split; [reflexivity|]. split; [discriminate | reflexivity].
    - eexists. repeat split. }
  split; [lia|]. split; [exact R|].
  destruct R as (chat_1 & w_1 & R & F).
  apply (proj1 (one_tool_call_per_round scenario.collaborators scenario.question 10
                  scenario.world 1 ltac:(lia))
           scenario.helper _ chat_1 w_1 eq_refl R F).
Defined.

(** C2 as stated fails on the OpenAI adapter.  A response that requests one
    tool call without any argument text gives a round with no
    [tool_args_delta] at all; a response that names the call only after its
    argument text gives a [tool_args_delta] whose identifier is empty and
    differs from the one of the [tool_call] and the [tool_result]. *)
Lemma openai_fragments_may_be_missing_or_unnamed :
  length (openai_agent.finalized
            (openai_agent.Next
               (scenario.call_delta (Some "call_1") (Some "list_stores") None)
               openai_agent.EndOfStream)) = 1
  /\ events (openai_agent.stream (X := scenario.collaborators) scenario.terse
               scenario.question 10 scenario.world)
     = [tool_call "list_stores" "call_1" (JObj []);
        tool_result "list_stores" "call_1" (JObj [("count", JInt 0)]);
        text_delta "No store found.";
        done]
  /\ length (openai_agent.finalized
               (openai_agent.Next
                  (scenario.call_delta None (Some "list_stores") (Some "{}"))
                  (openai_agent.Next (scenario.call_delta (Some "call_1") None None)
                     openai_agent.EndOfStream))) = 1
  /\ events (openai_agent.stream (X := scenario.collaborators) scenario.late_namer
               scenario.question 10 scenario.world)
     = [tool_args_delta "" "{}";
        tool_call "list_stores" "call_1" (JObj []);
        tool_result "list_stores" "call_1" (JObj [("count", JInt 0)]);
        text_delta "No store found.";
        done].
Proof. repeat split. Qed.

(** The Gemini adapter reads [chunk.text] before the function calls of the
    chunk.  When that accessor raises, as the one of the provider's library
    does on a chunk that holds a function call, the round ends in [error]:
    no [tool_args_delta], no [tool_call], no second request, and the store
    is left alone. *)
Example gemini_text_accessor_ends_the_round :
  events (gemini_agent.stream (X := scenario.collaborators) scenario.gemini_library_helper
            scenario.question 10 scenario.world)
  = [error "Could not convert `part.function_call` to text."]
  /\ length (requests (gemini_agent.stream (X := scenario.collaborators)
                         scenario.gemini_library_helper scenario.question 10
                         scenario.world)) = 1
  /\ final_world (gemini_agent.stream (X := scenario.collaborators)
                    scenario.gemini_library_helper scenario.question 10 scenario.world)
     = scenario.world.
Proof. repeat split. Qed.

(* ================================================================== *)
(** * Part III: further properties of the code *)
(* ================================================================== *)

(** ** Dictionaries *)

Lemma dict_get_In {V : Type} (k : string) (d : list (string * V)) (v : V) :
  dict_get k d = Some v -> In (k, v) d.
Proof.
  induction d as [|[k' v'] d IH]; simpl; [discriminate|].
  destruct (String.eqb k' k) eqn:E.
  - apply String.eqb_eq in E. intros H. inversion H. subst. auto.
  - auto.
Qed.

Lemma In_dict_get {V : Type} (k : string) (d : list (string * V)) (v : V) :
  NoDup (map fst d) -> In (k, v) d -> dict_get k d = Some v.
Proof.
  induction d as [|[k' v'] d IH]; simpl; [tauto|].
  intros Hnd [H|H].
  - inversion H. subst. rewrite String.eqb_refl. reflexivity.
  - inversion Hnd as [|? ? Hnot Hnd']. subst.
    destruct (String.eqb k' k) eqn:E.
    + apply String.eqb_eq in E. subst. exfalso. apply Hnot.
      apply (in_map fst) in H. exact H.
    + auto.
Qed.

(** ** Prescription refills: the accepted path *)

Lemma find_after_decrement (pid : string) (ps : list Prescription) :
  find (fun r => String.eqb (rx_prescription_id r) pid) (map (db.decrement_refills pid) ps)
  = option_map (db.decrement_refills pid)
      (find (fun r => String.eqb (rx_prescription_id r) pid) ps).
Proof.
  induction ps as [|p ps IH]; simpl; [reflexivity|].
  unfold db.decrement_refills at 1.
  destruct (String.eqb (rx_prescription_id p) pid) eqn:E; simpl; rewrite E.
  - unfold db.decrement_refills. rewrite E. reflexivity.
  - exact IH.
Qed.

(** What [request_prescription_refill] does once its four checks pass, by
    the fate of its two writes. *)
Lemma refill_after_checks (user_id prescription_id : string) (w : World) (rx : Prescription) :
  fst (db.statement w) = Ret tt ->
  find (fun r => String.eqb (rx_prescription_id r) prescription_id) (prescriptions w) = Some rx ->
  rx_user_id rx = user_id ->
  (0 < rx_refills_remaining rx)%Z ->
  String.ltb (rx_expires_at rx) (date_isoformat (clock w (ticks w))) = false ->
  let rrid := ("RR-" ++ strftime_millis (clock w (S (ticks w))) ++ "-" ++ prescription_id)%string in
  let row := {| refill_request_id := rrid; rr_prescription_id := prescription_id;
                rr_user_id := user_id; rr_status := "submitted";
                rr_created_at := (isoformat (clock w (S (S (ticks w)))) ++ "Z")%string |} in
  let w0 := with_ticks (3 + ticks w) (snd (db.statement w)) in
  tools.request_prescription_refill user_id prescription_id w
  = match db.statement w0 with
    | (Raise e, w1) => (Raise e, w1)
    | (Ret _, w1) =>
        match db.statement (with_refill_requests (refill_requests w ++ [row]) w1) with
        | (Raise e, w2) => (Raise e, w2)
        | (Ret _, w2) =>
            (Ret (tools.accepted rrid),
             with_prescriptions (map (db.decrement_refills prescription_id) (prescriptions w)) w2)
        end
    end.
Proof.
  intros Hs Hf Hu Hr Hx rrid row w0. subst rrid row w0.
  apply String.eqb_eq in Hu. apply Z.leb_gt in Hr.
  destruct w as [ps rs ts fl ck tk]. simpl in *.
  unfold tools.request_prescription_refill, db.query_one_prescription,
    db.exec_sql_insert_refill_request, db.exec_sql_decrement_refills, bind, db.statement in *.
  simpl in *.
  destruct fl as [|[e|] [|[e1|] [|[e2|] fl]]]; simpl in *; try discriminate;
    rewrite Hf; simpl; rewrite Hu; simpl; rewrite Hr; simpl; rewrite Hx; reflexivity.
Qed.

(** X1: an accepted refill has made both writes: one row was appended to
    refill_requests, carrying the returned request id, the prescription, the
    user and the status "submitted", and the refill count of the prescription
    went down by exactly one and did not fall below zero. *)
Theorem refill_acceptance_records_request :
  forall (user_id prescription_id rrid : string) (w : World),
    fst (tools.request_prescription_refill user_id prescription_id w)
    = Ret (tools.accepted rrid) ->
    exists rx created_at,
      find (fun r => String.eqb (rx_prescription_id r) prescription_id) (prescriptions w)
      = Some rx
      /\ refill_requests (snd (tools.request_prescription_refill user_id prescription_id w))
         = refill_requests w
             ++ [{| refill_request_id := rrid; rr_prescription_id := prescription_id;
                    rr_user_id := user_id; rr_status := "submitted";
                    rr_created_at := created_at |}]
      /\ prescriptions (snd (tools.request_prescription_refill user_id prescription_id w))
         = map (db.decrement_refills prescription_id) (prescriptions w)
      /\ exists rx',
          find (fun r => String.eqb (rx_prescription_id r) prescription_id)
            (prescriptions (snd (tools.request_prescription_refill user_id prescription_id w)))
          = Some rx'
          /\ rx_refills_remaining rx' = (rx_refills_remaining rx - 1)%Z
          /\ (0 <= rx_refills_remaining rx')%Z.
Proof.
  intros user_id prescription_id rrid w Hacc.
  assert (Hchecks : fst (db.statement w) = Ret tt
                    /\ refill_acceptable user_id prescription_id w).
  { revert Hacc.
    unfold tools.request_prescription_refill, db.query_one_prescription, bind, refill_acceptable.
    destruct (statement_frame w) as [fs W1].
    destruct (db.statement w) as [[[]|e] w1]; simpl in W1; subst w1; simpl; [|discriminate].
    destruct (find _ (prescriptions w)) as [rx|]; unfold ret; simpl; [|discriminate].
    destruct (String.eqb (rx_user_id rx) user_id) eqn:U; simpl; [|discriminate].
    destruct (rx_refills_remaining rx <=? 0)%Z eqn:R; simpl; [discriminate|].
    destruct (String.ltb _ _) eqn:L; simpl; [discriminate|].
    intros _. split; [reflexivity|]. exists rx.
    apply String.eqb_eq in U. apply Z.leb_gt in R. auto. }
  destruct Hchecks as (Hs & rx & Hf & Hu & Hr & Hx).
  pose proof (refill_after_checks user_id prescription_id w rx Hs Hf Hu Hr Hx) as E.
  cbv zeta in E. rewrite E in Hacc |- *. clear E.
  match goal with |- context [db.statement ?v] =>
    destruct (statement_frame v) as [fs1 W2]; destruct (db.statement v) as [[[]|e1] w2] end;
    simpl in W2; subst w2; simpl in Hacc |- *; [|discriminate].
  match goal with |- context [db.statement ?v] =>
    destruct (statement_frame v) as [fs2 W3]; destruct (db.statement v) as [[[]|e2] w3] end;
    simpl in W3; subst w3; simpl in Hacc |- *; [|discriminate].
  inversion Hacc as [Hid]. 
  exists rx. eexists. split; [exact Hf|]. split; [reflexivity|]. split; [reflexivity|].
  rewrite find_after_decrement, Hf. simpl.
  eexists. split; [reflexivity|].
  destruct (find_some _ _ Hf) as [_ Hpid].
  unfold db.decrement_refills. rewrite Hpid. simpl. lia.
Qed.

Lemma refill_acceptance_records_request_witness :
  fst (tools.request_prescription_refill "1003" "RX-1" scenario.world)
  = Ret (tools.accepted "RR-20250115120000000-RX-1")
  /\ exists rx created_at,
      find (fun r => String.eqb (rx_prescription_id r) "RX-1") (prescriptions scenario.world)
      = Some rx
      /\ refill_requests (snd (tools.request_prescription_refill "1003" "RX-1" scenario.world))
         = refill_requests scenario.world
             ++ [{| refill_request_id := "RR-20250115120000000-RX-1";
                    rr_prescription_id := "RX-1";
                    rr_user_id := "1003"; rr_status := "submitted";
                    rr_created_at := created_at |}]
      /\ prescriptions (snd (tools.request_prescription_refill "1003" "RX-1" scenario.world))
         = map (db.decrement_refills "RX-1") (prescriptions scenario.world)
      /\ exists rx',
          find (fun r => String.eqb (rx_prescription_id r) "RX-1")
            (prescriptions (snd (tools.request_prescription_refill "1003" "RX-1"
                                   scenario.world)))
          = Some rx'
          /\ rx_refills_remaining rx' = (rx_refills_remaining rx - 1)%Z
          /\ (0 <= rx_refills_remaining rx')%Z.
Proof.
  split; [reflexivity|].
  apply (refill_acceptance_records_request "1003" "RX-1" "RR-20250115120000000-RX-1"
           scenario.world).
  reflexivity.
Defined.

(** X2: the two writes of a refill are separate commits: when the INSERT
    goes through and the UPDATE fails, the call raises, the request row
    stays in refill_requests and the refill count is not decremented. *)
Theorem refill_writes_are_not_atomic :
  forall (user_id prescription_id : string) (w : World) (e : exn) (fs : list (option exn)),
    refill_acceptable user_id prescription_id w ->
    faults w = None :: None :: Some e :: fs ->
    fst (tools.request_prescription_refill user_id prescription_id w) = Raise e
    /\ (exists row,
           refill_requests (snd (tools.request_prescription_refill user_id prescription_id w))
           = refill_requests w ++ [row]
           /\ rr_prescription_id row = prescription_id
           /\ rr_user_id row = user_id)
    /\ prescriptions (snd (tools.request_prescription_refill user_id prescription_id w))
       = prescriptions w.
Proof.
  intros user_id prescription_id w e fs (rx & Hf & Hu & Hr & Hx) Hfaults.
  assert (Hs : fst (db.statement w) = Ret tt).
  { unfold db.statement. rewrite Hfaults. reflexivity. }
  pose proof (refill_after_checks user_id prescription_id w rx Hs Hf Hu Hr Hx) as E.
  cbv zeta in E. rewrite E. clear E.
  destruct w as [ps rs ts fl ck tk]. simpl in Hfaults. subst fl.
  unfold db.statement. simpl.
  split; [reflexivity|]. split; [|reflexivity].
  eexists. split; [reflexivity|]. auto.
Qed.

Lemma refill_writes_are_not_atomic_witness :
  refill_acceptable "1003" "RX-1" scenario.world
  /\ fst (tools.request_prescription_refill "1003" "RX-1"
            (with_faults [None; None; Some (mk_exn DatabaseError "connection lost")]
               scenario.world))
     = Raise (mk_exn DatabaseError "connection lost")
  /\ length (refill_requests
               (snd (tools.request_prescription_refill "1003" "RX-1"
                       (with_faults [None; None; Some (mk_exn DatabaseError "connection lost")]
                          scenario.world)))) = 1
  /\ prescriptions
       (snd (tools.request_prescription_refill "1003" "RX-1"
               (with_faults [None; None; Some (mk_exn DatabaseError "connection lost")]
                  scenario.world)))
     = prescriptions scenario.world.
Proof.
  assert (A : refill_acceptable "1003" "RX-1" scenario.world).
  { exists scenario.rx_1. repeat split. }
  split; [exact A|].
  destruct (refill_writes_are_not_atomic "1003" "RX-1"
              (with_faults [None; None; Some (mk_exn DatabaseError "connection lost")]
                 scenario.world)
              (mk_exn DatabaseError "connection lost") [] A eq_refl)
    as (H1 & (row & H2 & _) & H3).
  split; [exact H1|]. split; [|exact H3].
  rewrite H2. reflexivity.
Defined.

(** One accepted refill in a world without pending failures. *)
Lemma refill_step (user_id prescription_id : string) (w : World) (rx : Prescription) :
  faults w = [] ->
  find (fun r => String.eqb (rx_prescription_id r) prescription_id) (prescriptions w) = Some rx ->
  rx_user_id rx = user_id ->
  (0 < rx_refills_remaining rx)%Z ->
  String.ltb (rx_expires_at rx) (date_isoformat (clock w (ticks w))) = false ->
  exists rrid row,
    tools.request_prescription_refill user_id prescription_id w
    = (Ret (tools.accepted rrid),
       with_prescriptions (map (db.decrement_refills prescription_id) (prescriptions w))
         (with_refill_requests (refill_requests w ++ [row])
            (with_ticks (3 + ticks w) w))).
Proof.
  intros Hfaults Hf Hu Hr Hx.
  assert (Hs : fst (db.statement w) = Ret tt).
  { unfold db.statement. rewrite Hfaults. reflexivity. }
  pose proof (refill_after_checks user_id prescription_id w rx Hs Hf Hu Hr Hx) as E.
  cbv zeta in E. rewrite E. clear E.
  destruct w as [ps rs ts fl ck tk]. simpl in Hfaults. subst fl.
  unfold db.statement. simpl. eauto.
Qed.

Lemma refill_repeatedly_S (n : nat) (user_id prescription_id : string) (w : World) :
  tools.refill_repeatedly (S n) user_id prescription_id w
  = (fst (tools.request_prescription_refill user_id prescription_id w)
       :: fst (tools.refill_repeatedly n user_id prescription_id
                 (snd (tools.request_prescription_refill user_id prescription_id w))),
     snd (tools.refill_repeatedly n user_id prescription_id
            (snd (tools.request_prescription_refill user_id prescription_id w)))).
Proof.
  cbn [tools.refill_repeatedly].
  destruct (tools.request_prescription_refill user_id prescription_id w) as [o w1].
  cbn [fst snd].
  destruct (tools.refill_repeatedly n user_id prescription_id w1) as [os w2]. reflexivity.
Qed.

(** X3: a prescription with [r] refills left is refilled by exactly the
    first [r] of [r + 1] successive requests of its owner; the last request
    is rejected with NO_REFILLS, and [r] request rows have been added.  (No
    database failure, no expiry in between.) *)
Theorem refills_run_out :
  forall (r : nat) (user_id prescription_id : string) (w : World) (rx : Prescription),
    faults w = [] ->
    find (fun p => String.eqb (rx_prescription_id p) prescription_id) (prescriptions w)
    = Some rx ->
    rx_user_id rx = user_id ->
    rx_refills_remaining rx = Z.of_nat r ->
    (forall t, String.ltb (rx_expires_at rx) (date_isoformat (clock w t)) = false) ->
    (forall i, i < r ->
       exists rrid,
         nth_error (fst (tools.refill_repeatedly (S r) user_id prescription_id w)) i
         = Some (Ret (tools.accepted rrid)))
    /\ nth_error (fst (tools.refill_repeatedly (S r) user_id prescription_id w)) r
       = Some (Ret (tools.rejected "NO_REFILLS"))
    /\ length (refill_requests (snd (tools.refill_repeatedly (S r) user_id prescription_id w)))
       = length (refill_requests w) + r.
Proof.
  induction r as [|r IH]; intros user_id prescription_id w rx Hfaults Hf Hu Hr Hx.
  - split; [intros i Hi; lia|].
    rewrite refill_repeatedly_S.
    assert (E : tools.request_prescription_refill user_id prescription_id w
                = (Ret (tools.rejected "NO_REFILLS"), w)).
    { unfold tools.request_prescription_refill, db.query_one_prescription, bind, db.statement.
      rewrite Hfaults. simpl. rewrite Hf. apply String.eqb_eq in Hu. rewrite Hu. simpl.
      rewrite Hr. reflexivity. }
    rewrite E. simpl. split; [reflexivity | lia].
  - destruct (refill_step user_id prescription_id w rx Hfaults Hf Hu ltac:(lia) (Hx _))
      as (rrid & row & E).
    rewrite (refill_repeatedly_S (S r)), E. cbn [fst snd].
    match goal with |- context [tools.refill_repeatedly (S r) _ _ ?w1] => set (w1' := w1) end.
    assert (Hf1 : find (fun p => String.eqb (rx_prescription_id p) prescription_id)
                    (prescriptions w1') = Some (db.decrement_refills prescription_id rx)).
    { subst w1'. simpl. rewrite find_after_decrement, Hf. reflexivity. }
    destruct (find_some _ _ Hf) as [_ Hpid].
    assert (Hd : db.decrement_refills prescription_id rx
                 = {| rx_prescription_id := rx_prescription_id rx; rx_user_id := rx_user_id rx;
                      rx_med_id := rx_med_id rx; rx_directions := rx_directions rx;
                      rx_refills_remaining := rx_refills_remaining rx - 1;
                      rx_expires_at := rx_expires_at rx |}).
    { unfold db.decrement_refills. rewrite Hpid. reflexivity. }
    destruct (IH user_id prescription_id w1' (db.decrement_refills prescription_id rx))
      as (Hacc & Hlast & Hlen).
    + subst w1'. destruct w. simpl in *. exact Hfaults.
    + exact Hf1.
    + rewrite Hd. exact Hu.
    + rewrite Hd. simpl. lia.
    + intros t. rewrite Hd. simpl. subst w1'. destruct w. simpl in *. apply Hx.
    + destruct (tools.refill_repeatedly (S r) user_id prescription_id w1') as [os w2].
      cbn [fst snd] in *. split; [|split].
      * intros [|i] Hi; simpl; [eauto | apply Hacc; lia].
      * exact Hlast.
      * rewrite Hlen. subst w1'. simpl. rewrite length_app. simpl. lia.
Qed.

Lemma refills_run_out_witness :
  nth_error (fst (tools.refill_repeatedly 3 "1003" "RX-1" scenario.world)) 2
  = Some (Ret (tools.rejected "NO_REFILLS"))
  /\ length (refill_requests (snd (tools.refill_repeatedly 3 "1003" "RX-1" scenario.world)))
     = length (refill_requests scenario.world) + 2.
Proof.
  apply (refills_run_out 2 "1003" "RX-1" scenario.world scenario.rx_1); reflexivity.
Defined.

(** ** Usage counters *)

Lemma upsert_count_get (name : string) (ts : list (string * Z)) :
  dict_get name (db.upsert_count name ts)
  = Some (match dict_get name ts with Some c => (c + 1)%Z | None => 1%Z end).
Proof.
  induction ts as [|[n c] ts IH]; simpl.
  - rewrite String.eqb_refl. reflexivity.
  - destruct (String.eqb n name) eqn:E; simpl; rewrite E; auto.
Qed.

Lemma upsert_count_other (name other : string) (ts : list (string * Z)) :
  other <> name ->
  dict_get other (db.upsert_count name ts) = dict_get other ts.
Proof.
  intros Hne. induction ts as [|[n c] ts IH]; simpl.
  - destruct (String.eqb name other) eqn:E; [|reflexivity].
    apply String.eqb_eq in E. congruence.
  - destruct (String.eqb n name) eqn:E; simpl.
    + apply String.eqb_eq in E. subst n.
      destruct (String.eqb name other) eqn:E2; [|reflexivity].
      apply String.eqb_eq in E2. congruence.
    + rewrite IH. reflexivity.
Qed.

Lemma upsert_count_keys (name : string) (ts : list (string * Z)) :
  map fst (db.upsert_count name ts)
  = if has_key name ts then map fst ts else map fst ts ++ [name].
Proof.
  unfold has_key. induction ts as [|[n c] ts IH]; simpl; [reflexivity|].
  destruct (String.eqb n name) eqn:E; simpl; [reflexivity|].
  rewrite IH. destruct (dict_get name ts); reflexivity.
Qed.

Lemma has_key_In {V : Type} (k : string) (d : list (string * V)) :
  has_key k d = false -> ~ In k (map fst d).
Proof.
  unfold has_key. induction d as [|[k' v] d IH]; simpl; [tauto|].
  destruct (String.eqb k' k) eqn:E; [discriminate|].
  intros H [Hk|Hin]; [|exact (IH H Hin)].
  subst. rewrite String.eqb_refl in E. discriminate.
Qed.

(** X4: a counter update whose statement goes through adds exactly one to
    the counter of the tool (a tool never counted before starts at 1),
    leaves every other counter and the other tables alone, and keeps the
    tool names of the table distinct. *)
Theorem increment_counts_one_call :
  forall (name : string) (w : World),
    fst (db.statement w) = Ret tt ->
    fst (tools._increment_tool_stat name w) = Ret tt
    /\ dict_get name (tool_stats (snd (tools._increment_tool_stat name w)))
       = Some (match dict_get name (tool_stats w) with Some c => (c + 1)%Z | None => 1%Z end)
    /\ (forall other, other <> name ->
          dict_get other (tool_stats (snd (tools._increment_tool_stat name w)))
          = dict_get other (tool_stats w))
    /\ (NoDup (map fst (tool_stats w)) ->
        NoDup (map fst (tool_stats (snd (tools._increment_tool_stat name w)))))
    /\ prescriptions (snd (tools._increment_tool_stat name w)) = prescriptions w
    /\ refill_requests (snd (tools._increment_tool_stat name w)) = refill_requests w.
Proof.
  intros name w Hs.
  unfold tools._increment_tool_stat, try_except, db.exec_sql_upsert_tool_stat, bind.
  destruct (statement_frame w) as [fs W1].
  destruct (db.statement w) as [[[]|e] w1]; simpl in Hs, W1; [|discriminate]. subst w1.
  simpl. split; [reflexivity|]. split; [apply upsert_count_get|].
  split; [intros other Hne; apply upsert_count_other, Hne|].
  split; [|auto].
  intros Hnd. rewrite upsert_count_keys.
  destruct (has_key name (tool_stats w)) eqn:Hk; [exact Hnd|].
  apply NoDup_app; [exact Hnd | repeat constructor; simpl; tauto |].
  intros k Hin [Hk'|[]]. subst k. exact (has_key_In _ _ Hk Hin).
Qed.

Lemma increment_counts_one_call_witness :
  fst (db.statement scenario.world) = Ret tt
  /\ dict_get "list_stores"
       (tool_stats (snd (tools._increment_tool_stat "list_stores" scenario.world)))
     = Some 1%Z.
Proof.
  split; [reflexivity|].
  apply (increment_counts_one_call "list_stores" scenario.world eq_refl).
Defined.

(** ** [get_tool_stats] *)

Lemma insert_by_count_desc_perm (row : string * Z) (sorted : list (string * Z)) :
  Permutation (db.insert_by_count_desc row sorted) (row :: sorted).
Proof.
  induction sorted as [|r rest IH]; simpl; [reflexivity|].
  destruct (snd r <? snd row)%Z; [reflexivity|].
  rewrite IH. apply perm_swap.
Qed.

Lemma insert_by_count_desc_sorted (row : string * Z) (sorted : list (string * Z)) :
  StronglySorted by_count_desc sorted ->
  StronglySorted by_count_desc (db.insert_by_count_desc row sorted).
Proof.
  induction 1 as [|r rest Hs IH Hall]; simpl.
  - repeat constructor.
  - destruct (snd r <? snd row)%Z eqn:E.
    + apply Z.ltb_lt in E. constructor; [constructor; assumption|].
      constructor; [unfold by_count_desc; lia|].
      revert Hall. apply Forall_impl. unfold by_count_desc. intros a Ha. lia.
    + apply Z.ltb_ge in E. constructor; [exact IH|].
      apply (Permutation_Forall (Permutation_sym (insert_by_count_desc_perm row rest))).
      constructor; [exact E | exact Hall].
Qed.

Lemma order_by_count_desc_spec (rows : list (string * Z)) :
  Permutation (db.order_by_count_desc rows) rows
  /\ StronglySorted by_count_desc (db.order_by_count_desc rows).
Proof.
  unfold db.order_by_count_desc.
  assert (G : forall acc,
             StronglySorted by_count_desc acc ->
             Permutation (fold_left (fun sorted row => db.insert_by_count_desc row sorted)
                            rows acc) (rows ++ acc)
             /\ StronglySorted by_count_desc
                  (fold_left (fun sorted row => db.insert_by_count_desc row sorted) rows acc)).
  { induction rows as [|r rows IH]; intros acc Hacc; simpl; [auto|].
    destruct (IH _ (insert_by_count_desc_sorted r acc Hacc)) as [P S]. split; [|exact S].
    rewrite P, insert_by_count_desc_perm. symmetry. apply Permutation_middle. }
  destruct (G [] (SSorted_nil _)) as [P S]. rewrite app_nil_r in P. auto.
Qed.

(** X5: when its query goes through, [get_tool_stats] reports every row of
    tool_stats exactly once, in non-increasing order of call_count, and
    changes no table. *)
Theorem get_tool_stats_lists_the_table_in_order :
  forall (w : World) (stats : list Json),
    fst (tools.get_tool_stats w) = Ret stats ->
    (exists rows,
        stats = map stat_row rows
        /\ Permutation rows (tool_stats w)
        /\ StronglySorted by_count_desc rows)
    /\ tool_stats (snd (tools.get_tool_stats w)) = tool_stats w
    /\ prescriptions (snd (tools.get_tool_stats w)) = prescriptions w
    /\ refill_requests (snd (tools.get_tool_stats w)) = refill_requests w.
Proof.
  intros w stats.
  unfold tools.get_tool_stats, db.query_all_tool_stats, bind.
  destruct (statement_frame w) as [fs W1].
  destruct (db.statement w) as [[[]|e] w1]; simpl in W1; subst w1; simpl; [|discriminate].
  intros H. inversion H. split; [|auto].
  exists (db.order_by_count_desc (tool_stats w)).
  destruct (order_by_count_desc_spec (tool_stats w)). auto.
Qed.

Lemma get_tool_stats_lists_the_table_in_order_witness :
  fst (tools.get_tool_stats
         (with_tool_stats [("list_stores", 2%Z); ("search_users", 7%Z)] scenario.world))
  = Ret [stat_row ("search_users", 7%Z); stat_row ("list_stores", 2%Z)]
  /\ exists rows,
      [stat_row ("search_users", 7%Z); stat_row ("list_stores", 2%Z)] = map stat_row rows
      /\ Permutation rows [("list_stores", 2%Z); ("search_users", 7%Z)]
      /\ StronglySorted by_count_desc rows.
Proof.
  split; [reflexivity|].
  apply (get_tool_stats_lists_the_table_in_order
           (with_tool_stats [("list_stores", 2%Z); ("search_users", 7%Z)] scenario.world)
           [stat_row ("search_users", 7%Z); stat_row ("list_stores", 2%Z)] eq_refl).
Defined.

Lemma increment_tool_stats (name : string) (w : World) :
  fst (db.statement w) = Ret tt ->
  tool_stats (snd (tools._increment_tool_stat name w)) = db.upsert_count name (tool_stats w).
Proof.
  intros Hs.
  unfold tools._increment_tool_stat, try_except, db.exec_sql_upsert_tool_stat, bind.
  destruct (statement_frame w) as [fs W1].
  destruct (db.statement w) as [[[]|e] w1]; simpl in Hs, W1; [|discriminate]. subst w1.
  reflexivity.
Qed.

Lemma get_tool_stats_rows (w : World) (stats : list Json) :
  fst (tools.get_tool_stats w) = Ret stats ->
  stats = map stat_row (db.order_by_count_desc (tool_stats w)).
Proof.
  unfold tools.get_tool_stats, db.query_all_tool_stats, bind.
  destruct (statement_frame w) as [fs W1].
  destruct (db.statement w) as [[[]|e] w1]; simpl in W1; subst w1; simpl; [|discriminate].
  intros H. inversion H. reflexivity.
Qed.

(** X6: counting and reporting compose: after a counter update that went
    through, a report that goes through lists the tool with its previous
    count plus one (1 for a tool never counted before). *)
Theorem counted_call_is_reported :
  forall (name : string) (w : World) (stats : list Json),
    fst (db.statement w) = Ret tt ->
    fst (tools.get_tool_stats (snd (tools._increment_tool_stat name w))) = Ret stats ->
    In (stat_row (name, match dict_get name (tool_stats w) with
                        | Some c => (c + 1)%Z
                        | None => 1%Z
                        end)) stats.
Proof.
  intros name w stats Hs Hg.
  apply get_tool_stats_rows in Hg. subst stats.
  apply in_map.
  apply (Permutation_in _ (Permutation_sym (proj1 (order_by_count_desc_spec _)))).
  apply dict_get_In. rewrite (increment_tool_stats name w Hs). apply upsert_count_get.
Qed.

Lemma counted_call_is_reported_witness :
  fst (db.statement scenario.world) = Ret tt
  /\ fst (tools.get_tool_stats (snd (tools._increment_tool_stat "list_stores" scenario.world)))
     = Ret [stat_row ("list_stores", 1%Z)]
  /\ In (stat_row ("list_stores", 1%Z))
       [stat_row ("list_stores", 1%Z)].
Proof.
  split; [reflexivity|]. split; [reflexivity|].
  apply (counted_call_is_reported "list_stores" scenario.world
           [stat_row ("list_stores", 1%Z)] eq_refl eq_refl).
Defined.

(** ** Argument binding in [run_tool] *)

Section BindingFacts.
Context {X : Collaborators}.

Lemma guarded_increment_world (name : string) (w : World) :
  try_except (tools._increment_tool_stat name) (fun _ => ret tt) w
  = (Ret tt, snd (tools._increment_tool_stat name w)).
Proof.
  destruct (increment_never_raises name w) as [w' E].
  unfold try_except. rewrite E. reflexivity.
Qed.

Lemma forallb_false_find {A : Type} (f : A -> bool) (l : list A) :
  forallb f l = false -> exists a, find (fun a => negb (f a)) l = Some a.
Proof.
  induction l as [|a l IH]; simpl; [discriminate|].
  destruct (f a); simpl; eauto.
Qed.

Lemma forallb_false_filter {A : Type} (f : A -> bool) (l : list A) :
  forallb f l = false -> filter (fun a => negb (f a)) l <> [].
Proof.
  induction l as [|a l IH]; simpl; [discriminate|].
  destruct (f a); simpl; [auto | discriminate].
Qed.

Lemma forallb_true_filter {A : Type} (f : A -> bool) (l : list A) :
  forallb f l = true -> filter (fun a => negb (f a)) l = [].
Proof.
  induction l as [|a l IH]; simpl; [reflexivity|].
  destruct (f a); simpl; [auto | discriminate].
Qed.

(** A call whose arguments do not bind raises [TypeError] without running
    the body. *)
Lemma call_kw_unbound (func : tools.ToolFn) (args : Json) (w : World) :
  tools.binds func args = false ->
  exists msg, tools.call_kw func args w = (Raise (mk_exn TypeError msg), w).
Proof.
  unfold tools.binds, tools.call_kw, raise.
  destruct args; eauto.
  destruct (forallb (fun kv => has_key (fst kv) (tools.fn_params func)) fields) eqn:K; simpl.
  - intros R. rewrite (find_unexpected_none _ _ K).
    pose proof (forallb_false_filter _ _ R) as N.
    destruct (filter _ (tools.required_params func)); [congruence | eauto].
  - intros _. destruct (forallb_false_find _ _ K) as [[k v] ->]. eauto.
Qed.

(** A call whose arguments bind runs the body on them. *)
Lemma call_kw_bound (func : tools.ToolFn) (kw : list (string * Json)) :
  tools.binds func (JObj kw) = true ->
  tools.call_kw func (JObj kw) = tools.tool_body func kw.
Proof.
  unfold tools.binds, tools.call_kw. intros H.
  apply andb_true_iff in H as [K R].
  rewrite (find_unexpected_none _ _ K), (forallb_true_filter _ _ R). reflexivity.
Qed.

(** X7: when the arguments handed to a registered tool do not bind to its
    parameters (not a mapping, an unknown key, or a required parameter left
    out), [run_tool] does not run the tool: the world it leaves is the one
    the counter update leaves, and its outcome is a [TypeError] or the
    MISSING_REQUIRED_ARGUMENT payload. *)
Theorem unbound_arguments_never_reach_the_tool :
  forall (name : string) (func : tools.ToolFn) (args : Json) (w : World),
    dict_get name tools.tool_map = Some func ->
    tools.binds func args = false ->
    snd (tools.run_tool name args w) = snd (tools._increment_tool_stat name w)
    /\ ((exists msg, fst (tools.run_tool name args w) = Raise (mk_exn TypeError msg))
        \/ (exists msg, fst (tools.run_tool name args w)
                        = Ret (tools.missing_required_argument name msg))).
Proof.
  intros name func args w Hreg Hb.
  unfold tools.run_tool. rewrite Hreg. unfold bind. rewrite guarded_increment_world.
  destruct (call_kw_unbound func args (snd (tools._increment_tool_stat name w)) Hb)
    as [msg E].
  unfold tools.guarded_call, try_except. rewrite E.
  cbn [is_TypeError exn_kind exn_message].
  destruct (is_substring "missing" msg && is_substring "required" msg);
    unfold ret, raise; simpl; eauto.
Qed.

End BindingFacts.

Lemma unbound_arguments_never_reach_the_tool_witness :
  tools.binds {| tools.fn_name := "request_prescription_refill";
                 tools.fn_params := [("user_id", true); ("prescription_id", true)] |}
    (JObj [("user_id", JStr "1003"); ("rx", JStr "RX-1")]) = false
  /\ snd (tools.run_tool (X := scenario.collaborators) "request_prescription_refill"
            (JObj [("user_id", JStr "1003"); ("rx", JStr "RX-1")]) scenario.world)
     = snd (tools._increment_tool_stat "request_prescription_refill" scenario.world).
Proof.
  split; [reflexivity|].
  apply (unbound_arguments_never_reach_the_tool (X := scenario.collaborators)
           "request_prescription_refill"
           {| tools.fn_name := "request_prescription_refill";
              tools.fn_params := [("user_id", true); ("prescription_id", true)] |}
           (JObj [("user_id", JStr "1003"); ("rx", JStr "RX-1")])
           scenario.world eq_refl eq_refl).
Defined.

Section SchemaFacts.
Context {X : Collaborators}.

Lemma existsb_eqb_In (k : string) (l : list string) :
  existsb (String.eqb k) l = true -> In k l.
Proof.
  intros H. apply existsb_exists in H as (x & Hin & E).
  apply String.eqb_eq in E. subst. exact Hin.
Qed.

Lemma conforming_arguments_bind (spec : tools.ToolSpec) (func : tools.ToolFn)
      (kw : list (string * Json)) :
  tools.schema_fits spec func = true ->
  tools.conforms spec kw = true ->
  tools.binds func (JObj kw) = true.
Proof.
  unfold tools.schema_fits, tools.conforms, tools.binds.
  intros F C. apply andb_true_iff in F as [F1 F2]. apply andb_true_iff in C as [C1 C2].
  rewrite forallb_forall in F1, F2, C1, C2.
  apply andb_true_iff. split; apply forallb_forall.
  - intros kv Hin. apply F1, existsb_eqb_In, C1, Hin.
  - intros p Hin. apply C2, existsb_eqb_In, F2, Hin.
Qed.

(** X8: the schema advertised to the model and the registry agree: the
    tools of [TOOL_SPECS] are those of [tool_map], in the same order, and
    for each of them a mapping that conforms to the schema (keys among its
    properties, required properties present) binds to the tool function, so
    that the call runs the tool body on it. *)
Theorem schema_conforming_calls_reach_the_tool :
  map tools.spec_name tools.TOOL_SPECS = map fst tools.tool_map
  /\ forall (spec : tools.ToolSpec) (kw : list (string * Json)),
      In spec tools.TOOL_SPECS ->
      tools.conforms spec kw = true ->
      exists func,
        dict_get (tools.spec_name spec) tools.tool_map = Some func
        /\ tools.call_kw func (JObj kw) = tools.tool_body func kw.
Proof.
  split; [reflexivity|].
  intros spec kw Hin Hc.
  assert (Hfit : exists func,
             dict_get (tools.spec_name spec) tools.tool_map = Some func
             /\ tools.schema_fits spec func = true).
  { simpl in Hin.
    repeat (destruct Hin as [<-|Hin]; [eexists; split; reflexivity|]).
    destruct Hin. }
  destruct Hfit as (func & Hreg & Hfit).
  exists func. split; [exact Hreg|].
  apply call_kw_bound, (conforming_arguments_bind spec); assumption.
Qed.

(** The tool functions of the registry. *)
Lemma registered_function (name : string) (func : tools.ToolFn) :
  dict_get name tools.tool_map = Some func -> In func (map snd tools.tool_map).
Proof. intros H. apply dict_get_In in H. apply (in_map snd) in H. exact H. Qed.

(** X9: arguments that are not a mapping (a JSON array, string, number,
    boolean or null) make [run_tool] raise [TypeError] for every registered
    tool; in the OpenAI adapter, argument text that parses to such a value
    therefore ends the tool loop after the [tool_call] event. *)
Theorem non_mapping_arguments_raise :
  forall (name : string) (func : tools.ToolFn) (args : Json) (w : World),
    dict_get name tools.tool_map = Some func ->
    (forall kw, args <> JObj kw) ->
    fst (tools.run_tool name args w)
    = Raise (mk_exn TypeError (tools.not_a_mapping_message func args))
    /\ forall tc rest chat,
        openai_agent.tc_name tc = name ->
        json_loads (openai_agent.tc_arguments tc) = Some args ->
        fst (fst (openai_agent.execute_tool_calls (tc :: rest) chat w))
        = [tool_call name (openai_agent.tc_id tc) args]
        /\ snd (fst (openai_agent.execute_tool_calls (tc :: rest) chat w))
           = Raise (mk_exn TypeError (tools.not_a_mapping_message func args)).
Proof.
  intros name func args w Hreg Hnm.
  assert (R : tools.run_tool name args w
              = (Raise (mk_exn TypeError (tools.not_a_mapping_message func args)),
                 snd (tools._increment_tool_stat name w))).
  { unfold tools.run_tool. rewrite Hreg. unfold bind. rewrite guarded_increment_world.
    unfold tools.guarded_call, try_except.
    assert (C : forall v, tools.call_kw func args v
                          = (Raise (mk_exn TypeError (tools.not_a_mapping_message func args)), v)).
    { intros v. unfold tools.call_kw, raise.
      destruct args; try reflexivity. exfalso. exact (Hnm _ eq_refl). }
    rewrite C. cbn [is_TypeError exn_kind exn_message].
    assert (S : is_substring "missing" (tools.not_a_mapping_message func args)
                && is_substring "required" (tools.not_a_mapping_message func args) = false).
    { pose proof (registered_function name func Hreg) as Hin.
      assert (T : In (py_type_name args)
                    ["NoneType"; "bool"; "int"; "float"; "str"; "list"]).
      { destruct args; simpl; auto 10. exfalso. exact (Hnm _ eq_refl). }
      unfold tools.not_a_mapping_message.
      simpl in Hin.
      repeat (destruct Hin as [<-|Hin];
              [simpl in T;
               repeat (destruct T as [<-|T]; [vm_compute; reflexivity|]); destruct T|]).
      destruct Hin. }
    rewrite S. reflexivity. }
  split; [rewrite R; reflexivity|].
  intros tc rest chat Hn Hj. simpl.
  unfold openai_agent.parse_arguments. rewrite Hj, Hn, R. auto.
Qed.

End SchemaFacts.

Lemma schema_conforming_calls_reach_the_tool_witness :
  In {| tools.spec_name := "check_stock_availability";
        tools.spec_properties := ["med_id"; "store_id"];
        tools.spec_required := ["med_id"; "store_id"] |} tools.TOOL_SPECS
  /\ exists func,
      dict_get "check_stock_availability" tools.tool_map = Some func
      /\ tools.call_kw (X := scenario.collaborators) func
           (JObj [("store_id", JStr "STORE_TLV_01"); ("med_id", JStr "MED001")])
         = tools.tool_body (X := scenario.collaborators) func
             [("store_id", JStr "STORE_TLV_01"); ("med_id", JStr "MED001")].
Proof.
  assert (I : In {| tools.spec_name := "check_stock_availability";
                    tools.spec_properties := ["med_id"; "store_id"];
                    tools.spec_required := ["med_id"; "store_id"] |} tools.TOOL_SPECS).
  { simpl. auto 10. }
  split; [exact I|].
  apply (proj2 (schema_conforming_calls_reach_the_tool (X := scenario.collaborators))
           _ [("store_id", JStr "STORE_TLV_01"); ("med_id", JStr "MED001")] I eq_refl).
Defined.

Lemma non_mapping_arguments_raise_witness :
  fst (tools.run_tool (X := scenario.collaborators) "list_stores" (JArr [JStr "Haifa"])
         scenario.world)
  = Raise (mk_exn TypeError
             "app.tools.list_stores() argument after ** must be a mapping, not list").
Proof.
  apply (non_mapping_arguments_raise (X := scenario.collaborators) "list_stores"
           {| tools.fn_name := "list_stores"; tools.fn_params := [("city", false)] |}
           (JArr [JStr "Haifa"]) scenario.world eq_refl).
  intros kw H. discriminate H.
Defined.

(** ** Tool declarations handed to the providers *)

Lemma convert_specs_map (build build' : Json -> Json -> Json -> Json) (f : Json -> Json)
      (specs : list SpecDict) :
  (forall n d p, build' n d p = f (build n d p)) ->
  convert_specs build' specs
  = match convert_specs build specs with
    | Ret l => Ret (map f l)
    | Raise e => Raise e
    end.
Proof.
  intros Hf. induction specs as [|spec specs IH]; simpl; [reflexivity|].
  destruct (is_function_spec spec); simpl; [|exact IH].
  destruct (dict_get "name" spec); [|reflexivity].
  rewrite IH. destruct (convert_specs build specs); simpl; [rewrite Hf|]; reflexivity.
Qed.

Lemma convert_specs_length (build : Json -> Json -> Json -> Json) (specs : list SpecDict)
      (l : list Json) :
  convert_specs build specs = Ret l ->
  length l = length (filter is_function_spec specs).
Proof.
  revert l. induction specs as [|spec specs IH]; simpl; intros l H.
  - inversion H. reflexivity.
  - destruct (is_function_spec spec); simpl in *; [|auto].
    destruct (dict_get "name" spec); [|discriminate].
    destruct (convert_specs build specs); [|discriminate].
    inversion H. simpl. f_equal. auto.
Qed.

(** X10: the two adapters declare the same tools: on any list of specs,
    [_to_openai_tools] raises exactly when [_to_gemini_tools] does (a spec
    of type "function" without a name), and otherwise the OpenAI tools are
    the Gemini function declarations, in the same order, each wrapped as
    [{"type": "function", "function": ...}]; specs of another type are
    skipped, and Gemini gets no tool group at all when nothing is left. *)
Theorem adapters_declare_the_same_tools :
  forall (tool_specs : option (list SpecDict)),
    match gemini_agent._to_gemini_tools tool_specs,
          openai_agent._to_openai_tools tool_specs with
    | Ret groups, Ret openai_tools =>
        length openai_tools = length (filter is_function_spec (or_empty tool_specs))
        /\ exists declarations,
            openai_tools
            = map (fun d => JObj [("type", JStr "function"); ("function", d)]) declarations
            /\ groups = match declarations with
                        | [] => []
                        | _ => [JObj [("function_declarations", JArr declarations)]]
                        end
    | Raise e, Raise e' => e = e' /\ e = mk_exn KeyError "'name'"
    | _, _ => False
    end.
Proof.
  intros tool_specs.
  unfold gemini_agent._to_gemini_tools, openai_agent._to_openai_tools.
  rewrite (convert_specs_map gemini_agent.function_declaration openai_agent.function_tool
             (fun d => JObj [("type", JStr "function"); ("function", d)]))
    by reflexivity.
  destruct (convert_specs gemini_agent.function_declaration (or_empty tool_specs))
    as [decls|e] eqn:E.
  - pose proof (convert_specs_length _ _ _ E) as L.
    destruct decls as [|d decls]; (split; [rewrite length_map; exact L|]); eauto.
  - split; [reflexivity|].
    clear - E. induction (or_empty tool_specs) as [|spec specs IH]; simpl in E; [discriminate|].
    destruct (is_function_spec spec); simpl in E; [|auto].
    destruct (dict_get "name" spec); [|inversion E; reflexivity].
    destruct (convert_specs gemini_agent.function_declaration specs); [discriminate|].
    inversion E; subst. auto.
Qed.

(** ** Conversation shape for Gemini *)

(** X11: [_convert_messages_to_contents] never fails and keeps one content
    per message, in order: its role is "model" for an "assistant" message
    and "user" for every other message (unknown or missing role included),
    and it holds one text part with the message's content ("" when the key
    is missing). *)
Theorem converted_contents_are_user_or_model :
  forall (messages : list Message),
    length (gemini_agent._convert_messages_to_contents messages) = length messages
    /\ forall i m,
        nth_error messages i = Some m ->
        exists c,
          nth_error (gemini_agent._convert_messages_to_contents messages) i = Some c
          /\ gemini_agent.role c
             = (if has_key "role" m && String.eqb (text_of (dict_get "role" m)) "assistant"
                then "model" else "user")
          /\ gemini_agent.parts c = [gemini_agent.TextPart (text_of (dict_get "content" m))].
Proof.
  intros messages. unfold gemini_agent._convert_messages_to_contents.
  split; [apply length_map|].
  intros i m Hm. eexists. split; [apply map_nth_error, Hm|].
  unfold has_key, text_of. simpl. split.
  - destruct (dict_get "role" m) as [r|]; simpl; [|reflexivity].
    destruct (String.eqb r "assistant"); [reflexivity|].
    destruct (String.eqb r "user") eqn:E; simpl; [|reflexivity].
    apply String.eqb_eq in E. exact E.
  - destruct (dict_get "content" m); reflexivity.
Qed.

Lemma converted_contents_are_user_or_model_witness :
  nth_error [[("role", "system"); ("content", "Be brief.")]; [("role", "assistant")]] 0
  = Some [("role", "system"); ("content", "Be brief.")]
  /\ exists c,
      nth_error (gemini_agent._convert_messages_to_contents
                   [[("role", "system"); ("content", "Be brief.")]; [("role", "assistant")]]) 0
      = Some c
      /\ gemini_agent.role c = "user"
      /\ gemini_agent.parts c = [gemini_agent.TextPart "Be brief."].
Proof.
  split; [reflexivity|].
  apply (proj2 (converted_contents_are_user_or_model
                  [[("role", "system"); ("content", "Be brief.")]; [("role", "assistant")]])
           0 _ eq_refl).
Defined.

(** ** Call identifiers minted by the Gemini adapter *)

Lemma string_append_assoc (a b c : string) :
  ((a ++ b) ++ c)%string = (a ++ (b ++ c))%string.
Proof. induction a as [|x a IH]; simpl; [reflexivity | rewrite IH; reflexivity]. Qed.

Lemma string_append_inj_l (s a b : string) :
  (s ++ a)%string = (s ++ b)%string -> a = b.
Proof. induction s as [|x s IH]; simpl; intros H; [exact H | inversion H; auto]. Qed.

Lemma dash_free_no_dash (s t : string) :
  dash_free (s ++ String "-" t) = false.
Proof.
  induction s as [|x s IH]; simpl; [reflexivity|].
  rewrite IH. apply andb_false_r.
Qed.

(** A text is split in one way only at its last dash. *)
Lemma split_at_last_dash (a1 a2 d1 d2 : string) :
  dash_free d1 = true -> dash_free d2 = true ->
  (a1 ++ String "-" d1)%string = (a2 ++ String "-" d2)%string ->
  a1 = a2 /\ d1 = d2.
Proof.
  revert a2. induction a1 as [|x a1 IH]; intros [|y a2] H1 H2; simpl; intros E.
  - inversion E. auto.
  - inversion E as [[Hx Hd]]. subst d1. rewrite dash_free_no_dash in H1. discriminate.
  - inversion E as [[Hx Hd]]. subst d2. rewrite dash_free_no_dash in H2. discriminate.
  - inversion E as [[Hx Hr]]. destruct (IH a2 H1 H2 Hr) as [-> ->]. auto.
Qed.

Lemma dash_free_str_of_nat (n : nat) : dash_free (str_of_nat n) = true.
Proof.
  unfold str_of_nat.
  assert (G : forall d, dash_free (NilEmpty.string_of_uint d) = true).
  { induction d; simpl; auto. }
  destruct (Nat.to_uint n) as [|u|u|u|u|u|u|u|u|u|u];
    [reflexivity | ..];
    match goal with |- dash_free (NilZero.string_of_uint ?d) = true => exact (G d) end.
Qed.

Lemma str_of_nat_inj (n m : nat) : str_of_nat n = str_of_nat m -> n = m.
Proof.
  unfold str_of_nat. intros E.
  assert (N : forall k, Nat.to_uint k <> Decimal.Nil).
  { intros k. rewrite <- (DecimalNat.Unsigned.of_to k) at 1.
    rewrite DecimalNat.Unsigned.to_of. apply DecimalFacts.unorm_nonnil. }
  pose proof (NilZero.usu _ (N n)) as U1. pose proof (NilZero.usu _ (N m)) as U2.
  rewrite E in U1. rewrite U1 in U2. inversion U2.
  apply DecimalNat.Unsigned.to_uint_inj. assumption.
Qed.

(** The identifier tells the name, the position and the round of the call. *)
Lemma mint_call_id_inj (n1 n2 : string) (j1 j2 r1 r2 : nat) :
  gemini_agent.mint_call_id n1 j1 r1 = gemini_agent.mint_call_id n2 j2 r2 ->
  n1 = n2 /\ j1 = j2 /\ r1 = r2.
Proof.
  unfold gemini_agent.mint_call_id. intros E.
  apply (string_append_inj_l "gemini-") in E.
  assert (R : forall n sj sr,
             (n ++ "-" ++ sj ++ "-" ++ sr)%string
             = ((n ++ String "-" sj) ++ String "-" sr)%string).
  { intros n sj sr. rewrite string_append_assoc. reflexivity. }
  rewrite !R in E.
  apply split_at_last_dash in E; try apply dash_free_str_of_nat.
  destruct E as [E Er].
  apply split_at_last_dash in E; try apply dash_free_str_of_nat.
  destruct E as [En Ej].
  apply str_of_nat_inj in Er, Ej. auto.
Qed.

Lemma minted_in_round_NoDup (round_idx : nat) (ids : list string) :
  minted_in_round round_idx ids -> NoDup ids.
Proof.
  intros Hm. apply (NoDup_nth_error ids). intros i j Hi E.
  destruct (nth_error ids i) as [id|] eqn:Ei.
  2:{ apply nth_error_None in Ei. lia. }
  symmetry in E.
  destruct (Hm _ _ Ei) as [n1 H1]. destruct (Hm _ _ E) as [n2 H2].
  rewrite H1 in H2. apply mint_call_id_inj in H2. tauto.
Qed.

Lemma minted_in_round_In (round_idx : nat) (ids : list string) (id : string) :
  minted_in_round round_idx ids -> In id ids ->
  exists name j, id = gemini_agent.mint_call_id name j round_idx.
Proof.
  intros Hm Hin. apply In_nth_error in Hin as [j Hj].
  destruct (Hm _ _ Hj) as [name ->]. eauto.
Qed.

Lemma minted_in_round_firstn (round_idx k : nat) (ids : list string) :
  minted_in_round round_idx ids -> minted_in_round round_idx (firstn k ids).
Proof.
  intros Hm j id Hj. apply (Hm j id).
  assert (Hlt : j < k).
  { destruct (Nat.lt_ge_cases j k) as [L|G]; [exact L|].
    assert (N : nth_error (firstn k ids) j = None).
    { apply nth_error_None. rewrite length_firstn. lia. }
    congruence. }
  rewrite nth_error_firstn in Hj.
  apply Nat.ltb_lt in Hlt. rewrite Hlt in Hj. exact Hj.
Qed.

Lemma minted_in_round_snoc (round_idx : nat) (ids : list string) (name : string) :
  minted_in_round round_idx ids ->
  minted_in_round round_idx
    (ids ++ [gemini_agent.mint_call_id name (length ids) round_idx]).
Proof.
  intros Hm j id Hj.
  destruct (Nat.lt_ge_cases j (length ids)) as [L|G].
  - rewrite nth_error_app1 in Hj by exact L. exact (Hm _ _ Hj).
  - rewrite nth_error_app2 in Hj by exact G.
    destruct (j - length ids) as [|d] eqn:Ed; simpl in Hj.
    + assert (j = length ids) as -> by lia. inversion Hj. eauto.
    + destruct d; discriminate.
Qed.

Lemma tool_call_ids_app (a b : list AgentEvent) :
  tool_call_ids (a ++ b) = tool_call_ids a ++ tool_call_ids b.
Proof. apply flat_map_app. Qed.

Lemma increments_without_calls (evs : list AgentEvent) :
  forallb is_increment evs = true -> tool_call_ids evs = [].
Proof.
  induction evs as [|e evs IH]; simpl; [reflexivity|].
  intros H. apply andb_true_iff in H as [H1 H2].
  destruct e; try discriminate; simpl; auto.
Qed.

Lemma tool_events_without_deltas (evs : list AgentEvent) :
  forallb is_tool_event evs = true -> args_delta_ids evs = [].
Proof.
  induction evs as [|e evs IH]; simpl; [reflexivity|].
  intros H. apply andb_true_iff in H as [H1 H2].
  destruct e; try discriminate; simpl; auto.
Qed.

Section GeminiIdentifiers.
Import gemini_agent.
Context {X : Collaborators}.
Variable model : Provider.

Lemma on_part_minted (idx : nat) (p : Part) (pcs : list PendingCall) :
  minted_in_round idx (map pc_id pcs) ->
  minted_in_round idx (map pc_id (snd (on_part idx p pcs))).
Proof.
  intros Hm. unfold on_part. destruct (function_call p) as [fc|]; [|exact Hm].
  destruct (truthy (fc_name fc)); [|exact Hm].
  simpl. rewrite map_app. simpl.
  rewrite <- (length_map pc_id pcs). apply minted_in_round_snoc, Hm.
Qed.

Lemma on_parts_minted (idx : nat) (ps : list Part) (pcs : list PendingCall) :
  minted_in_round idx (map pc_id pcs) ->
  minted_in_round idx (map pc_id (snd (on_parts idx ps pcs))).
Proof.
  revert pcs. induction ps as [|p ps IH]; intros pcs Hm; simpl; [exact Hm|].
  pose proof (on_part_minted idx p pcs Hm) as H1.
  destruct (on_part idx p pcs) as [evs1 pc1].
  specialize (IH pc1 H1). destruct (on_parts idx ps pc1) as [evs2 pc2]. exact IH.
Qed.

Lemma on_candidates_minted (idx : nat) (cs : list Candidate) (pcs : list PendingCall) :
  minted_in_round idx (map pc_id pcs) ->
  minted_in_round idx (map pc_id (snd (on_candidates idx cs pcs))).
Proof.
  revert pcs. induction cs as [|c cs IH]; intros pcs Hm; simpl; [exact Hm|].
  assert (H1 : minted_in_round idx
                 (map pc_id (snd (match cand_content c with
                                  | None => ([], pcs)
                                  | Some ps => on_parts idx ps pcs
                                  end)))).
  { destruct (cand_content c); [apply on_parts_minted, Hm | exact Hm]. }
  destruct (match cand_content c with
            | None => ([], pcs)
            | Some ps => on_parts idx ps pcs
            end) as [evs1 pc1].
  specialize (IH pc1 H1). destruct (on_candidates idx cs pc1) as [evs2 pc2]. exact IH.
Qed.

Lemma consume_minted (idx : nat) (s : ChunkStream) (st : RoundState) :
  minted_in_round idx (map pc_id (fst st)) ->
  minted_in_round idx (map pc_id (fst (snd (fst (consume idx s st))))).
Proof.
  revert st. induction s as [|c rest IH|e]; intros st Hm; simpl; try exact Hm.
  destruct st as [pcs txt]. unfold on_chunk.
  destruct (text c) as [delta|e]; [|exact Hm].
  unfold after_text.
  pose proof (on_candidates_minted idx (candidates c) pcs Hm) as H1.
  destruct (on_candidates idx (candidates c) pcs) as [evs2 pc2].
  destruct (truthy delta).
  - specialize (IH (pc2, (txt ++ text_of delta)%string) H1).
    destruct (consume idx rest _) as [[evs3 st3] failure]. exact IH.
  - specialize (IH (pc2, txt) H1).
    destruct (consume idx rest _) as [[evs3 st3] failure]. exact IH.
Qed.

Lemma execute_pending_calls_ids (calls : list PendingCall) (chat : list Content)
      (w : World) :
  exists k,
    tool_call_ids (fst (fst (execute_pending_calls calls chat w)))
    = firstn k (map pc_id calls).
Proof.
  revert chat w. induction calls as [|call calls IH]; intros chat w; simpl.
  - exists 0. reflexivity.
  - destruct (tools.run_tool _ _ w) as [[result|e] w1].
    + match goal with |- context [execute_pending_calls calls ?c ?v] =>
        destruct (IH c v) as [k Hk];
        destruct (execute_pending_calls calls c v) as [[evs o] w2] end.
      exists (S k). simpl in *. rewrite Hk. reflexivity.
    + exists 1. reflexivity.
Qed.

(** The identifiers of one round: those of the [tool_args_delta] events
    are the ones minted for the positions 0, 1, ... of the round, and the
    [tool_call] events carry the first ones of them, in order. *)
Lemma gemini_round_ids (idx : nat) (chat : list Content) (w : World) :
  exists ids k,
    minted_in_round idx ids
    /\ args_delta_ids (fst (round model idx chat w)) = ids
    /\ tool_call_ids (fst (round model idx chat w)) = firstn k ids.
Proof.
  assert (M0 : minted_in_round idx []) by (intros [|j] id H; discriminate).
  unfold round. destruct (model idx chat) as [s|e].
  2:{ exists [], 0. auto. }
  pose proof (gemini_consume_increments idx s ([], "")) as Hinc.
  destruct (consume_pending idx s ([], "")) as (new & Hnew & Hids).
  pose proof (consume_minted idx s ([], "") M0) as Hm.
  destruct (consume idx s ([], "")) as [[evs [pcs txt]] failure].
  cbn [fst snd] in *. simpl in Hnew. subst pcs.
  pose proof (increments_without_calls _ Hinc) as Hnc.
  destruct failure as [e|].
  1:{ exists (map pc_id new), 0. cbn [fst].
      rewrite args_delta_ids_app, tool_call_ids_app, Hids, Hnc. simpl.
      rewrite app_nil_r. auto. }
  destruct new as [|pc new].
  1:{ exists [], 0. cbn [fst].
      rewrite args_delta_ids_app, tool_call_ids_app, Hids, Hnc. auto. }
  match goal with |- context [execute_pending_calls ?cs ?c ?v] =>
    destruct (execute_pending_calls_ids cs c v) as [k Hk];
    pose proof (execute_pending_calls_events cs c v) as Hte;
    destruct (execute_pending_calls cs c v) as [[evs2 [chat'|e]] w'] end;
    cbn [fst snd] in *; exists (map pc_id (pc :: new)), k;
    pose proof (tool_events_without_deltas _ Hte) as Hnd; cbn [fst].
  - rewrite args_delta_ids_app, tool_call_ids_app, Hids, Hnc, Hnd, Hk, app_nil_r. auto.
  - rewrite !args_delta_ids_app, !tool_call_ids_app, Hids, Hnc, Hnd, Hk. simpl.
    rewrite !app_nil_r. auto.
Qed.

Lemma gemini_rounds_ids (max_tool_rounds : Z) (n idx : nat) (chat : list Content)
      (w : World) :
  (forall id,
      In id (args_delta_ids (events (rounds (round model) max_tool_rounds n idx chat w))) ->
      exists name j r, idx <= r /\ id = mint_call_id name j r)
  /\ NoDup (args_delta_ids (events (rounds (round model) max_tool_rounds n idx chat w)))
  /\ NoDup (tool_call_ids (events (rounds (round model) max_tool_rounds n idx chat w)))
  /\ incl (tool_call_ids (events (rounds (round model) max_tool_rounds n idx chat w)))
          (args_delta_ids (events (rounds (round model) max_tool_rounds n idx chat w))).
Proof.
  revert idx chat w. induction n as [|n IH]; intros idx chat w; simpl.
  - repeat split; try constructor; intros id [].
  - destruct (gemini_round_ids idx chat w) as (ids & k & Hm & Ha & Hc).
    assert (Hfrom : forall id, In id ids -> exists name j r, idx <= r /\ id = mint_call_id name j r).
    { intros id Hin. destruct (minted_in_round_In _ _ _ Hm Hin) as (name & j & ->).
      exists name, j, idx. auto. }
    assert (Hsub : incl (firstn k ids) ids).
    { intros id Hin. rewrite <- (firstn_skipn k ids). apply in_or_app. auto. }
    destruct (round model idx chat w) as [evs [chat' w'|w']]; cbn [fst snd] in *.
    + destruct (IH (S idx) chat' w') as (Ifrom & Ia & Ic & Isub). simpl.
      rewrite args_delta_ids_app, tool_call_ids_app, Ha, Hc.
      assert (Hdis : forall id, In id ids ->
                ~ In id (args_delta_ids
                           (events (rounds (round model) max_tool_rounds n (S idx) chat' w')))).
      { intros id H1 H2.
        destruct (minted_in_round_In _ _ _ Hm H1) as (n1 & j1 & E1).
        destruct (Ifrom _ H2) as (n2 & j2 & r2 & Hr & E2).
        rewrite E1 in E2. apply mint_call_id_inj in E2. lia. }
      repeat split.
      * intros id Hin. apply in_app_or in Hin as [Hin|Hin]; [auto|].
        destruct (Ifrom _ Hin) as (name & j & r & Hr & ->). exists name, j, r. split; [lia|auto].
      * apply NoDup_app; [exact (minted_in_round_NoDup _ _ Hm) | exact Ia | exact Hdis].
      * apply NoDup_app;
          [exact (minted_in_round_NoDup _ _ (minted_in_round_firstn _ k _ Hm)) | exact Ic |].
        intros id H1 H2. exact (Hdis id (Hsub _ H1) (Isub _ H2)).
      * intros id Hin. apply in_or_app.
        apply in_app_or in Hin as [Hin|Hin]; [left; auto | right; auto].
    + simpl. rewrite Ha, Hc. repeat split.
      * exact Hfrom.
      * exact (minted_in_round_NoDup _ _ Hm).
      * exact (minted_in_round_NoDup _ _ (minted_in_round_firstn _ k _ Hm)).
      * exact Hsub.
Qed.

(** X12: in every run of the Gemini adapter the call identifiers are
    pairwise distinct, among the [tool_args_delta] events and among the
    [tool_call] events, whatever names the provider sends (dashes
    included) and however many calls and rounds there are; and every
    [tool_call] carries an identifier that a [tool_args_delta] announced. *)
Theorem gemini_call_ids_are_distinct :
  forall (messages : list Message) (max_tool_rounds : Z) (w : World),
    NoDup (args_delta_ids (events (stream model messages max_tool_rounds w)))
    /\ NoDup (tool_call_ids (events (stream model messages max_tool_rounds w)))
    /\ incl (tool_call_ids (events (stream model messages max_tool_rounds w)))
            (args_delta_ids (events (stream model messages max_tool_rounds w))).
Proof.
  intros messages max_tool_rounds w. unfold stream, agent_loop.
  apply (gemini_rounds_ids max_tool_rounds).
Qed.

End GeminiIdentifiers.

(** ** Tool calls and their results in the event stream *)

Lemma calls_answered_increments (a b : list AgentEvent) :
  forallb is_increment a = true -> calls_answered (a ++ b) = calls_answered b.
Proof.
  induction a as [|e a IH]; simpl; [reflexivity|].
  intros H. apply andb_true_iff in H as [H1 H2].
  destruct e; try discriminate; auto.
Qed.

Lemma calls_answered_pair (name call_id : string) (arguments result : Json)
      (rest : list AgentEvent) :
  calls_answered (tool_call name call_id arguments :: tool_result name call_id result :: rest)
  = calls_answered rest.
Proof. simpl. rewrite !String.eqb_refl. reflexivity. Qed.

Lemma rounds_answered {Conv : Type}
      (round : nat -> Conv -> World -> list AgentEvent * RoundEnd Conv)
      (max_tool_rounds : Z) :
  (forall idx conv w, round_answers (round idx conv w)) ->
  forall n idx conv w,
    calls_answered (events (rounds round max_tool_rounds n idx conv w)) = true.
Proof.
  intros Hr. induction n as [|n IH]; intros idx conv w; simpl; [reflexivity|].
  specialize (Hr idx conv w).
  destruct (round idx conv w) as [evs [conv' w'|w']]; simpl in *.
  - rewrite Hr. apply IH.
  - exact Hr.
Qed.

Section AnsweredCalls.
Context {X : Collaborators}.

Lemma execute_tool_calls_answered (tcs : list openai_agent.ToolCallEntry)
      (chat : list openai_agent.ChatMessage) (w : World) :
  match openai_agent.execute_tool_calls tcs chat w with
  | (evs, Ret _, _) => forall tail, calls_answered (evs ++ tail) = calls_answered tail
  | (evs, Raise _, _) => forall m, calls_answered (evs ++ [error m]) = true
  end.
Proof.
  revert chat w. induction tcs as [|tc tcs IH]; intros chat w; simpl; [reflexivity|].
  destruct (tools.run_tool _ _ w) as [[result|e] w1]; [|reflexivity].
  match goal with |- context [openai_agent.execute_tool_calls tcs ?c ?v] =>
    specialize (IH c v);
    destruct (openai_agent.execute_tool_calls tcs c v) as [[evs [chat'|e]] w2] end.
  - intros tail. rewrite <- !app_comm_cons, calls_answered_pair. apply IH.
  - intros m. rewrite <- !app_comm_cons, calls_answered_pair. apply IH.
Qed.

Lemma execute_pending_calls_answered (calls : list gemini_agent.PendingCall)
      (chat : list gemini_agent.Content) (w : World) :
  match gemini_agent.execute_pending_calls calls chat w with
  | (evs, Ret _, _) => forall tail, calls_answered (evs ++ tail) = calls_answered tail
  | (evs, Raise _, _) => forall m, calls_answered (evs ++ [error m]) = true
  end.
Proof.
  revert chat w. induction calls as [|call calls IH]; intros chat w; simpl; [reflexivity|].
  destruct (tools.run_tool _ _ w) as [[result|e] w1]; [|reflexivity].
  match goal with |- context [gemini_agent.execute_pending_calls calls ?c ?v] =>
    specialize (IH c v);
    destruct (gemini_agent.execute_pending_calls calls c v) as [[evs [chat'|e]] w2] end.
  - intros tail. rewrite <- !app_comm_cons, calls_answered_pair. apply IH.
  - intros m. rewrite <- !app_comm_cons, calls_answered_pair. apply IH.
Qed.

Lemma openai_round_answers (client : openai_agent.Provider) (idx : nat)
      (chat : list openai_agent.ChatMessage) (w : World) :
  round_answers (openai_agent.round client idx chat w).
Proof.
  unfold openai_agent.round. destruct (client idx _) as [s|e]; [|reflexivity].
  pose proof (consume_increments s openai_agent.initial_message) as Hinc.
  destruct (openai_agent.consume s openai_agent.initial_message) as [[evs am] failure].
  cbn [fst snd] in Hinc.
  destruct failure as [e|].
  1:{ simpl. rewrite calls_answered_increments by exact Hinc. reflexivity. }
  destruct (openai_agent.am_tool_calls am) as [|tc tcs].
  1:{ simpl. rewrite calls_answered_increments by exact Hinc. reflexivity. }
  match goal with |- context [openai_agent.execute_tool_calls ?cs ?c ?v] =>
    pose proof (execute_tool_calls_answered cs c v) as Hx;
    destruct (openai_agent.execute_tool_calls cs c v) as [[evs2 [chat'|e]] w'] end; simpl.
  - intros tail. rewrite <- app_assoc, calls_answered_increments by exact Hinc. apply Hx.
  - rewrite calls_answered_increments by exact Hinc. apply Hx.
Qed.

Lemma gemini_round_answers (model : gemini_agent.Provider) (idx : nat)
      (chat : list gemini_agent.Content) (w : World) :
  round_answers (gemini_agent.round model idx chat w).
Proof.
  unfold gemini_agent.round. destruct (model idx chat) as [s|e]; [|reflexivity].
  pose proof (gemini_consume_increments idx s ([], "")) as Hinc.
  destruct (gemini_agent.consume idx s ([], "")) as [[evs [pcs txt]] failure].
  cbn [fst snd] in Hinc.
  destruct failure as [e|].
  1:{ simpl. rewrite calls_answered_increments by exact Hinc. reflexivity. }
  destruct pcs as [|pc pcs].
  1:{ simpl. rewrite calls_answered_increments by exact Hinc. reflexivity. }
  match goal with |- context [gemini_agent.execute_pending_calls ?cs ?c ?v] =>
    pose proof (execute_pending_calls_answered cs c v) as Hx;
    destruct (gemini_agent.execute_pending_calls cs c v) as [[evs2 [chat'|e]] w'] end; simpl.
  - intros tail. rewrite <- app_assoc, calls_answered_increments by exact Hinc. apply Hx.
  - rewrite calls_answered_increments by exact Hinc. apply Hx.
Qed.

(** X13: in every run of either adapter each [tool_call] event is directly
    followed by the [tool_result] with the same name and call identifier,
    or (when the tool raised) by the [error] event that ends the stream,
    and no [tool_result] appears without its [tool_call] just before it. *)
Theorem tool_calls_are_answered :
  forall (client : openai_agent.Provider) (model : gemini_agent.Provider)
         (messages : list Message) (max_tool_rounds : Z) (w : World),
    calls_answered (events (openai_agent.stream client messages max_tool_rounds w)) = true
    /\ calls_answered (events (gemini_agent.stream model messages max_tool_rounds w)) = true.
Proof.
  intros client model messages max_tool_rounds w. split.
  - unfold openai_agent.stream. destruct (openai_agent.copy_messages messages); [|reflexivity].
    apply rounds_answered. apply openai_round_answers.
  - apply rounds_answered. apply gemini_round_answers.
Qed.

End AnsweredCalls.

(** ** The data store across a run *)

Section StoreAcrossRuns.
Context {X : Collaborators}.

Lemma replay_app (a b : list AgentEvent) (w : World) :
  replay (a ++ b) w = replay b (replay a w).
Proof.
  revert w. induction a as [|e a IH]; intros w; simpl; [reflexivity|].
  destruct e; apply IH.
Qed.

Lemma replay_increments (evs : list AgentEvent) (w : World) :
  forallb is_increment evs = true -> replay evs w = w.
Proof.
  induction evs as [|e evs IH]; simpl; [reflexivity|].
  intros H. apply andb_true_iff in H as [H1 H2].
  destruct e; try discriminate; auto.
Qed.

Lemma replay_without_calls (evs : list AgentEvent) (w : World) :
  tool_call_ids evs = [] -> replay evs w = w.
Proof.
  induction evs as [|e evs IH]; simpl; [reflexivity|].
  destruct e; simpl; auto; discriminate.
Qed.

Lemma rounds_replay {Conv : Type}
      (round : nat -> Conv -> World -> list AgentEvent * RoundEnd Conv)
      (max_tool_rounds : Z) :
  (forall idx conv w, round_replays w (round idx conv w)) ->
  forall n idx conv w,
    final_world (rounds round max_tool_rounds n idx conv w)
    = replay (events (rounds round max_tool_rounds n idx conv w)) w.
Proof.
  intros Hr. induction n as [|n IH]; intros idx conv w; simpl; [reflexivity|].
  specialize (Hr idx conv w).
  destruct (round idx conv w) as [evs [conv' w'|w']]; simpl in *.
  - rewrite replay_app, <- Hr. apply IH.
  - exact Hr.
Qed.

Lemma execute_tool_calls_replay (tcs : list openai_agent.ToolCallEntry)
      (chat : list openai_agent.ChatMessage) (w : World) :
  snd (openai_agent.execute_tool_calls tcs chat w)
  = replay (fst (fst (openai_agent.execute_tool_calls tcs chat w))) w.
Proof.
  revert chat w. induction tcs as [|tc tcs IH]; intros chat w; simpl; [reflexivity|].
  destruct (tools.run_tool _ _ w) as [[result|e] w1] eqn:Er.
  - match goal with |- context [openai_agent.execute_tool_calls tcs ?c ?v] =>
      specialize (IH c v);
      destruct (openai_agent.execute_tool_calls tcs c v) as [[evs o] w2] end.
    simpl in *. rewrite Er. exact IH.
  - simpl. rewrite Er. reflexivity.
Qed.

Lemma execute_pending_calls_replay (calls : list gemini_agent.PendingCall)
      (chat : list gemini_agent.Content) (w : World) :
  snd (gemini_agent.execute_pending_calls calls chat w)
  = replay (fst (fst (gemini_agent.execute_pending_calls calls chat w))) w.
Proof.
  revert chat w. induction calls as [|call calls IH]; intros chat w; simpl; [reflexivity|].
  destruct (tools.run_tool _ _ w) as [[result|e] w1] eqn:Er.
  - match goal with |- context [gemini_agent.execute_pending_calls calls ?c ?v] =>
      specialize (IH c v);
      destruct (gemini_agent.execute_pending_calls calls c v) as [[evs o] w2] end.
    simpl in *. rewrite Er. exact IH.
  - simpl. rewrite Er. reflexivity.
Qed.

Lemma openai_round_replays (client : openai_agent.Provider) (idx : nat)
      (chat : list openai_agent.ChatMessage) (w : World) :
  round_replays w (openai_agent.round client idx chat w).
Proof.
  unfold openai_agent.round. destruct (client idx _) as [s|e]; [|reflexivity].
  pose proof (consume_increments s openai_agent.initial_message) as Hinc.
  destruct (openai_agent.consume s openai_agent.initial_message) as [[evs am] failure].
  cbn [fst snd] in Hinc.
  destruct failure as [e|].
  1:{ simpl. rewrite replay_app, (replay_increments evs) by exact Hinc. reflexivity. }
  destruct (openai_agent.am_tool_calls am) as [|tc tcs].
  1:{ simpl. rewrite replay_app, (replay_increments evs) by exact Hinc. reflexivity. }
  match goal with |- context [openai_agent.execute_tool_calls ?cs ?c ?v] =>
    pose proof (execute_tool_calls_replay cs c v) as Hx;
    destruct (openai_agent.execute_tool_calls cs c v) as [[evs2 [chat'|e]] w'] end;
    cbn [fst snd] in Hx; simpl.
  - rewrite replay_app, (replay_increments evs) by exact Hinc. exact Hx.
  - rewrite !replay_app, (replay_increments evs) by exact Hinc. exact Hx.
Qed.

Lemma gemini_round_replays (model : gemini_agent.Provider) (idx : nat)
      (chat : list gemini_agent.Content) (w : World) :
  round_replays w (gemini_agent.round model idx chat w).
Proof.
  unfold gemini_agent.round. destruct (model idx chat) as [s|e]; [|reflexivity].
  pose proof (gemini_consume_increments idx s ([], "")) as Hinc.
  destruct (gemini_agent.consume idx s ([], "")) as [[evs [pcs txt]] failure].
  cbn [fst snd] in Hinc.
  destruct failure as [e|].
  1:{ simpl. rewrite replay_app, (replay_increments evs) by exact Hinc. reflexivity. }
  destruct pcs as [|pc pcs].
  1:{ simpl. rewrite replay_app, (replay_increments evs) by exact Hinc. reflexivity. }
  match goal with |- context [gemini_agent.execute_pending_calls ?cs ?c ?v] =>
    pose proof (execute_pending_calls_replay cs c v) as Hx;
    destruct (gemini_agent.execute_pending_calls cs c v) as [[evs2 [chat'|e]] w'] end;
    cbn [fst snd] in Hx; simpl.
  - rewrite replay_app, (replay_increments evs) by exact Hinc. exact Hx.
  - rewrite !replay_app, (replay_increments evs) by exact Hinc. exact Hx.
Qed.

Lemma openai_final_world (client : openai_agent.Provider) (messages : list Message)
      (max_tool_rounds : Z) (w : World) :
  final_world (openai_agent.stream client messages max_tool_rounds w)
  = replay (events (openai_agent.stream client messages max_tool_rounds w)) w.
Proof.
  unfold openai_agent.stream. destruct (openai_agent.copy_messages messages); [|reflexivity].
  apply rounds_replay. apply openai_round_replays.
Qed.

Lemma gemini_final_world (model : gemini_agent.Provider) (messages : list Message)
      (max_tool_rounds : Z) (w : World) :
  final_world (gemini_agent.stream model messages max_tool_rounds w)
  = replay (events (gemini_agent.stream model messages max_tool_rounds w)) w.
Proof. apply rounds_replay. apply gemini_round_replays. Qed.

(** X14: the adapters touch the data store through [run_tool] only: the
    store a run leaves is the one obtained from the initial store by the
    tool invocations that its [tool_call] events report, in that order with
    those names and arguments, whether the tools return or raise. *)
Theorem store_changes_only_through_reported_calls :
  forall (client : openai_agent.Provider) (model : gemini_agent.Provider)
         (messages : list Message) (max_tool_rounds : Z) (w : World),
    final_world (openai_agent.stream client messages max_tool_rounds w)
    = replay (events (openai_agent.stream client messages max_tool_rounds w)) w
    /\ final_world (gemini_agent.stream model messages max_tool_rounds w)
       = replay (events (gemini_agent.stream model messages max_tool_rounds w)) w.
Proof.
  intros. split; [apply openai_final_world | apply gemini_final_world].
Qed.

(** X15: a run of either adapter that yields no [tool_call] event leaves
    the data store exactly as it found it, however the run ends. *)
Theorem run_without_tool_calls_keeps_the_store :
  forall (client : openai_agent.Provider) (model : gemini_agent.Provider)
         (messages : list Message) (max_tool_rounds : Z) (w : World),
    (tool_call_ids (events (openai_agent.stream client messages max_tool_rounds w)) = [] ->
     final_world (openai_agent.stream client messages max_tool_rounds w) = w)
    /\ (tool_call_ids (events (gemini_agent.stream model messages max_tool_rounds w)) = [] ->
        final_world (gemini_agent.stream model messages max_tool_rounds w) = w).
Proof.
  intros client model messages max_tool_rounds w. split; intros H.
  - rewrite openai_final_world. apply replay_without_calls, H.
  - rewrite gemini_final_world. apply replay_without_calls, H.
Qed.

End StoreAcrossRuns.

Lemma run_without_tool_calls_keeps_the_store_witness :
  tool_call_ids (events (openai_agent.stream (X := scenario.collaborators) scenario.talker
                           scenario.question 10 scenario.world)) = []
  /\ final_world (openai_agent.stream (X := scenario.collaborators) scenario.talker
                    scenario.question 10 scenario.world) = scenario.world
  /\ tool_call_ids (events (gemini_agent.stream (X := scenario.collaborators)
                              scenario.gemini_talker scenario.question 10 scenario.world)) = []
  /\ final_world (gemini_agent.stream (X := scenario.collaborators) scenario.gemini_talker
                    scenario.question 10 scenario.world) = scenario.world.
Proof.
  split; [reflexivity|]. split.
  - apply (proj1 (run_without_tool_calls_keeps_the_store (X := scenario.collaborators)
                    scenario.talker scenario.gemini_talker scenario.question 10
                    scenario.world) eq_refl).
  - split; [reflexivity|].
    apply (proj2 (run_without_tool_calls_keeps_the_store (X := scenario.collaborators)
                    scenario.talker scenario.gemini_talker scenario.question 10
                    scenario.world) eq_refl).
Defined.

(** ** The conversation sent to the provider, round after round *)

Section RequestLog.
Context {Conv : Type}.
Variable round : nat -> Conv -> World -> list AgentEvent * RoundEnd Conv.
Variable max_tool_rounds : Z.

Lemma rounds_first_request (n idx : nat) (conv : Conv) (w : World) (c : Conv) :
  nth_error (requests (rounds round max_tool_rounds n idx conv w)) 0 = Some c -> c = conv.
Proof.
  destruct n as [|n]; simpl; [discriminate|].
  destruct (round idx conv w) as [evs [conv' w'|w']]; simpl; congruence.
Qed.

(** Two requests in a row stem from a round that went on. *)
Lemma rounds_consecutive (n idx : nat) (conv : Conv) (w : World) (i : nat) (c c' : Conv) :
  nth_error (requests (rounds round max_tool_rounds n idx conv w)) i = Some c ->
  nth_error (requests (rounds round max_tool_rounds n idx conv w)) (S i) = Some c' ->
  exists evs w0 w1, round (idx + i) c w0 = (evs, NextRound c' w1).
Proof.
  revert idx conv w i. induction n as [|n IH]; intros idx conv w i; simpl; [discriminate|].
  destruct (round idx conv w) as [evs [conv' w'|w']] eqn:Er; simpl.
  - destruct i as [|i]; simpl.
    + intros H0 H1. inversion H0. subst c.
      apply rounds_first_request in H1. subst c'.
      rewrite Nat.add_0_r. eauto.
    + intros H0 H1. rewrite <- Nat.add_succ_comm. exact (IH _ _ _ _ H0 H1).
  - intros _ H1. destruct i; discriminate.
Qed.

Lemma rounds_requests_bound (n idx : nat) (conv : Conv) (w : World) :
  length (requests (rounds round max_tool_rounds n idx conv w)) <= n.
Proof.
  revert idx conv w. induction n as [|n IH]; intros idx conv w; simpl; [lia|].
  destruct (round idx conv w) as [evs [conv' w'|w']]; simpl.
  - specialize (IH (S idx) conv' w'). lia.
  - lia.
Qed.

End RequestLog.

Section History.
Context {X : Collaborators}.

Lemma execute_tool_calls_history (tcs : list openai_agent.ToolCallEntry)
      (chat chat' : list openai_agent.ChatMessage) (w w' : World) (evs : list AgentEvent) :
  openai_agent.execute_tool_calls tcs chat w = (evs, Ret chat', w') ->
  exists tms,
    chat' = chat ++ tms
    /\ Forall2 (fun tc m => exists content,
                    m = openai_agent.ToolMessage (openai_agent.tc_id tc) content) tcs tms.
Proof.
  revert chat w evs. induction tcs as [|tc tcs IH]; intros chat w evs; simpl.
  - intros H. inversion H. exists []. rewrite app_nil_r. auto.
  - destruct (tools.run_tool _ _ w) as [[result|e] w1]; [|discriminate].
    match goal with |- context [openai_agent.execute_tool_calls tcs ?c ?v] =>
      specialize (IH c v);
      destruct (openai_agent.execute_tool_calls tcs c v) as [[evs2 o] w2] end.
    intros H. inversion H. subst.
    destruct (IH _ eq_refl) as (tms & -> & F).
    eexists (_ :: tms). rewrite <- app_assoc. split; [reflexivity|].
    constructor; eauto.
Qed.

Lemma execute_pending_calls_history (calls : list gemini_agent.PendingCall)
      (chat chat' : list gemini_agent.Content) (w w' : World) (evs : list AgentEvent) :
  gemini_agent.execute_pending_calls calls chat w = (evs, Ret chat', w') ->
  exists responses,
    chat' = chat ++ responses
    /\ Forall2 (fun pc m => exists result,
                    m = {| gemini_agent.role := "tool";
                           gemini_agent.parts :=
                             [gemini_agent.FunctionResponse (gemini_agent.pc_name pc) result] |})
               calls responses.
Proof.
  revert chat w evs. induction calls as [|call calls IH]; intros chat w evs; simpl.
  - intros H. inversion H. exists []. rewrite app_nil_r. auto.
  - destruct (tools.run_tool _ _ w) as [[result|e] w1]; [|discriminate].
    match goal with |- context [gemini_agent.execute_pending_calls calls ?c ?v] =>
      specialize (IH c v);
      destruct (gemini_agent.execute_pending_calls calls c v) as [[evs2 o] w2] end.
    intros H. inversion H. subst.
    destruct (IH _ eq_refl) as (tms & -> & F).
    eexists (_ :: tms). rewrite <- app_assoc. split; [reflexivity|].
    constructor; eauto.
Qed.

Lemma openai_round_goes_on (client : openai_agent.Provider) (idx : nat)
      (chat chat' : list openai_agent.ChatMessage) (w w' : World) (evs : list AgentEvent) :
  openai_agent.round client idx chat w = (evs, NextRound chat' w') ->
  exists s tms,
    client idx (openai_agent.Plain "system" SYSTEM_INSTRUCTIONS :: chat) = Ret s
    /\ openai_agent.stream_failure s = None
    /\ openai_agent.finalized s <> []
    /\ chat' = chat
               ++ openai_agent.Assistant
                    (snd (fst (openai_agent.consume s openai_agent.initial_message)))
               :: tms
    /\ Forall2 (fun tc m => exists content,
                    m = openai_agent.ToolMessage (openai_agent.tc_id tc) content)
               (openai_agent.finalized s) tms.
Proof.
  unfold openai_agent.round.
  destruct (client idx _) as [s|e] eqn:Ec; [|discriminate].
  pose proof (consume_failure s openai_agent.initial_message) as Hf.
  unfold openai_agent.finalized.
  destruct (openai_agent.consume s openai_agent.initial_message) as [[evs1 am] failure]
    eqn:Econs.
  cbn [fst snd] in *. subst failure.
  destruct (openai_agent.stream_failure s) as [e|] eqn:Es; [discriminate|].
  destruct (openai_agent.am_tool_calls am) as [|tc tcs] eqn:Et; [discriminate|].
  destruct (openai_agent.execute_tool_calls (tc :: tcs) _ w) as [[evs2 [c2|e]] w2] eqn:Ex;
    [|discriminate].
  intros H. inversion H. subst.
  destruct (execute_tool_calls_history _ _ _ _ _ _ Ex) as (tms & -> & F).
  exists s, tms. rewrite Econs. cbn [fst snd]. rewrite Et, <- app_assoc.
  repeat split; auto. discriminate.
Qed.

Lemma gemini_round_goes_on (model : gemini_agent.Provider) (idx : nat)
      (chat chat' : list gemini_agent.Content) (w w' : World) (evs : list AgentEvent) :
  gemini_agent.round model idx chat w = (evs, NextRound chat' w') ->
  exists s responses,
    model idx chat = Ret s
    /\ gemini_agent.stream_failure s = None
    /\ gemini_agent.finalized idx s <> []
    /\ chat' = gemini_agent.with_model_text idx s chat ++ responses
    /\ Forall2 (fun pc m => exists result,
                    m = {| gemini_agent.role := "tool";
                           gemini_agent.parts :=
                             [gemini_agent.FunctionResponse (gemini_agent.pc_name pc) result] |})
               (gemini_agent.finalized idx s) responses.
Proof.
  unfold gemini_agent.round.
  destruct (model idx chat) as [s|e] eqn:Ec; [|discriminate].
  pose proof (gemini_consume_failure idx s ([], "")) as Hf.
  unfold gemini_agent.with_model_text, gemini_agent.finalized_text, gemini_agent.finalized.
  destruct (gemini_agent.consume idx s ([], "")) as [[evs1 [pcs txt]] failure] eqn:Econs.
  cbn [fst snd] in *. subst failure.
  destruct (gemini_agent.stream_failure s) as [e|] eqn:Es; [discriminate|].
  destruct pcs as [|pc pcs]; [discriminate|].
  destruct (gemini_agent.execute_pending_calls (pc :: pcs) _ w) as [[evs2 [c2|e]] w2] eqn:Ex;
    [|discriminate].
  intros H. inversion H. subst.
  destruct (execute_pending_calls_history _ _ _ _ _ _ Ex) as (responses & -> & F).
  exists s, responses. rewrite Econs. cbn [fst snd].
  repeat split; auto. discriminate.
Qed.

(** X16: the OpenAI adapter never rewrites the conversation: the request
    of round i+1 is the request of round i followed by the assistant
    message accumulated from the provider's answer in round i and by one
    tool message for every tool call of that message, in order, each
    carrying the identifier of the call it answers. *)
Theorem openai_history_is_extended_by_answered_calls :
  forall (client : openai_agent.Provider) (messages : list Message)
         (max_tool_rounds : Z) (w : World) (i : nat)
         (c c' : list openai_agent.ChatMessage),
    nth_error (requests (openai_agent.stream client messages max_tool_rounds w)) i = Some c ->
    nth_error (requests (openai_agent.stream client messages max_tool_rounds w)) (S i)
    = Some c' ->
    exists s tms,
      client i (openai_agent.Plain "system" SYSTEM_INSTRUCTIONS :: c) = Ret s
      /\ openai_agent.stream_failure s = None
      /\ openai_agent.finalized s <> []
      /\ c' = c ++ openai_agent.Assistant
                     (snd (fst (openai_agent.consume s openai_agent.initial_message)))
                :: tms
      /\ Forall2 (fun tc m => exists content,
                      m = openai_agent.ToolMessage (openai_agent.tc_id tc) content)
                 (openai_agent.finalized s) tms.
Proof.
  intros client messages max_tool_rounds w i c c'. unfold openai_agent.stream.
  destruct (openai_agent.copy_messages messages) as [chat|e].
  2:{ simpl. destruct i; discriminate. }
  unfold agent_loop. intros H0 H1.
  destruct (rounds_consecutive _ _ _ _ _ _ _ _ _ H0 H1) as (evs & w0 & w1 & Hr).
  exact (openai_round_goes_on _ _ _ _ _ _ _ Hr).
Qed.

(** X17: the Gemini adapter never rewrites the conversation either: the
    request of round i+1 is the request of round i, followed by the
    model's text of round i when that text is not empty, and by one
    function response for every pending call of the round, in order, each
    under the name of the function that was called. *)
Theorem gemini_history_is_extended_by_function_responses :
  forall (model : gemini_agent.Provider) (messages : list Message)
         (max_tool_rounds : Z) (w : World) (i : nat)
         (c c' : list gemini_agent.Content),
    nth_error (requests (gemini_agent.stream model messages max_tool_rounds w)) i = Some c ->
    nth_error (requests (gemini_agent.stream model messages max_tool_rounds w)) (S i)
    = Some c' ->
    exists s responses,
      model i c = Ret s
      /\ gemini_agent.stream_failure s = None
      /\ gemini_agent.finalized i s <> []
      /\ c' = gemini_agent.with_model_text i s c ++ responses
      /\ Forall2 (fun pc m => exists result,
                      m = {| gemini_agent.role := "tool";
                             gemini_agent.parts :=
                               [gemini_agent.FunctionResponse (gemini_agent.pc_name pc)
                                  result] |})
                 (gemini_agent.finalized i s) responses.
Proof.
  intros model messages max_tool_rounds w i c c'.
  unfold gemini_agent.stream, agent_loop. intros H0 H1.
  destruct (rounds_consecutive _ _ _ _ _ _ _ _ _ H0 H1) as (evs & w0 & w1 & Hr).
  exact (gemini_round_goes_on _ _ _ _ _ _ _ Hr).
Qed.

(** X18: no run of either adapter sends more requests to the provider
    than the round budget allows (none at all for a budget of zero or
    less). *)
Theorem requests_stay_within_budget :
  forall (client : openai_agent.Provider) (model : gemini_agent.Provider)
         (messages : list Message) (max_tool_rounds : Z) (w : World),
    length (requests (openai_agent.stream client messages max_tool_rounds w))
    <= Z.to_nat max_tool_rounds
    /\ length (requests (gemini_agent.stream model messages max_tool_rounds w))
       <= Z.to_nat max_tool_rounds.
Proof.
  intros client model messages max_tool_rounds w. split.
  - unfold openai_agent.stream.
    destruct (openai_agent.copy_messages messages); [|simpl; lia].
    apply rounds_requests_bound.
  - apply rounds_requests_bound.
Qed.

End History.

Lemma openai_history_is_extended_by_answered_calls_witness :
  exists c c',
    nth_error (requests (openai_agent.stream (X := scenario.collaborators) scenario.helper
                           scenario.question 10 scenario.world)) 0 = Some c
    /\ nth_error (requests (openai_agent.stream (X := scenario.collaborators) scenario.helper
                              scenario.question 10 scenario.world)) 1 = Some c'
    /\ exists s tms,
        scenario.helper 0
          (openai_agent.Plain "system" (SYSTEM_INSTRUCTIONS (Collaborators := scenario.collaborators))
             :: c) = Ret s
        /\ openai_agent.stream_failure s = None
        /\ openai_agent.finalized s <> []
        /\ c' = c ++ openai_agent.Assistant
                       (snd (fst (openai_agent.consume s openai_agent.initial_message)))
                  :: tms
        /\ Forall2 (fun tc m => exists content,
                        m = openai_agent.ToolMessage (openai_agent.tc_id tc) content)
                   (openai_agent.finalized s) tms.
Proof.
  eexists. eexists. split; [reflexivity|]. split; [reflexivity|].
  apply (openai_history_is_extended_by_answered_calls (X := scenario.collaborators)
           scenario.helper scenario.question 10 scenario.world 0 _ _ eq_refl eq_refl).
Defined.

Lemma gemini_history_is_extended_by_function_responses_witness :
  exists c c',
    nth_error (requests (gemini_agent.stream (X := scenario.collaborators)
                           scenario.gemini_helper scenario.question 10 scenario.world)) 0
    = Some c
    /\ nth_error (requests (gemini_agent.stream (X := scenario.collaborators)
                              scenario.gemini_helper scenario.question 10 scenario.world)) 1
       = Some c'
    /\ exists s responses,
        scenario.gemini_helper 0 c = Ret s
        /\ gemini_agent.stream_failure s = None
        /\ gemini_agent.finalized (X := scenario.collaborators) 0 s <> []
        /\ c' = gemini_agent.with_model_text (X := scenario.collaborators) 0 s c ++ responses
        /\ Forall2 (fun pc m => exists result,
                        m = {| gemini_agent.role := "tool";
                               gemini_agent.parts :=
                                 [gemini_agent.FunctionResponse (gemini_agent.pc_name pc)
                                    result] |})
                   (gemini_agent.finalized (X := scenario.collaborators) 0 s) responses.
Proof.
  eexists. eexists. split; [reflexivity|]. split; [reflexivity|].
  apply (gemini_history_is_extended_by_function_responses (X := scenario.collaborators)
           scenario.gemini_helper scenario.question 10 scenario.world 0 _ _ eq_refl eq_refl).
Defined.

(** ** What the OpenAI adapter accumulates from the provider's increments *)

Lemma string_append_nil_r (s : string) : (s ++ "")%string = s.
Proof. induction s as [|a s IH]; simpl; [reflexivity | rewrite IH; reflexivity]. Qed.

Lemma truthy_false_text (s : option string) : truthy s = false -> text_of s = "".
Proof. destruct s as [[|a s]|]; simpl; congruence. Qed.

Section Accumulation.
Import openai_agent.

Lemma nth_ensure (idx i : nat) (tcs : list ToolCallEntry) :
  nth i (ensure idx tcs) empty_call = nth i tcs empty_call.
Proof.
  unfold ensure. destruct (Nat.lt_ge_cases i (length tcs)) as [L|G].
  - apply app_nth1, L.
  - rewrite app_nth2 by exact G. rewrite nth_repeat.
    symmetry. apply nth_overflow, G.
Qed.

Lemma nth_update_at_other (idx i : nat) (f : ToolCallEntry -> ToolCallEntry)
      (tcs : list ToolCallEntry) :
  idx <> i -> nth i (update_at idx f tcs) empty_call = nth i tcs empty_call.
Proof.
  revert idx i. induction tcs as [|tc tcs IH]; intros [|idx] [|i] H; simpl; auto;
    congruence.
Qed.

Lemma nth_update_at_same (idx : nat) (f : ToolCallEntry -> ToolCallEntry)
      (tcs : list ToolCallEntry) :
  idx < length tcs ->
  nth idx (update_at idx f tcs) empty_call = f (nth idx tcs empty_call).
Proof.
  revert idx. induction tcs as [|tc tcs IH]; intros [|idx] H; simpl in *; try lia; auto.
  apply IH. lia.
Qed.

(** An update that leaves the argument text of an entry alone leaves the
    argument text at every position alone. *)
Lemma arguments_update_at (idx i : nat) (f : ToolCallEntry -> ToolCallEntry)
      (tcs : list ToolCallEntry) :
  (forall tc, tc_arguments (f tc) = tc_arguments tc) ->
  tc_arguments (nth i (update_at idx f tcs) empty_call)
  = tc_arguments (nth i tcs empty_call).
Proof.
  intros Hf. revert idx i.
  induction tcs as [|tc tcs IH]; intros [|idx] [|i]; simpl; auto.
Qed.

Lemma arguments_update_if (b : bool) (idx i : nat) (f : ToolCallEntry -> ToolCallEntry)
      (tcs : list ToolCallEntry) :
  (forall tc, tc_arguments (f tc) = tc_arguments tc) ->
  tc_arguments (nth i (update_if b idx f tcs) empty_call)
  = tc_arguments (nth i tcs empty_call).
Proof. destruct b; [apply arguments_update_at | reflexivity]. Qed.

Lemma on_tool_call_delta_arguments (i : nat) (d : ToolCallDelta) (tcs : list ToolCallEntry) :
  tc_arguments (nth i (snd (on_tool_call_delta d tcs)) empty_call)
  = (tc_arguments (nth i tcs empty_call) ++ fragment_of i d)%string.
Proof.
  unfold on_tool_call_delta, fragment_of.
  destruct (tcd_index d) as [idx|]; [|symmetry; apply string_append_nil_r].
  destruct (tcd_function d) as [f|].
  2:{ simpl. rewrite arguments_update_if by reflexivity.
      rewrite nth_ensure. symmetry. apply string_append_nil_r. }
  destruct (truthy (fd_arguments f)) eqn:Et; simpl.
  - destruct (Nat.eqb_spec idx i) as [->|Hne].
    + rewrite nth_update_at_same
        by (rewrite !update_if_length, ensure_length; lia).
      simpl. rewrite !arguments_update_if by reflexivity.
      rewrite nth_ensure. reflexivity.
    + rewrite nth_update_at_other by exact Hne.
      rewrite !arguments_update_if by reflexivity.
      rewrite nth_ensure. symmetry. apply string_append_nil_r.
  - rewrite !arguments_update_if by reflexivity.
    rewrite nth_ensure, (truthy_false_text _ Et).
    destruct (Nat.eqb idx i); symmetry; apply string_append_nil_r.
Qed.

Lemma on_tool_call_delta_reach (d : ToolCallDelta) (tcs : list ToolCallEntry) :
  length (snd (on_tool_call_delta d tcs))
  = Nat.max (length tcs) (match tcd_index d with Some idx => S idx | None => 0 end).
Proof.
  unfold on_tool_call_delta.
  destruct (tcd_index d) as [idx|]; [|simpl; lia].
  destruct (tcd_function d) as [f|].
  2:{ simpl. rewrite update_if_length. apply ensure_length. }
  destruct (truthy (fd_arguments f)); simpl.
  - rewrite update_at_length, !update_if_length. apply ensure_length.
  - rewrite !update_if_length. apply ensure_length.
Qed.

Lemma on_tool_call_deltas_arguments (i : nat) (ds : list ToolCallDelta)
      (tcs : list ToolCallEntry) :
  tc_arguments (nth i (snd (on_tool_call_deltas ds tcs)) empty_call)
  = (tc_arguments (nth i tcs empty_call) ++ fragments_for i ds)%string.
Proof.
  revert tcs. induction ds as [|d ds IH]; intros tcs; simpl.
  - symmetry. apply string_append_nil_r.
  - pose proof (on_tool_call_delta_arguments i d tcs) as H1.
    destruct (on_tool_call_delta d tcs) as [evs1 tcs1].
    specialize (IH tcs1). destruct (on_tool_call_deltas ds tcs1) as [evs2 tcs2].
    cbn [fst snd] in *. rewrite IH, H1. apply string_append_assoc.
Qed.

Lemma on_tool_call_deltas_reach (ds : list ToolCallDelta) (tcs : list ToolCallEntry) :
  length (snd (on_tool_call_deltas ds tcs))
  = Nat.max (length tcs)
      (list_max (map (fun d => match tcd_index d with Some idx => S idx | None => 0 end) ds)).
Proof.
  revert tcs. induction ds as [|d ds IH]; intros tcs; simpl; [lia|].
  pose proof (on_tool_call_delta_reach d tcs) as H1.
  destruct (on_tool_call_delta d tcs) as [evs1 tcs1].
  specialize (IH tcs1). destruct (on_tool_call_deltas ds tcs1) as [evs2 tcs2].
  cbn [fst snd] in *. rewrite IH, H1. lia.
Qed.

Lemma fragments_for_app (i : nat) (a b : list ToolCallDelta) :
  fragments_for i (a ++ b) = (fragments_for i a ++ fragments_for i b)%string.
Proof.
  induction a as [|d a IH]; simpl; [reflexivity|].
  rewrite IH. symmetry. apply string_append_assoc.
Qed.

Lemma on_chunk_tool_calls (c : Chunk) (am : AssistantMessage) :
  am_tool_calls (snd (on_chunk c am))
  = snd (on_tool_call_deltas (read_deltas c) (am_tool_calls am)).
Proof.
  unfold on_chunk, read_deltas. destruct (choices c) as [|delta _]; [reflexivity|].
  destruct (on_tool_call_deltas (tool_calls delta) (am_tool_calls am)) as [evs2 tcs].
  destruct (truthy (content delta)); reflexivity.
Qed.

Lemma consume_arguments (i : nat) (s : ChunkStream) (am : AssistantMessage) :
  tc_arguments (nth i (am_tool_calls (snd (fst (consume s am)))) empty_call)
  = (tc_arguments (nth i (am_tool_calls am) empty_call)
     ++ fragments_for i (all_deltas s))%string.
Proof.
  revert am. induction s as [|c rest IH|e]; intros am; simpl;
    try (symmetry; apply string_append_nil_r).
  pose proof (on_chunk_tool_calls c am) as H1.
  destruct (on_chunk c am) as [evs1 am1].
  specialize (IH am1). destruct (consume rest am1) as [[evs2 am2] failure].
  cbn [fst snd] in *. rewrite IH, H1, on_tool_call_deltas_arguments, fragments_for_app.
  apply string_append_assoc.
Qed.

Lemma consume_reach (s : ChunkStream) (am : AssistantMessage) :
  length (am_tool_calls (snd (fst (consume s am))))
  = Nat.max (length (am_tool_calls am))
      (list_max (map (fun d => match tcd_index d with Some idx => S idx | None => 0 end)
                     (all_deltas s))).
Proof.
  revert am. induction s as [|c rest IH|e]; intros am; simpl; try lia.
  pose proof (on_chunk_tool_calls c am) as H1.
  destruct (on_chunk c am) as [evs1 am1].
  specialize (IH am1). destruct (consume rest am1) as [[evs2 am2] failure].
  cbn [fst snd] in *.
  rewrite IH, H1, on_tool_call_deltas_reach, map_app, list_max_app. lia.
Qed.

(** X19: the argument text of the call at a position is the
    concatenation, in order of arrival, of the argument fragments the
    provider sent for that position, however the fragments of different
    calls interleave and whether or not the iterator ends by raising. *)
Theorem arguments_are_reassembled_by_index :
  forall (s : ChunkStream) (i : nat),
    tc_arguments (nth i (finalized s) empty_call) = fragments_for i (all_deltas s).
Proof.
  intros s i. unfold finalized. rewrite consume_arguments.
  destruct i; reflexivity.
Qed.

Lemma nth_update_if_other (b : bool) (idx i : nat) (f : ToolCallEntry -> ToolCallEntry)
      (tcs : list ToolCallEntry) :
  idx <> i -> nth i (update_if b idx f tcs) empty_call = nth i tcs empty_call.
Proof. intros H. destruct b; [apply nth_update_at_other, H | reflexivity]. Qed.

(** An increment for another position leaves the call at position [i] as
    it is (the empty call when the list does not reach [i] yet). *)
Lemma on_tool_call_delta_untouched (i : nat) (d : ToolCallDelta) (tcs : list ToolCallEntry) :
  tcd_index d <> Some i ->
  nth i (snd (on_tool_call_delta d tcs)) empty_call = nth i tcs empty_call.
Proof.
  unfold on_tool_call_delta. intros Hd.
  destruct (tcd_index d) as [idx|]; [|reflexivity].
  assert (Hne : idx <> i) by congruence.
  destruct (tcd_function d) as [f|].
  2:{ simpl. rewrite nth_update_if_other by exact Hne. apply nth_ensure. }
  destruct (truthy (fd_arguments f)); simpl.
  - rewrite nth_update_at_other, !nth_update_if_other by exact Hne. apply nth_ensure.
  - rewrite !nth_update_if_other by exact Hne. apply nth_ensure.
Qed.

Lemma on_tool_call_deltas_untouched (i : nat) (ds : list ToolCallDelta)
      (tcs : list ToolCallEntry) :
  (forall d, In d ds -> tcd_index d <> Some i) ->
  nth i (snd (on_tool_call_deltas ds tcs)) empty_call = nth i tcs empty_call.
Proof.
  revert tcs. induction ds as [|d ds IH]; intros tcs Hds; simpl; [reflexivity|].
  pose proof (on_tool_call_delta_untouched i d tcs (Hds d (or_introl eq_refl))) as H1.
  destruct (on_tool_call_delta d tcs) as [evs1 tcs1].
  specialize (IH tcs1 (fun d' Hin => Hds d' (or_intror Hin))).
  destruct (on_tool_call_deltas ds tcs1) as [evs2 tcs2].
  cbn [fst snd] in *. rewrite IH. exact H1.
Qed.

Lemma consume_untouched (i : nat) (s : ChunkStream) (am : AssistantMessage) :
  (forall d, In d (all_deltas s) -> tcd_index d <> Some i) ->
  nth i (am_tool_calls (snd (fst (consume s am)))) empty_call
  = nth i (am_tool_calls am) empty_call.
Proof.
  revert am. induction s as [|c rest IH|e]; intros am Hs; simpl; try reflexivity.
  pose proof (on_chunk_tool_calls c am) as H1.
  simpl in Hs.
  destruct (on_chunk c am) as [evs1 am1].
  specialize (IH am1 (fun d Hin => Hs d (in_or_app _ _ _ (or_intror Hin)))).
  destruct (consume rest am1) as [[evs2 am2] failure].
  cbn [fst snd] in *. rewrite IH, H1.
  apply on_tool_call_deltas_untouched. intros d Hin. apply Hs, in_or_app. auto.
Qed.

Lemma split_at_position {A : Type} (l : list A) (j : nat) (a : A) :
  nth_error l j = Some a -> l = firstn j l ++ a :: skipn (S j) l.
Proof.
  revert j. induction l as [|x l IH]; intros [|j]; simpl; try discriminate.
  - intros H. inversion H. reflexivity.
  - intros H. f_equal. apply IH, H.
Qed.

Lemma unnamed_position_is_empty (s : ChunkStream) (j : nat) :
  j < length (finalized s) ->
  (forall d, In d (all_deltas s) -> tcd_index d <> Some j) ->
  nth_error (finalized s) j = Some empty_call.
Proof.
  intros Hj Hs. rewrite (nth_error_nth' _ empty_call Hj). f_equal.
  unfold finalized. rewrite consume_untouched by exact Hs. destruct j; reflexivity.
Qed.

Context {X : Collaborators}.

(** X20: a response finalizes as many tool calls as the largest position
    named by an increment, plus one.  A position below that which no
    increment named holds the call with empty identifier, name and argument
    text, and the run treats it like any other call: in a round that was
    performed and whose response was read to its end, once the calls before
    it have returned, [tool_call] and [tool_result] are yielded for it with
    the UNKNOWN_TOOL payload of the empty name, and the run goes on with the
    remaining calls of the round and the rounds that are left. *)
Theorem finalized_calls_reach_the_largest_index :
  forall (s : ChunkStream),
    length (finalized s)
    = list_max (map (fun d => match tcd_index d with Some idx => S idx | None => 0 end)
                    (all_deltas s))
    /\ forall (j : nat),
        j < length (finalized s) ->
        (forall d, In d (all_deltas s) -> tcd_index d <> Some j) ->
        nth_error (finalized s) j
        = Some {| tc_id := ""; tc_name := ""; tc_arguments := "" |}
        /\ forall (client : Provider) (messages : list Message) (max_tool_rounds : Z)
                  (w : World) (i : nat) (c : list ChatMessage),
            nth_error (requests (stream client messages max_tool_rounds w)) i = Some c ->
            client i (Plain "system" SYSTEM_INSTRUCTIONS :: c) = Ret s ->
            stream_failure s = None ->
            exists m w_i pre reqs,
              Z.to_nat max_tool_rounds = i + S m
              /\ no_terminal pre = true
              /\ length reqs = i
              /\ forall evs0 chat0 w0,
                  execute_tool_calls (firstn j (finalized s))
                    (c ++ [Assistant (snd (fst (consume s initial_message)))]) w_i
                  = (evs0, Ret chat0, w0) ->
                  events (stream client messages max_tool_rounds w)
                  = pre ++ fst (fst (consume s initial_message)) ++ evs0
                      ++ tool_call "" "" (parse_arguments "")
                      :: tool_result "" "" (tools.unknown_tool "")
                      :: events (resume client max_tool_rounds m i
                                   (skipn (S j) (finalized s))
                                   (chat0 ++ [ToolMessage ""
                                                (json_dumps (tools.unknown_tool ""))])
                                   w0)
                  /\ requests (stream client messages max_tool_rounds w)
                     = reqs ++ c
                       :: requests (resume client max_tool_rounds m i
                                      (skipn (S j) (finalized s))
                                      (chat0 ++ [ToolMessage ""
                                                   (json_dumps (tools.unknown_tool ""))])
                                      w0).
Proof.
  intros s. split.
  - unfold finalized. rewrite consume_reach. reflexivity.
  - intros j Hj Hs. pose proof (unnamed_position_is_empty s j Hj Hs) as He.
    split; [exact He|].
    intros client messages max_tool_rounds w i c Hreq Hc Hf.
    destruct (run_at_call client max_tool_rounds messages w i c s
                (firstn j (finalized s)) (empty_call :: skipn (S j) (finalized s))
                Hreq Hc Hf (split_at_position _ _ _ He) ltac:(discriminate))
      as (m & w_i & pre & reqs & Hm & Hpre & Hlen & H).
    exists m, w_i, pre, reqs. repeat split; auto;
      destruct (H _ _ _ H0) as [Hev Hrq]; [rewrite Hev | rewrite Hrq];
      rewrite resume_cons; cbn [tc_name tc_id tc_arguments empty_call];
      rewrite (run_tool_unknown "" _ w0 eq_refl); reflexivity.
Qed.

End Accumulation.

Lemma finalized_calls_reach_the_largest_index_witness :
  1 < 2
  /\ (forall d,
        In d [{| openai_agent.tcd_index := Some 1; openai_agent.tcd_id := Some "call_2";
                 openai_agent.tcd_function :=
                   Some {| openai_agent.fd_name := Some "list_stores";
                           openai_agent.fd_arguments := Some "{}" |} |}] ->
        openai_agent.tcd_index d <> Some 0)
  /\ openai_agent.finalized
       (openai_agent.Next
          {| openai_agent.choices :=
               [{| openai_agent.content := None;
                   openai_agent.tool_calls :=
                     [{| openai_agent.tcd_index := Some 1;
                         openai_agent.tcd_id := Some "call_2";
                         openai_agent.tcd_function :=
                           Some {| openai_agent.fd_name := Some "list_stores";
                                   openai_agent.fd_arguments := Some "{}" |} |}] |}] |}
          openai_agent.EndOfStream)
     = [openai_agent.empty_call;
        {| openai_agent.tc_id := "call_2"; openai_agent.tc_name := "list_stores";
           openai_agent.tc_arguments := "{}" |}]
  /\ nth_error
       (openai_agent.finalized
          (openai_agent.Next
             {| openai_agent.choices :=
                  [{| openai_agent.content := None;
                      openai_agent.tool_calls :=
                        [{| openai_agent.tcd_index := Some 1;
                            openai_agent.tcd_id := Some "call_2";
                            openai_agent.tcd_function :=
                              Some {| openai_agent.fd_name := Some "list_stores";
                                      openai_agent.fd_arguments := Some "{}" |} |}] |}] |}
             openai_agent.EndOfStream)) 0
     = Some {| openai_agent.tc_id := ""; openai_agent.tc_name := "";
               openai_agent.tc_arguments := "" |}.
Proof.
  split; [lia|].
  assert (H : forall d,
             In d [{| openai_agent.tcd_index := Some 1; openai_agent.tcd_id := Some "call_2";
                      openai_agent.tcd_function :=
                        Some {| openai_agent.fd_name := Some "list_stores";
                                openai_agent.fd_arguments := Some "{}" |} |}] ->
             openai_agent.tcd_index d <> Some 0).
  { intros d [<-|[]]. discriminate. }
  split; [exact H|]. split; [reflexivity|].
  apply (proj1 (proj2 (finalized_calls_reach_the_largest_index
                         (X := scenario.collaborators)
                         (openai_agent.Next
                            {| openai_agent.choices :=
                                 [{| openai_agent.content := None;
                                     openai_agent.tool_calls :=
                                       [{| openai_agent.tcd_index := Some 1;
                                           openai_agent.tcd_id := Some "call_2";
                                           openai_agent.tcd_function :=
                                             Some {| openai_agent.fd_name := Some "list_stores";
                                                     openai_agent.fd_arguments := Some "{}" |} |}] |}] |}
                            openai_agent.EndOfStream))
                  0 ltac:(simpl; lia) H)).
Defined.

(** ** The text a round records *)

Lemma streamed_text_app (a b : list AgentEvent) :
  streamed_text (a ++ b) = (streamed_text a ++ streamed_text b)%string.
Proof.
  induction a as [|e a IH]; simpl; [reflexivity|].
  destruct e; auto. rewrite IH. symmetry. apply string_append_assoc.
Qed.

Lemma streamed_text_args_deltas (evs : list AgentEvent) :
  forallb is_tool_args_delta evs = true -> streamed_text evs = "".
Proof.
  induction evs as [|e evs IH]; simpl; [reflexivity|].
  intros H. apply andb_true_iff in H as [H1 H2].
  destruct e; try discriminate; auto.
Qed.

Lemma openai_consume_text (s : openai_agent.ChunkStream) (am : openai_agent.AssistantMessage) :
  openai_agent.am_content (snd (fst (openai_agent.consume s am)))
  = (openai_agent.am_content am
     ++ streamed_text (fst (fst (openai_agent.consume s am))))%string.
Proof.
  revert am. induction s as [|c rest IH|e]; intros am; simpl;
    try (symmetry; apply string_append_nil_r).
  assert (H1 : openai_agent.am_content (snd (openai_agent.on_chunk c am))
               = (openai_agent.am_content am
                  ++ streamed_text (fst (openai_agent.on_chunk c am)))%string).
  { unfold openai_agent.on_chunk.
    destruct (openai_agent.choices c) as [|delta _];
      [symmetry; apply string_append_nil_r|].
    pose proof (on_tool_call_deltas_increments (openai_agent.tool_calls delta)
                  (openai_agent.am_tool_calls am)) as Hd.
    destruct (openai_agent.on_tool_call_deltas _ _) as [evs2 tcs]. simpl in Hd.
    destruct (truthy (openai_agent.content delta)); simpl;
      rewrite (streamed_text_args_deltas _ Hd), ?string_append_nil_r; reflexivity. }
  destruct (openai_agent.on_chunk c am) as [evs1 am1].
  specialize (IH am1). destruct (openai_agent.consume rest am1) as [[evs2 am2] failure].
  cbn [fst snd] in *. rewrite IH, H1, streamed_text_app. apply string_append_assoc.
Qed.

Section GeminiText.
Context {X : Collaborators}.

Lemma gemini_consume_text (idx : nat) (s : gemini_agent.ChunkStream)
      (st : gemini_agent.RoundState) :
  snd (snd (fst (gemini_agent.consume idx s st)))
  = (snd st ++ streamed_text (fst (fst (gemini_agent.consume idx s st))))%string.
Proof.
  revert st. induction s as [|c rest IH|e]; intros st; simpl;
    try (symmetry; apply string_append_nil_r).
  unfold gemini_agent.on_chunk.
  destruct (gemini_agent.text c) as [delta|e]; [|symmetry; apply string_append_nil_r].
  assert (H1 : snd (snd (gemini_agent.after_text idx delta c st))
               = (snd st
                  ++ streamed_text (fst (gemini_agent.after_text idx delta c st)))%string).
  { destruct st as [pcs txt]. unfold gemini_agent.after_text.
    pose proof (on_candidates_increments idx (gemini_agent.candidates c) pcs) as Hd.
    destruct (gemini_agent.on_candidates idx _ pcs) as [evs2 pc2]. simpl in Hd.
    destruct (truthy delta); simpl;
      rewrite (streamed_text_args_deltas _ Hd), ?string_append_nil_r; reflexivity. }
  destruct (gemini_agent.after_text idx delta c st) as [evs1 st1].
  specialize (IH st1). destruct (gemini_agent.consume idx rest st1) as [[evs2 st2] failure].
  cbn [fst snd] in *. rewrite IH, H1, streamed_text_app. apply string_append_assoc.
Qed.

(** X21: the text an adapter records for the model's turn is exactly the
    text it streamed to the caller: the content of the OpenAI assistant
    message, and the Gemini model text, equal the concatenation of the
    [text_delta] events yielded while the response was read. *)
Theorem recorded_text_is_the_streamed_text :
  forall (s : openai_agent.ChunkStream) (idx : nat) (g : gemini_agent.ChunkStream),
    openai_agent.am_content
      (snd (fst (openai_agent.consume s openai_agent.initial_message)))
    = streamed_text (fst (fst (openai_agent.consume s openai_agent.initial_message)))
    /\ gemini_agent.finalized_text idx g
       = streamed_text (fst (fst (gemini_agent.consume idx g ([], "")))).
Proof.
  intros s idx g. split.
  - rewrite openai_consume_text. reflexivity.
  - unfold gemini_agent.finalized_text. rewrite gemini_consume_text. reflexivity.
Qed.

End GeminiText.
